(** * The xv6 write-ahead log with a checksum block (xv6/log.c)

    A shallow embedding of [log.c]: the in-memory [struct log], the buffer
    cache it talks to, the device underneath, and every routine of the file
    as a computation in a small state-and-error monad.  The theorems below
    the definitions relate the routines to the properties the design
    document states for them. *)

From stdpp Require Import gmap strings list.
From Stdlib Require Import ZArith Lia.

Open Scope Z_scope.

(** ** Constants of [param.h] and [fs.h]

    [BSIZE], [LOGSIZE] and [MAXOPBLOCKS] are macros of headers that are not
    part of [log.c]; they are parameters of the development. *)

Class Params := { BSIZE : Z; LOGSIZE : Z; MAXOPBLOCKS : Z }.

(** The values of the stock xv6 headers, which also match the comment at
    the top of [log.c] ("30 log blocks - 1 checksum, 1 header, 28 free
    blocks").  Used for the concrete runs. *)
Definition xv6 : Params :=
  {| BSIZE := 512; LOGSIZE := 30; MAXOPBLOCKS := 10 |}.

(** ** Machine integers

    An [int] or [uint] is its value in [Z].  [uint] arithmetic wraps modulo
    2^32, [int] arithmetic wraps to the range from -2^31 to 2^31 - 1 (what
    the compiled kernel does), and both are written out, as are the
    conversions between [int], [uint] and [uchar].  Two shortcuts, both
    exact: a loop index runs from 0 up to an [int] bound, so its increments
    never wrap; and a block address [log.start + ...] is added up in [int]
    and then passed as a [uint], which is the exact sum modulo 2^32 whether
    the [int] additions wrapped or not. *)

Definition to_uint (z : Z) : Z := z mod 2 ^ 32.
Definition to_int (z : Z) : Z := (z + 2 ^ 31) mod 2 ^ 32 - 2 ^ 31.
Definition to_uchar (z : Z) : Z := z mod 256.

(** ** Blocks, events, and the state of the kernel

    A block is the [uchar data[BSIZE]] array of a buffer, as a list of
    byte values. *)

Definition byte_at (d : list Z) (j : Z) : Z := nth (Z.to_nat j) d 0.

(** What the kernel does to the outside world, in the order it does it:
    device reads and writes, console output, and wakeups. *)
Inductive event :=
| EvRead (blockno : Z)
| EvWrite (blockno : Z) (data : list Z)
| EvPrint (fmt : string) (args : list Z)
| EvWakeup.

(** [struct logheader]. *)
Record logheader := Logheader {
  lh_n : Z;
  lh_block : list Z
}.

(** [struct log].  The spinlock is the flag [log_locked]. *)
Record log := Log {
  log_locked : bool;
  log_start : Z;
  log_size : Z;
  log_outstanding : Z;
  log_committing : Z;
  log_dev : Z;
  log_checksum : Z;
  log_lh : logheader
}.

(** The kernel state [log.c] can see: the global [log], the buffer cache
    (the data of every buffer that holds a block, and the set of buffers
    flagged [B_DIRTY]), the device, and the events so far. *)
Record kernel := Kernel {
  k_log : log;
  k_cache : gmap Z (list Z);
  k_dirty : gset Z;
  k_disk : gmap Z (list Z);
  k_trace : list event
}.

(** The layout descriptor [readsb] fills in; only the two fields [initlog]
    uses.  Both are [uint]. *)
Record superblock := Superblock { logstart : Z; nlog : Z }.

(** *** Field updates *)

Definition set_log (f : log → log) (k : kernel) : kernel :=
  Kernel (f (k_log k)) (k_cache k) (k_dirty k) (k_disk k) (k_trace k).
Definition set_cache (f : gmap Z (list Z) → gmap Z (list Z)) (k : kernel) : kernel :=
  Kernel (k_log k) (f (k_cache k)) (k_dirty k) (k_disk k) (k_trace k).
Definition set_dirty (f : gset Z → gset Z) (k : kernel) : kernel :=
  Kernel (k_log k) (k_cache k) (f (k_dirty k)) (k_disk k) (k_trace k).
Definition set_disk (f : gmap Z (list Z) → gmap Z (list Z)) (k : kernel) : kernel :=
  Kernel (k_log k) (k_cache k) (k_dirty k) (f (k_disk k)) (k_trace k).
Definition emit (e : event) (k : kernel) : kernel :=
  Kernel (k_log k) (k_cache k) (k_dirty k) (k_disk k) (k_trace k ++ [e]).

Definition with_locked (b : bool) (l : log) : log :=
  Log b (log_start l) (log_size l) (log_outstanding l) (log_committing l)
      (log_dev l) (log_checksum l) (log_lh l).
Definition with_start (v : Z) (l : log) : log :=
  Log (log_locked l) v (log_size l) (log_outstanding l) (log_committing l)
      (log_dev l) (log_checksum l) (log_lh l).
Definition with_size (v : Z) (l : log) : log :=
  Log (log_locked l) (log_start l) v (log_outstanding l) (log_committing l)
      (log_dev l) (log_checksum l) (log_lh l).
Definition with_outstanding (v : Z) (l : log) : log :=
  Log (log_locked l) (log_start l) (log_size l) v (log_committing l)
      (log_dev l) (log_checksum l) (log_lh l).
Definition with_committing (v : Z) (l : log) : log :=
  Log (log_locked l) (log_start l) (log_size l) (log_outstanding l) v
      (log_dev l) (log_checksum l) (log_lh l).
Definition with_dev (v : Z) (l : log) : log :=
  Log (log_locked l) (log_start l) (log_size l) (log_outstanding l)
      (log_committing l) v (log_checksum l) (log_lh l).
Definition with_checksum (v : Z) (l : log) : log :=
  Log (log_locked l) (log_start l) (log_size l) (log_outstanding l)
      (log_committing l) (log_dev l) v (log_lh l).
Definition with_lh (f : logheader → logheader) (l : log) : log :=
  Log (log_locked l) (log_start l) (log_size l) (log_outstanding l)
      (log_committing l) (log_dev l) (log_checksum l) (f (log_lh l)).
Definition with_n (v : Z) (h : logheader) : logheader :=
  Logheader v (lh_block h).
Definition with_block (f : list Z → list Z) (h : logheader) : logheader :=
  Logheader (lh_n h) (f (lh_block h)).

(** Shorthands for the fields of the global [log]. *)
Definition k_n (k : kernel) : Z := lh_n (log_lh (k_log k)).
Definition k_block (k : kernel) : list Z := lh_block (log_lh (k_log k)).
Definition k_start (k : kernel) : Z := log_start (k_log k).
Definition k_size (k : kernel) : Z := log_size (k_log k).
Definition k_dev (k : kernel) : Z := log_dev (k_log k).
Definition k_outstanding (k : kernel) : Z := log_outstanding (k_log k).
Definition k_committing (k : kernel) : Z := log_committing (k_log k).
Definition k_checksum (k : kernel) : Z := log_checksum (k_log k).
Definition k_locked (k : kernel) : bool := log_locked (k_log k).

(** ** The monad: state, [panic], and undefined behaviour

    A routine either returns ([Done]), halts the kernel in [panic]
    ([Panic], with the message), indexes [log.lh.block] outside its
    [LOGSIZE] entries ([Fault]: undefined behaviour in C), or is left
    sleeping on the channel [&log] ([Asleep]). *)

Inductive result (A : Type) :=
| Done (a : A) (k : kernel)
| Panic (msg : string) (k : kernel)
| Fault (k : kernel)
| Asleep (k : kernel).
Arguments Done {A} a k.
Arguments Panic {A} msg k.
Arguments Fault {A} k.
Arguments Asleep {A} k.

Definition M (A : Type) : Type := kernel → result A.

#[global] Instance M_ret : MRet M := λ A a k, Done a k.
#[global] Instance M_bind : MBind M := λ A B f m k,
  match m k with
  | Done a k' => f a k'
  | Panic msg k' => Panic msg k'
  | Fault k' => Fault k'
  | Asleep k' => Asleep k'
  end.

Definition gets {A} (f : kernel → A) : M A := λ k, Done (f k) k.
Definition modify (f : kernel → kernel) : M unit := λ k, Done tt (f k).
Definition panic {A} (msg : string) : M A := λ k, Panic msg k.
Definition cprintf (fmt : string) (args : list Z) : M unit :=
  modify (emit (EvPrint fmt args)).

(** [for (i = i0; i < i0 + fuel; i++) body(i)].  The loops of [log.c] run
    [for (i = 0; i < log.lh.n; i++)] and no loop body writes [log.lh.n], so
    a loop is run with the [n] it finds at its start for fuel. *)
Fixpoint for_loop (fuel : nat) (i : Z) (body : Z → M unit) : M unit :=
  match fuel with
  | O => mret tt
  | S fuel' => body i;; for_loop fuel' (i + 1) body
  end.

(** The same loop carrying a local variable that the body updates. *)
Fixpoint for_acc (fuel : nat) (i : Z) (acc : Z) (body : Z → Z → M Z) : M Z :=
  match fuel with
  | O => mret acc
  | S fuel' => acc' ← body i acc; for_acc fuel' (i + 1) acc' body
  end.

(** Reads and writes of [log.lh.block[i]]. *)
Definition lh_block_get (i : Z) : M Z := λ k,
  match k_block k !! Z.to_nat i with
  | Some v => Done v k
  | None => Fault k
  end.
Definition lh_block_set (i v : Z) : M unit := λ k,
  if decide (Z.to_nat i < length (k_block k))%nat
  then Done tt (set_log (with_lh (with_block (<[Z.to_nat i := v]>))) k)
  else Fault k.

Section Routines.
Context {P : Params}.

(** ** The collaborators of [log.c] *)

(** Modelled from the spec: the block device.  The device holds one block
    per block number; a block never written reads as zeroes. *)
Definition dread (d : gmap Z (list Z)) (blockno : Z) : list Z :=
  default (replicate (Z.to_nat BSIZE) 0) (d !! blockno).

(** The data a buffer for [blockno] holds: that of the cache when the block
    is cached, that of the device when it is not. *)
Definition k_view (k : kernel) (blockno : Z) : list Z :=
  match k_cache k !! blockno with
  | Some d => d
  | None => dread (k_disk k) blockno
  end.

(** Modelled from the spec: the buffer cache (bio.c is not part of the
    log), "acquire-block-by-(device, number) returning a mutable
    block-sized buffer; persist-buffer (synchronous write-through);
    release-buffer".  A [struct buf *] is the number of the block it holds;
    two [bread]s of one block give the same buffer.  [bread] reads the
    device only when the block is not cached.  [log.c] uses a single
    device, [log.dev]. *)
Definition bread (dev blockno : Z) : M Z := λ k,
  match k_cache k !! blockno with
  | Some _ => Done blockno k
  | None =>
      Done blockno
        (set_cache (<[blockno := dread (k_disk k) blockno]>)
           (emit (EvRead blockno) k))
  end.

(** [bwrite]: the buffer's data goes to the device, and the buffer is clean
    afterwards. *)
Definition bwrite (b : Z) : M unit :=
  modify (λ k,
    set_dirty (λ s, s ∖ {[b]})
      (set_disk (<[b := k_view k b]>) (emit (EvWrite b (k_view k b)) k))).

Definition brelse (b : Z) : M unit := mret tt.

(** [b->data], [b->data[j] = v], and [memmove(dst->data, src->data, BSIZE)]
    on buffers. *)
Definition buf_data (b : Z) : M (list Z) := gets (λ k, k_view k b).
Definition buf_poke (b j v : Z) : M unit :=
  modify (λ k, set_cache (<[b := <[Z.to_nat j := v]> (k_view k b)]>) k).
Definition memmove (dst src : Z) : M unit :=
  modify (λ k,
    set_cache
      (<[dst := take (Z.to_nat BSIZE) (k_view k src)
                ++ drop (Z.to_nat BSIZE) (k_view k dst)]>) k).

(** Modelled from the spec: the lock primitives, "mutual exclusion
    acquire/release; block-until-woken keyed on an address/token; wake-all
    on that token".  One thread of control runs a routine; contention for
    the lock is not modelled. *)
Definition initlock : M unit := modify (set_log (with_locked false)).
Definition acquire : M unit := modify (set_log (with_locked true)).
Definition release : M unit := modify (set_log (with_locked false)).
Definition wakeup : M unit := modify (emit EvWakeup).

(** ** The header block as bytes

    [buf->data] cast to a pointer to [struct logheader]: the [int] fields of
    the header lie in the block four bytes each, least significant byte
    first; word 0 is [n], word [1 + i] is [block[i]]. *)
Definition load_int (d : list Z) (word : Z) : Z :=
  to_int (byte_at d (4 * word)
          + Z.shiftl (byte_at d (4 * word + 1)) 8
          + Z.shiftl (byte_at d (4 * word + 2)) 16
          + Z.shiftl (byte_at d (4 * word + 3)) 24).
Definition store_int (b word v : Z) : M unit :=
  buf_poke b (4 * word) (to_uchar (to_uint v));;
  buf_poke b (4 * word + 1) (to_uchar (Z.shiftr (to_uint v) 8));;
  buf_poke b (4 * word + 2) (to_uchar (Z.shiftr (to_uint v) 16));;
  buf_poke b (4 * word + 3) (to_uchar (Z.shiftr (to_uint v) 24)).

(** ** The checksum

    [(buf->data[0]) + (buf->data[1]<<8) + (buf->data[2]<<16) +
    (buf->data[3]<<24)], an [int], assigned to a [uint]. *)
Definition load_checksum (d : list Z) : Z :=
  to_uint (to_int (byte_at d 0 + Z.shiftl (byte_at d 1) 8
                   + Z.shiftl (byte_at d 2) 16 + Z.shiftl (byte_at d 3) 24)).

(** [for (j = j0; j < j0 + fuel; j++) checksum += (j+1) * data[j];] on the
    [uint checksum]; the product is an [int].  The block does not change
    during the loop. *)
Fixpoint sum_bytes (fuel : nat) (j : Z) (d : list Z) (checksum : Z) : Z :=
  match fuel with
  | O => checksum
  | S fuel' =>
      sum_bytes fuel' (j + 1) d
        (to_uint (checksum + to_uint (to_int ((j + 1) * byte_at d j))))
  end.

(** The outer loop of the three checksum routines; they differ in the block
    they start from: [log.start + i + first]. *)
Definition sum_log_blocks (first : Z) : M Z :=
  n ← gets k_n;
  for_acc (Z.to_nat n) 0 0 (λ i checksum,
    dev ← gets k_dev;
    start ← gets k_start;
    logblocks ← bread dev (to_uint (start + i + first));
    d ← buf_data logblocks;
    brelse logblocks;;
    mret (sum_bytes (Z.to_nat BSIZE) 0 d checksum)).

(** ** The routines of [log.c] *)

Definition install_trans : M unit :=
  n ← gets k_n;
  for_loop (Z.to_nat n) 0 (λ tail,
    dev ← gets k_dev;
    start ← gets k_start;
    lbuf ← bread dev (to_uint (start + tail + 1 + 1));
    home ← lh_block_get tail;
    dbuf ← bread dev (to_uint home);
    memmove dbuf lbuf;;
    bwrite dbuf;;
    brelse lbuf;;
    brelse dbuf).

Definition read_head : M unit :=
  dev ← gets k_dev;
  start ← gets k_start;
  buf ← bread dev (to_uint (start + 1));
  lh ← buf_data buf;
  modify (set_log (with_lh (with_n (load_int lh 0))));;
  n ← gets k_n;
  for_loop (Z.to_nat n) 0 (λ i, lh_block_set i (load_int lh (1 + i)));;
  brelse buf.

Definition write_head : M unit :=
  dev ← gets k_dev;
  start ← gets k_start;
  buf ← bread dev (to_uint (start + 1));
  n ← gets k_n;
  store_int buf 0 n;;
  for_loop (Z.to_nat n) 0 (λ i,
    v ← lh_block_get i;
    store_int buf (1 + i) v);;
  bwrite buf;;
  brelse buf.

Definition recover_from_log : M unit :=
  dev ← gets k_dev;
  start ← gets k_start;
  buf ← bread dev (to_uint start);
  d ← buf_data buf;
  let disk_check := load_checksum d in
  checksum ← sum_log_blocks (1 + 1);
  brelse buf;;
  let checksum := checksum mod BSIZE in
  if disk_check =? checksum then
    cprintf "boot log checksum match, proceding with log commit. \n" [];;
    read_head;;
    install_trans;;
    modify (set_log (with_lh (with_n 0)));;
    write_head
  else
    cprintf "boot log checksum mismatch, will not commit log." [].

(** [readsb] belongs to fs.c; [initlog] is given the superblock that
    [readsb] returns.  [sizeof(struct logheader)] is [4 * (LOGSIZE + 1)].
    [sb.logstart] and [sb.nlog] are [uint] and are assigned to the [int]
    fields [log.start] and [log.size]. *)
Definition initlog (sb : superblock) (dev : Z) : M unit :=
  if 4 * (LOGSIZE + 1) >=? BSIZE then panic "initlog: too big logheader"
  else
    initlock;;
    modify (set_log (with_start (to_int (logstart sb))));;
    modify (set_log (with_size (to_int (nlog sb))));;
    modify (set_log (with_dev dev));;
    modify (set_log (with_checksum 0));;
    recover_from_log.

(** [begin_op].  [sleep(&log, &log.lock)] gives up the lock and the
    processor; [wakeups] lists, for each time the sleeper is woken, what the
    other threads did to the kernel state meanwhile.  The sleeper holds the
    lock again when [sleep] returns, and goes round the loop.  With no
    wakeup left it stays asleep. *)
Fixpoint begin_op_loop (wakeups : list (kernel → kernel)) (k : kernel)
  : result unit :=
  if negb (k_committing k =? 0) then
    match wakeups with
    | [] => Asleep (set_log (with_locked false) k)
    | w :: wakeups' =>
        begin_op_loop wakeups'
          (set_log (with_locked true) (w (set_log (with_locked false) k)))
    end
  else if to_int (k_n k + to_int (to_int (k_outstanding k + 1) * MAXOPBLOCKS))
          >? to_int (LOGSIZE - 2) then
    match wakeups with
    | [] => Asleep (set_log (with_locked false) k)
    | w :: wakeups' =>
        begin_op_loop wakeups'
          (set_log (with_locked true) (w (set_log (with_locked false) k)))
    end
  else
    (modify (λ k, set_log (with_outstanding (to_int (k_outstanding k + 1))) k);;
     release) k.

Definition begin_op (wakeups : list (kernel → kernel)) : M unit :=
  acquire;; begin_op_loop wakeups.

Definition write_log : M unit :=
  n ← gets k_n;
  for_loop (Z.to_nat n) 0 (λ tail,
    dev ← gets k_dev;
    start ← gets k_start;
    to ← bread dev (to_uint (start + tail + 1 + 1));
    home ← lh_block_get tail;
    from ← bread dev (to_uint home);
    memmove to from;;
    bwrite to;;
    brelse from;;
    brelse to).

Definition write_checksum : M unit :=
  checksum ← sum_log_blocks 1;
  let checksum := checksum mod BSIZE in
  modify (set_log (with_checksum checksum));;
  logged ← gets k_checksum;
  cprintf "write_checksum() - log checksum calculated as: %x \n" [logged];;
  dev ← gets k_dev;
  start ← gets k_start;
  check_block ← bread dev (to_uint start);
  buf_poke check_block 0 (to_uchar checksum);;
  buf_poke check_block 1 (to_uchar (Z.shiftr checksum 8));;
  buf_poke check_block 2 (to_uchar (Z.shiftr checksum 16));;
  buf_poke check_block 3 (to_uchar (Z.shiftr checksum 24));;
  bwrite check_block;;
  brelse check_block;;
  test_check ← bread dev (to_uint start);
  d ← buf_data test_check;
  let test_checksum1 := load_checksum d in
  brelse test_check;;
  cprintf "disk written checksum data: %x \n" [test_checksum1].

Definition check_checksum : M Z :=
  new_checksum ← sum_log_blocks 1;
  let new_checksum := new_checksum mod BSIZE in
  logged ← gets k_checksum;
  cprintf "check_checksum() - log checksum: %x \n" [logged];;
  cprintf "check_checksum() - new checksum: %x \n" [new_checksum];;
  if logged =? new_checksum then
    cprintf "check_checksum() - checksum validated prior to commit\n" [];;
    mret 1
  else
    cprintf "check_checksum() - ERROR: checksum invalid prior to commit\n" [];;
    mret 0.

(** What [commit] does once [check_checksum] has returned [check]. *)
Definition commit_checked (check : Z) : M unit :=
  if negb (check =? 0) then
    write_head;;
    install_trans;;
    modify (set_log (with_lh (with_n 0)));;
    write_head
  else
    panic "log checksum has a missmatch".

Definition commit : M unit :=
  n ← gets k_n;
  if n >? 0 then
    write_log;;
    write_checksum;;
    check ← check_checksum;
    commit_checked check
  else
    mret tt.

Definition end_op : M unit :=
  acquire;;
  modify (λ k, set_log (with_outstanding (to_int (k_outstanding k - 1))) k);;
  committing ← gets k_committing;
  if negb (committing =? 0) then panic "log.committing"
  else
    outstanding ← gets k_outstanding;
    do_commit ←
      (if outstanding =? 0 then
         modify (set_log (with_committing 1));; mret 1
       else
         wakeup;; mret 0);
    release;;
    if negb (do_commit =? 0) then
      commit;;
      acquire;;
      modify (set_log (with_committing 0));;
      wakeup;;
      release
    else mret tt.

(** The absorption scan of [log_write]:
    [for (i = i0; i < i0 + fuel; i++) if (log.lh.block[i] == blockno) break;]
    and the value of [i] after it.  [block[i]] is an [int] and [blockno] a
    [uint]: the comparison is made in [uint]. *)
Fixpoint absorb_scan (fuel : nat) (i : Z) (blockno : Z) : M Z :=
  match fuel with
  | O => mret i
  | S fuel' =>
      v ← lh_block_get i;
      if to_uint v =? blockno then mret i
      else absorb_scan fuel' (i + 1) blockno
  end.

(** [log_write(b)]; the buffer [b] is the number of its block,
    [b->blockno]. *)
Definition log_write (b : Z) : M unit :=
  n ← gets k_n;
  size ← gets k_size;
  if (n >=? LOGSIZE) || (n >=? to_int (to_int (size - 1) - 1)) then
    panic "too big a transaction"
  else
    outstanding ← gets k_outstanding;
    if outstanding <? 1 then panic "log_write outside of trans"
    else
      acquire;;
      n ← gets k_n;
      i ← absorb_scan (Z.to_nat n) 0 b;
      lh_block_set i (to_int b);;
      n ← gets k_n;
      (if i =? n then modify (set_log (with_lh (with_n (to_int (n + 1)))))
       else mret tt);;
      modify (set_dirty (λ s, s ∪ {[b]}));;
      release.

(** ** Boot and power loss *)

(** The kernel as it is when [initlog] is called: the global [log] is
    zero-initialised, the buffer cache is empty, the device holds whatever
    the previous run left on it. *)
Definition boot (d : gmap Z (list Z)) : kernel :=
  Kernel
    (Log false 0 0 0 0 0 0 (Logheader 0 (replicate (Z.to_nat LOGSIZE) 0)))
    ∅ ∅ d [].

(** The blocks the device holds if power is lost once the first [landed]
    writes of a run have reached it. *)
Definition device_writes (tr : list event) : list (Z * list Z) :=
  omap (λ e, match e with EvWrite b d => Some (b, d) | _ => None end) tr.
Definition crash_disk (d0 : gmap Z (list Z)) (tr : list event) (landed : nat)
  : gmap Z (list Z) :=
  foldl (λ d w, <[w.1 := w.2]> d) d0 (take landed (device_writes tr)).

(** The state a routine ends in, whatever way it ends. *)
Definition final {A} (r : result A) : kernel :=
  match r with
  | Done _ k | Panic _ k | Fault k | Asleep k => k
  end.

(** The block numbers staged in the current transaction, as [install_trans]
    and [write_log] pass them to [bread]. *)
Definition staged (k : kernel) : list Z :=
  to_uint <$> take (Z.to_nat (k_n k)) (k_block k).

(** A sequence of [log_write] calls. *)
Fixpoint log_writes (bs : list Z) : M unit :=
  match bs with
  | [] => mret tt
  | b :: bs' => log_write b;; log_writes bs'
  end.

End Routines.

(** * Notions used to state the properties *)

(** A [uint] value, such as a block number [b->blockno], and an [int]
    value. *)
Definition is_uint (b : Z) : Prop := 0 ≤ b < 2 ^ 32.
Definition is_int (z : Z) : Prop := - 2 ^ 31 ≤ z < 2 ^ 31.

(** ** The staged list *)

(** The position of the first occurrence of [b] in [l]; the length of [l]
    when there is none. *)
Fixpoint first_index (b : Z) (l : list Z) : nat :=
  match l with
  | [] => O
  | x :: l' => if decide (x = b) then O else S (first_index b l')
  end.

(** Log absorption on the list of staged block numbers: a block number that
    is in the list leaves it as it is, a new one goes to the end. *)
Definition absorb (l : list Z) (b : Z) : list Z :=
  if decide (b ∈ l) then l else l ++ [b].

(** The number of slots of [l] that hold the block number [b]. *)
Definition slots_of (b : Z) (l : list Z) : nat :=
  length (filter (λ x, x = b) l).

(** ** What an observer of the device and the console sees *)

(** A device write, by block number, or a console message, by format. *)
Inductive mark :=
| MWrite (blockno : Z)
| MPrint (fmt : string).

Definition marks (tr : list event) : list mark :=
  omap (λ e, match e with
             | EvWrite b _ => Some (MWrite b)
             | EvPrint fmt _ => Some (MPrint fmt)
             | _ => None
             end) tr.

(** [k'] is [k] after some events whose marks are [ms], with the in-memory
    log untouched. *)
Definition advances (k k' : kernel) (ms : list mark) : Prop :=
  k_log k' = k_log k
  ∧ ∃ tr, k_trace k' = k_trace k ++ tr ∧ marks tr = ms.

(** [m] keeps the invariant [I] whenever it returns. *)
Definition preserves {A} (I : kernel → Prop) (m : M A) : Prop :=
  ∀ k a k', I k → m k = Done a k' → I k'.

Section Notions.
Context {P : Params}.

(** ** Well-formed states *)

(** The in-memory header is a [struct logheader]: [block] has [LOGSIZE]
    entries and [n] counts some of them. *)
Definition header_ok (k : kernel) : Prop :=
  0 ≤ k_n k ≤ LOGSIZE ∧ length (k_block k) = Z.to_nat LOGSIZE.

(** [LOGSIZE] and [log.size] are block counts that fit an [int]. *)
Definition layout_ok (k : kernel) : Prop :=
  LOGSIZE < 2 ^ 31 ∧ 0 ≤ k_size k < 2 ^ 31.

(** Every block, on the device or in a buffer, is [BSIZE] bytes long. *)
Definition blocks_ok (k : kernel) : Prop :=
  ∀ b, length (k_view k b) = Z.to_nat BSIZE.

(** [k'] differs from [k] by device reads only: some blocks have been
    brought into the buffer cache, and nothing else has happened. *)
Definition only_reads (k k' : kernel) : Prop :=
  k_log k' = k_log k
  ∧ k_disk k' = k_disk k
  ∧ k_dirty k' = k_dirty k
  ∧ (∀ b, k_view k' b = k_view k b)
  ∧ ∃ reads, k_trace k' = k_trace k ++ (EvRead <$> reads).

(** ** Admission *)

(** The admission test of [begin_op], in the words of the design: no commit
    is in flight, and [n + (outstanding + 1) * MAXOPBLOCKS > LOGSIZE - 2]
    is false. *)
Definition admissible (k : kernel) : Prop :=
  k_committing k = 0
  ∧ ¬ (k_n k + (k_outstanding k + 1) * MAXOPBLOCKS > LOGSIZE - 2).

(** The [int] arithmetic of that test, and the increment of
    [outstanding], do not overflow. *)
Definition admission_fits (k : kernel) : Prop :=
  is_int (k_outstanding k + 1)
  ∧ is_int ((k_outstanding k + 1) * MAXOPBLOCKS)
  ∧ is_int (k_n k + (k_outstanding k + 1) * MAXOPBLOCKS)
  ∧ is_int (LOGSIZE - 2).

(** The state [begin_op] returns in: one more outstanding operation, the
    lock free, nothing else touched. *)
Definition admitted (k : kernel) : kernel :=
  set_log (with_locked false)
    (set_log (with_outstanding (k_outstanding k + 1)) k).

(** The state a sleeper leaves behind: the lock is free. *)
Definition asleep (k : kernel) : kernel := set_log (with_locked false) k.

(** ** Checksums *)

(** The checksum a run of the two nested loops yields over the blocks
    [start + i + first], for [i] from [i0] on, [fuel] of them, as the
    buffer cache shows them. *)
Fixpoint sum_blocks (view : Z → list Z) (fuel : nat) (i start first : Z)
    (checksum : Z) : Z :=
  match fuel with
  | O => checksum
  | S fuel' =>
      sum_blocks view fuel' (i + 1) start first
        (sum_bytes (Z.to_nat BSIZE) 0 (view (to_uint (start + i + first)))
           checksum)
  end.

(** The checksum [write_checksum] and [check_checksum] compute: over the
    [n] blocks from [start + 1] on. *)
Definition commit_checksum (k : kernel) : Z :=
  sum_blocks (k_view k) (Z.to_nat (k_n k)) 0 (k_start k) 1 0 mod BSIZE.

(** The two values [recover_from_log] compares: the one in the checksum
    block, and the one it computes over the [n] blocks from [start + 2]
    on. *)
Definition stored_checksum (k : kernel) : Z :=
  load_checksum (k_view k (to_uint (k_start k))).
Definition recomputed_checksum (k : kernel) : Z :=
  sum_blocks (k_view k) (Z.to_nat (k_n k)) 0 (k_start k) (1 + 1) 0 mod BSIZE.

(** ** Recovery at boot *)

(** The replay branch of [recover_from_log]. *)
Definition replay : M unit :=
  cprintf "boot log checksum match, proceding with log commit. \n" [];;
  read_head;;
  install_trans;;
  modify (set_log (with_lh (with_n 0)));;
  write_head.

(** [initlog] up to the call of [recover_from_log], on a booting kernel. *)
Definition boot_log (sb : superblock) (dev : Z) (d : gmap Z (list Z))
  : kernel :=
  set_log (with_checksum 0)
    (set_log (with_dev dev)
       (set_log (with_size (to_int (nlog sb)))
          (set_log (with_start (to_int (logstart sb)))
             (set_log (with_locked false) (boot d))))).

(** The same kernel once the checksum block is in the buffer cache; the
    block number [log.start] is passed to [bread] as a [uint], which gives
    [sb.logstart] back. *)
Definition boot_checked (sb : superblock) (dev : Z) (d : gmap Z (list Z))
  : kernel :=
  set_cache (<[to_uint (logstart sb) := dread d (to_uint (logstart sb))]>)
    (emit (EvRead (to_uint (logstart sb))) (boot_log sb dev d)).

(** ** The order of a commit *)

(** The device writes and console messages of a commit of the transaction
    staged in [k] up to the verification of the checksum, in order: the
    data slots, the checksum block between the messages of
    [write_checksum], the messages of a successful [check_checksum]. *)
Definition verified_marks (k : kernel) : list mark :=
  (MWrite <$> ((λ i, to_uint (k_start k + i + 1 + 1)) <$> seqZ 0 (k_n k)))
  ++ [MPrint "write_checksum() - log checksum calculated as: %x \n";
      MWrite (to_uint (k_start k));
      MPrint "disk written checksum data: %x \n";
      MPrint "check_checksum() - log checksum: %x \n";
      MPrint "check_checksum() - new checksum: %x \n";
      MPrint "check_checksum() - checksum validated prior to commit\n"].

(** Those of the whole commit: then the header block, the home blocks, the
    header block again. *)
Definition commit_marks (k : kernel) : list mark :=
  verified_marks k
  ++ [MWrite (to_uint (k_start k + 1))]
  ++ (MWrite <$> staged k)
  ++ [MWrite (to_uint (k_start k + 1))].

End Notions.

(** * Concrete states, on the stock xv6 layout

    The log region starts at block 2 and has 30 blocks: the checksum block
    is block 2, the header block is block 3, the data slots are blocks 4 to
    31. *)

(** A freshly made device, mounted. *)
Definition k_mounted : kernel :=
  final (@initlog xv6 (Superblock 2 30) 1 (@boot xv6 ∅)).

(** One system call has been admitted. *)
Definition k_in_op : kernel := final (@begin_op xv6 [] k_mounted).

(** The call has staged 28 distinct blocks, numbers 100 to 127. *)
Definition k_full : kernel :=
  final (@log_writes xv6 (seqZ 100 28) k_in_op).

(** The same 28 blocks are staged, but no system call is admitted. *)
Definition k_full_idle : kernel := set_log (with_outstanding 0) k_full.

(** Or else: the call has modified blocks 100 and 101 in the buffer cache
    (their first bytes are now 1 and 2) and recorded both. *)
Definition k_staged2 : kernel :=
  final ((@bread xv6 1 100;; @buf_poke xv6 100 0 1;; @log_write xv6 100;;
          @bread xv6 1 101;; @buf_poke xv6 101 0 2;; @log_write xv6 101)
           k_in_op).

(** The commit has flushed the log and written the checksum (steps 1 and 2
    of the commit protocol). *)
Definition k_checksummed : kernel :=
  final ((@write_log xv6;; @write_checksum xv6) k_staged2).

(** The call has ended, and [end_op] has committed the transaction. *)
Definition k_committed : kernel := final (@end_op xv6 k_staged2).

(** Power was lost right after the header write of that commit: of the
    writes since the device was made, the first five have landed (the
    header write of the mount, the two data slots, the checksum block and
    the header block). *)
Definition d_crashed : gmap Z (list Z) :=
  crash_disk ∅ (k_trace k_committed) 5.

(** The same with a transaction of block 100 alone, which [write_checksum]
    gives the checksum 0 (it sums the header block only): four writes have
    landed. *)
Definition d_crashed1 : gmap Z (list Z) :=
  crash_disk ∅
    (k_trace
       (final ((@bread xv6 1 100;; @buf_poke xv6 100 0 1;;
                @log_write xv6 100;; @end_op xv6) k_in_op))) 4.

(** * Further notions: where a routine writes, and what the log holds *)

(** The words of [block] a header block [d] declares, when it declares [n]
    of them. *)
Definition decode_blocks (d : list Z) (n : Z) : list Z :=
  (λ j, load_int d (1 + j)) <$> seqZ 0 n.

(** The sum [Σ (j + 1) * data[j]] over [fuel] bytes from [j] on, in
    unbounded arithmetic. *)
Fixpoint weighted_sum (fuel : nat) (j : Z) (d : list Z) : Z :=
  match fuel with
  | O => 0
  | S fuel' => (j + 1) * byte_at d j + weighted_sum fuel' (j + 1) d
  end.

Section Frames.
Context {P : Params}.

(** The block of data slot [j], the header block and the checksum block. *)
Definition slot (k : kernel) (j : Z) : Z := to_uint (k_start k + j + 1 + 1).
Definition header_block (k : kernel) : Z := to_uint (k_start k + 1).
Definition checksum_block (k : kernel) : Z := to_uint (k_start k).

(** [b] is a block of the part of the log region that the transaction staged
    in [k] uses: the checksum block, the header block, or one of the [n]
    data slots. *)
Definition in_log (k : kernel) (b : Z) : Prop :=
  ∃ j, 0 ≤ j < k_n k + 2 ∧ b = to_uint (k_start k + j).

(** Outside the set [S] of block numbers, [k'] has the buffers and the
    device of [k]. *)
Definition same_outside (S : Z → Prop) (k k' : kernel) : Prop :=
  ∀ b, ¬ S b → k_view k' b = k_view k b ∧ k_disk k' !! b = k_disk k !! b.

(** The invariant of a routine that writes inside [S] only: the log is at
    [s], the in-memory header is [h], and outside [S] nothing has changed
    since [k0]. *)
Definition kept (s : Z) (h : logheader) (S : Z → Prop) (k0 k : kernel)
  : Prop :=
  k_start k = s ∧ log_lh (k_log k) = h ∧ same_outside S k0 k.

(** What a block of the device holds. *)
Definition on_device (k : kernel) (b : Z) : list Z := dread (k_disk k) b.

(** The fields of [struct log] other than the header and the lock. *)
Definition log_fields (k : kernel) : Z * Z * Z * Z * Z * Z :=
  (k_start k, k_size k, k_dev k, k_outstanding k, k_committing k,
   k_checksum k).

End Frames.

(** What is known of the in-memory log. *)
Definition log_is (φ : log → Prop) (k : kernel) : Prop := φ (k_log k).

(** ** Further concrete states, on the stock xv6 layout *)

(** A block size too small for the header of a 30-block log. *)
Definition small_blocks : Params :=
  {| BSIZE := 64; LOGSIZE := 30; MAXOPBLOCKS := 10 |}.

(** Two system calls have been admitted. *)
Definition k_two_ops : kernel := final (@begin_op xv6 [] k_in_op).

(** A commit is in flight while a system call is still running. *)
Definition k_in_commit : kernel := set_log (with_committing 1) k_in_op.

(** The kernel comes up on the device [d_crashed1], whose checksum block
    holds 0 and whose header declares block 100; and on the device a
    completed commit leaves, whose header declares nothing. *)
Definition k_reboot1 : kernel := @boot_log xv6 (Superblock 2 30) 1 d_crashed1.
Definition k_reboot0 : kernel :=
  @boot_log xv6 (Superblock 2 30) 1 (k_disk k_committed).

(** The commit of blocks 100 and 101 up to its commit point, and the whole
    of it. *)
Definition k_flushed : kernel :=
  final ((@write_log xv6;; @write_checksum xv6;; @check_checksum xv6)
           k_staged2).
Definition k_commit_done : kernel := final (@commit xv6 k_staged2).

(** The last byte of data slot 0 has been overwritten after the checksum
    was taken. *)
Definition k_last_byte : kernel :=
  final (@buf_poke xv6 4 (512 - 1) 7 k_checksummed).

(** The admitted call has recorded block 100. *)
Definition k_recorded : kernel := final (@log_write xv6 100 k_in_op).

(** A whole system call on the mounted log that records blocks 100 and
    101, up to its [end_op]. *)
Definition k_two_recorded : kernel :=
  final ((@begin_op xv6 [];; @log_writes xv6 [100; 101]) k_mounted).

(** Data slot 1, the last slot of the transaction of blocks 100 and 101,
    has been overwritten after the checksum was taken. *)
Definition k_last_slot : kernel :=
  final (@buf_poke xv6 (slot k_checksummed (k_n k_checksummed - 1)) 0 9
           k_checksummed).

(** * Properties *)

(** ** Machine integers *)

Lemma to_uint_to_int (b : Z) : to_uint (to_int b) = to_uint b.
Proof.
  unfold to_uint, to_int.
  rewrite Zminus_mod_idemp_l. f_equal. lia.
Qed.

Lemma to_uint_small (b : Z) : is_uint b → to_uint b = b.
Proof. intros Hb. apply Z.mod_small. exact Hb. Qed.

Lemma to_int_to_uint (v : Z) : to_int (to_uint v) = to_int v.
Proof. unfold to_int, to_uint. by rewrite Zplus_mod_idemp_l. Qed.

Lemma to_int_small (v : Z) : is_int v → to_int v = v.
Proof.
  unfold is_int, to_int. intros Hv.
  change (2 ^ 31) with 2147483648 in *. change (2 ^ 32) with 4294967296.
  rewrite Z.mod_small; lia.
Qed.

(** ** Lists of staged block numbers *)

Lemma first_index_le (b : Z) (l : list Z) : (first_index b l ≤ length l)%nat.
Proof.
  induction l as [|x l IH]; simpl; [lia|].
  destruct (decide (x = b)); lia.
Qed.

Lemma first_index_lookup (b : Z) (l : list Z) :
  b ∈ l → l !! first_index b l = Some b.
Proof.
  induction l as [|x l IH]; intros Hin; [by apply elem_of_nil in Hin|].
  simpl. destruct (decide (x = b)) as [->|Hne]; [done|].
  apply elem_of_cons in Hin as [->|Hin]; [done|]. by apply IH.
Qed.

Lemma first_index_notin (b : Z) (l : list Z) :
  b ∉ l → first_index b l = length l.
Proof.
  induction l as [|x l IH]; intros Hin; [done|].
  simpl. apply not_elem_of_cons in Hin as [Hne Hin].
  destruct (decide (x = b)); [congruence|]. by rewrite IH.
Qed.

Lemma first_index_in (b : Z) (l : list Z) :
  b ∈ l → (first_index b l < length l)%nat.
Proof.
  intros Hin. apply lookup_lt_is_Some. rewrite first_index_lookup; eauto.
Qed.

Lemma absorb_NoDup (l : list Z) (b : Z) : NoDup l → NoDup (absorb l b).
Proof.
  intros Hl. unfold absorb. destruct (decide (b ∈ l)); [done|].
  apply NoDup_app. split_and!; [done| |apply NoDup_singleton].
  intros x Hx Hx'. apply list_elem_of_singleton in Hx'. by subst.
Qed.

Lemma absorb_prefix (l : list Z) (b : Z) : l `prefix_of` absorb l b.
Proof.
  unfold absorb. destruct (decide (b ∈ l)); [done|]. by apply prefix_app_r.
Qed.

Lemma absorb_elem (l : list Z) (b : Z) : b ∈ absorb l b.
Proof.
  unfold absorb. destruct (decide (b ∈ l)); [done|].
  apply elem_of_app. right. by apply list_elem_of_singleton.
Qed.

Lemma absorb_idem (l : list Z) (b : Z) : absorb (absorb l b) b = absorb l b.
Proof.
  unfold absorb at 1. destruct (decide (b ∈ absorb l b)) as [|Hn]; [done|].
  destruct Hn. apply absorb_elem.
Qed.

(** ** Tactics *)

Ltac zbool :=
  repeat match goal with
  | H : (_ >=? _) = true |- _ => rewrite Z.geb_leb in H; apply Z.leb_le in H
  | H : (_ >=? _) = false |- _ => rewrite Z.geb_leb in H; apply Z.leb_gt in H
  | H : (_ >? _) = true |- _ => rewrite Z.gtb_ltb in H; apply Z.ltb_lt in H
  | H : (_ >? _) = false |- _ => rewrite Z.gtb_ltb in H; apply Z.ltb_ge in H
  | H : (_ <? _) = true |- _ => apply Z.ltb_lt in H
  | H : (_ <? _) = false |- _ => apply Z.ltb_ge in H
  | H : (_ =? _) = true |- _ => apply Z.eqb_eq in H
  | H : (_ =? _) = false |- _ => apply Z.eqb_neq in H
  end.

Ltac zpow :=
  change (2 ^ 31) with 2147483648 in *;
  change (2 ^ 32) with 4294967296 in *.

Ltac kunfold :=
  unfold k_n, k_block, k_start, k_size, k_dev, k_outstanding, k_committing,
    k_checksum, k_locked in *.
Ltac ksimpl := kunfold; simpl in *.

(** ** Recording a block: [log_write] *)

Section LogWrite.
Context {P : Params}.

Lemma absorb_scan_spec (fuel : nat) (i b : Z) (k : kernel) :
  0 ≤ i →
  (Z.to_nat i + fuel ≤ length (k_block k))%nat →
  absorb_scan fuel i b k =
    Done (i + Z.of_nat (first_index b
            (to_uint <$> take fuel (drop (Z.to_nat i) (k_block k))))) k.
Proof.
  revert i. induction fuel as [|fuel IH]; intros i Hi Hlen.
  - simpl. rewrite Z.add_0_r. reflexivity.
  - simpl. unfold mbind, M_bind, lh_block_get.
    destruct (k_block k !! Z.to_nat i) as [v|] eqn:Hv.
    2:{ apply lookup_ge_None in Hv. lia. }
    rewrite (drop_S _ _ _ Hv). simpl.
    destruct (decide (to_uint v = b)) as [Heq|Hne].
    + apply Z.eqb_eq in Heq. rewrite Heq. rewrite Z.add_0_r. reflexivity.
    + apply Z.eqb_neq in Hne. rewrite Hne.
      rewrite IH by lia.
      replace (Z.to_nat (i + 1)) with (S (Z.to_nat i)) by lia.
      f_equal. unfold fmap. lia.
Qed.

Lemma absorb_scan_no_panic (fuel : nat) (i b : Z) (k k' : kernel) (msg : string) :
  absorb_scan fuel i b k ≠ Panic msg k'.
Proof.
  revert i. induction fuel as [|fuel IH]; intros i; [done|].
  simpl. unfold mbind, M_bind, lh_block_get, mret, M_ret.
  repeat (case_match; try done). simplify_eq. apply IH.
Qed.

(** [log.size - 1 - 1] does not wrap. *)
Lemma size_guard (k : kernel) :
  layout_ok k → to_int (to_int (k_size k - 1) - 1) = k_size k - 2.
Proof.
  intros [_ Hs]. change (2 ^ 31) with 2147483648 in Hs.
  rewrite (to_int_small (k_size k - 1)).
  - replace (k_size k - 1 - 1) with (k_size k - 2) by lia.
    apply to_int_small. unfold is_int. change (2 ^ 31) with 2147483648. lia.
  - unfold is_int. change (2 ^ 31) with 2147483648. lia.
Qed.

(** The capacity guard comes first in [log_write]. *)
Lemma log_write_too_big (b : Z) (k : kernel) :
  layout_ok k →
  LOGSIZE ≤ k_n k ∨ k_size k - 2 ≤ k_n k →
  log_write b k = Panic "too big a transaction" k.
Proof.
  intros Hlay H. unfold log_write, mbind, M_bind, gets, panic.
  rewrite size_guard by done.
  replace ((k_n k >=? LOGSIZE) || (k_n k >=? k_size k - 2)) with true;
    [done|].
  symmetry. apply orb_true_iff. rewrite !Z.geb_le. lia.
Qed.

Lemma staged_length (k : kernel) :
  header_ok k → length (staged k) = Z.to_nat (k_n k).
Proof.
  intros [Hn Hlen]. unfold staged. rewrite length_fmap, length_take. lia.
Qed.

Lemma log_write_done (b : Z) (k : kernel) :
  header_ok k → layout_ok k → is_uint b →
  k_n k < LOGSIZE → k_n k < k_size k - 2 → 1 ≤ k_outstanding k →
  ∃ k', log_write b k = Done tt k'
        ∧ staged k' = absorb (staged k) b
        ∧ k_n k' = (if decide (b ∈ staged k) then k_n k else k_n k + 1)
        ∧ header_ok k'
        ∧ layout_ok k'
        ∧ k_size k' = k_size k
        ∧ k_outstanding k' = k_outstanding k
        ∧ k_locked k' = false
        ∧ k_dirty k' = k_dirty k ∪ {[b]}
        ∧ k_cache k' = k_cache k ∧ k_disk k' = k_disk k
        ∧ k_trace k' = k_trace k.
Proof.
  intros Hok Hlay Hb Hn1 Hn2 Hout.
  pose proof (staged_length k Hok) as Hslen.
  destruct Hok as [Hn Hlen].
  unfold log_write, mbind, M_bind, gets, panic.
  rewrite size_guard by done.
  destruct ((k_n k >=? LOGSIZE) || (k_n k >=? k_size k - 2)) eqn:Hg.
  { apply orb_true_iff in Hg as [Hg|Hg]; zbool; lia. }
  destruct (k_outstanding k <? 1) eqn:Ho; zbool; [lia|].
  unfold acquire, modify.
  rewrite absorb_scan_spec; [|lia|ksimpl; lia].
  change (k_block (set_log (with_locked true) k)) with (k_block k).
  change (k_n (set_log (with_locked true) k)) with (k_n k).
  rewrite drop_0. fold (staged k).
  set (idx := first_index b (staged k)).
  assert (Hidx : (idx ≤ Z.to_nat (k_n k))%nat).
  { rewrite <- Hslen. apply first_index_le. }
  unfold lh_block_set.
  change (k_block (set_log (with_locked true) k)) with (k_block k).
  rewrite Z.add_0_l, Nat2Z.id.
  destruct (decide (idx < length (k_block k))%nat) as [Hlt|]; [|lia].
  unfold release, modify.
  match goal with |- context [k_n ?x] => change (k_n x) with (k_n k) end.
  destruct (decide (b ∈ staged k)) as [Hin|Hnin].
  - pose proof (first_index_in _ _ Hin) as Hlt'. fold idx in Hlt'.
    pose proof (first_index_lookup _ _ Hin) as Hlk. fold idx in Hlk.
    destruct (Z.of_nat idx =? k_n k) eqn:He; zbool; [lia|].
    eexists. split; [reflexivity|].
    unfold absorb. rewrite decide_True by done.
    unfold staged, header_ok, layout_ok in *. ksimpl.
    rewrite length_insert.
    split_and!; try done; try lia.
    rewrite take_insert_lt by lia.
    rewrite list_fmap_insert, to_uint_to_int, to_uint_small by done.
    by apply list_insert_id.
  - pose proof (first_index_notin _ _ Hnin) as Hidx'. fold idx in Hidx'.
    destruct (Z.of_nat idx =? k_n k) eqn:He; zbool; [|lia].
    rewrite (to_int_small (k_n k + 1))
      by (destruct Hlay; unfold is_int; zpow; lia).
    eexists. split; [reflexivity|].
    unfold absorb. rewrite decide_False by done.
    unfold staged, header_ok, layout_ok in *. ksimpl.
    rewrite length_insert.
    split_and!; try done; try lia.
    replace (Z.to_nat (lh_n (log_lh (k_log k)) + 1)) with (S idx) by lia.
    rewrite (take_S_r _ _ (to_int b)).
    2:{ apply list_lookup_insert_eq. lia. }
    rewrite take_insert_ge by lia.
    rewrite fmap_app. simpl.
    rewrite to_uint_to_int, to_uint_small by done.
    assert (Hi : idx = Z.to_nat (lh_n (log_lh (k_log k)))) by lia.
    by rewrite Hi.
Qed.

Lemma log_write_not_too_big (b : Z) (k : kernel) (k' : kernel) :
  layout_ok k →
  k_n k < LOGSIZE → k_n k < k_size k - 2 →
  log_write b k ≠ Panic "too big a transaction" k'.
Proof.
  intros Hlay H1 H2. unfold log_write, mbind, M_bind, gets, panic.
  rewrite size_guard by done.
  destruct ((k_n k >=? LOGSIZE) || (k_n k >=? k_size k - 2)) eqn:Hg.
  { apply orb_true_iff in Hg as [Hg|Hg]; zbool; lia. }
  destruct (k_outstanding k <? 1); [done|].
  unfold acquire, release, modify, lh_block_set, mret, M_ret.
  repeat (case_match; try done).
  by apply absorb_scan_no_panic in H.
Qed.

Lemma log_write_outside (b : Z) (k : kernel) :
  layout_ok k →
  k_n k < LOGSIZE → k_n k < k_size k - 2 → k_outstanding k < 1 →
  log_write b k = Panic "log_write outside of trans" k.
Proof.
  intros Hlay H1 H2 Ho. unfold log_write, mbind, M_bind, gets, panic.
  rewrite size_guard by done.
  destruct ((k_n k >=? LOGSIZE) || (k_n k >=? k_size k - 2)) eqn:Hg.
  { apply orb_true_iff in Hg as [Hg|Hg]; zbool; lia. }
  destruct (k_outstanding k <? 1) eqn:Ho'; zbool; [done|lia].
Qed.

Lemma log_write_inside (b : Z) (k k' : kernel) :
  1 ≤ k_outstanding k →
  log_write b k ≠ Panic "log_write outside of trans" k'.
Proof.
  intros Ho. unfold log_write, mbind, M_bind, gets, panic.
  destruct ((k_n k >=? LOGSIZE) || (k_n k >=? _)) eqn:Hg; [done|].
  destruct (k_outstanding k <? 1) eqn:Ho'; zbool; [lia|].
  unfold acquire, release, modify, lh_block_set, mret, M_ret.
  repeat (case_match; try done).
  by apply absorb_scan_no_panic in H.
Qed.

Lemma slots_of_notin (b : Z) (l : list Z) : b ∉ l → slots_of b l = 0%nat.
Proof.
  unfold slots_of. induction l as [|x l IH]; intros Hin; [done|].
  apply not_elem_of_cons in Hin as [Hne Hin].
  rewrite filter_cons. destruct (decide (x = b)); [congruence|]. by apply IH.
Qed.

Lemma slots_of_one (b : Z) (l : list Z) :
  NoDup l → b ∈ l → slots_of b l = 1%nat.
Proof.
  induction 1 as [|x l Hx Hl IH]; intros Hin.
  - by apply elem_of_nil in Hin.
  - unfold slots_of in *. rewrite filter_cons.
    destruct (decide (x = b)) as [->|Hne].
    + simpl. f_equal. by apply slots_of_notin.
    + apply elem_of_cons in Hin as [->|Hin]; [done|]. by apply IH.
Qed.

(** What a returning [log_write] did. *)
Lemma log_write_inv (b : Z) (k k' : kernel) :
  header_ok k → layout_ok k → is_uint b →
  log_write b k = Done tt k' →
  (k_n k < LOGSIZE ∧ k_n k < k_size k - 2 ∧ 1 ≤ k_outstanding k)
  ∧ staged k' = absorb (staged k) b
  ∧ k_n k' = (if decide (b ∈ staged k) then k_n k else k_n k + 1)
  ∧ header_ok k'
  ∧ layout_ok k'
  ∧ k_size k' = k_size k
  ∧ k_outstanding k' = k_outstanding k.
Proof.
  intros Hok Hlay Hb Hrun.
  destruct (decide (LOGSIZE ≤ k_n k ∨ k_size k - 2 ≤ k_n k)) as [Hbig|Hsmall].
  { rewrite log_write_too_big in Hrun by done. done. }
  destruct (decide (k_outstanding k < 1)) as [Hout|Hin].
  { rewrite log_write_outside in Hrun by (done || lia). done. }
  destruct (log_write_done b k)
    as (k'' & Hrun' & Hst & Hn & Hok' & Hlay' & Hsz & Hout & _);
    [done|done|done|lia..|].
  rewrite Hrun in Hrun'. injection Hrun' as <-.
  split_and!; done || lia.
Qed.

(** Every way a [log_write] can end, and the header it leaves. *)
Lemma log_write_final (b : Z) (k : kernel) :
  header_ok k → layout_ok k → is_uint b →
  let k' := final (log_write b k) in
  header_ok k' ∧ layout_ok k' ∧ k_size k' = k_size k
  ∧ ((staged k' = staged k ∧ k_n k' = k_n k)
     ∨ ((b ∉ staged k) ∧ staged k' = staged k ++ [b] ∧ k_n k' = k_n k + 1)).
Proof.
  intros Hok Hlay Hb.
  destruct (decide (LOGSIZE ≤ k_n k ∨ k_size k - 2 ≤ k_n k)) as [Hbig|Hsmall].
  { rewrite log_write_too_big by done. simpl. split_and!; auto. }
  destruct (decide (k_outstanding k < 1)) as [Hout|Hin].
  { rewrite log_write_outside by (done || lia). simpl. split_and!; auto. }
  destruct (log_write_done b k)
    as (k'' & -> & Hst & Hn & Hok' & Hlay' & Hsz & _);
    [done|done|done|lia..|].
  simpl. split_and!; [done..|].
  unfold absorb in Hst. destruct (decide (b ∈ staged k)); auto.
Qed.

Lemma log_writes_cons (b : Z) (bs : list Z) (k : kernel) :
  final (log_writes (b :: bs) k) =
    match log_write b k with
    | Done _ k' => final (log_writes bs k')
    | r => final r
    end.
Proof.
  simpl. unfold mbind, M_bind. by destruct (log_write b k).
Qed.

(** Recording again a block number that is staged never changes the
    header, whether the calls return or halt. *)
Lemma log_writes_again (N : nat) (b : Z) (k : kernel) :
  header_ok k → layout_ok k → is_uint b → b ∈ staged k →
  let kN := final (log_writes (replicate N b) k) in
  staged kN = staged k ∧ k_n kN = k_n k.
Proof.
  revert k. induction N as [|N IH]; intros k Hok Hlay Hb Hin; [done|].
  simpl replicate. cbv zeta. rewrite log_writes_cons.
  pose proof (log_write_final b k Hok Hlay Hb) as (Hok' & Hlay' & _ & Hcase).
  destruct Hcase as [[Hst Hn]|[Hnin _]]; [|done].
  destruct (log_write b k) as [[] k'| | |] eqn:Hrun; simpl in *; try done.
  destruct (IH k') as [-> ->]; [done|done|done|by rewrite Hst|done].
Qed.

(** A run of [log_write] calls that returns has absorbed the block numbers
    one by one. *)
Lemma log_writes_staged (bs : list Z) (k k' : kernel) :
  header_ok k → layout_ok k → Forall is_uint bs →
  log_writes bs k = Done tt k' →
  staged k' = foldl absorb (staged k) bs ∧ header_ok k'.
Proof.
  revert k. induction bs as [|b bs IH]; intros k Hok Hlay Hu Hrun.
  - simpl in Hrun. injection Hrun as <-. done.
  - apply Forall_cons in Hu as [Hb Hu].
    simpl in Hrun. unfold mbind, M_bind in Hrun.
    destruct (log_write b k) as [[] k1| | |] eqn:Hb1; try done.
    apply log_write_inv in Hb1 as (_ & Hst & _ & Hok1 & Hlay1 & _);
      [|done..].
    destruct (IH k1 Hok1 Hlay1 Hu Hrun) as [Hst' Hok'].
    split; [|done]. simpl. by rewrite <- Hst.
Qed.

Lemma foldl_absorb_NoDup (bs l : list Z) :
  NoDup l → NoDup (foldl absorb l bs).
Proof.
  revert l. induction bs as [|b bs IH]; intros l Hl; [done|].
  simpl. apply IH. by apply absorb_NoDup.
Qed.

Lemma foldl_absorb_prefix (bs l : list Z) : l `prefix_of` foldl absorb l bs.
Proof.
  revert l. induction bs as [|b bs IH]; intros l; [done|].
  simpl. etrans; [apply absorb_prefix|apply IH].
Qed.

(** C5.  Log absorption.  When [log_write b] returns, the staged list is
    the old one if [b] was staged and the old one followed by [b] if it was
    not, and [n] grows by one in the second case only.  After any further
    recordings [bs] in the same transaction, of [b] again or of other
    blocks, that return, the staged list is the earlier one with the new
    block numbers of [bs] absorbed one by one, [n] is its length, and [b]
    has exactly one slot, at the position the first recording gave it.
    Recording [b] alone [N] more times leaves the staged list and [n] as
    the first call left them, also when one of the calls halts. *)
Theorem log_write_absorption (k k1 k2 : kernel) (b : Z) (bs : list Z)
    (N : nat) :
  header_ok k → layout_ok k → NoDup (staged k) →
  is_uint b → Forall is_uint bs →
  log_write b k = Done tt k1 →
  log_writes bs k1 = Done tt k2 →
  let kN := final (log_writes (replicate N b) k1) in
  staged k1 = absorb (staged k) b
  ∧ k_n k1 = (if decide (b ∈ staged k) then k_n k else k_n k + 1)
  ∧ staged k2 = foldl absorb (staged k1) bs
  ∧ k_n k2 = Z.of_nat (length (staged k2))
  ∧ slots_of b (staged k2) = 1%nat
  ∧ staged k2 !! first_index b (staged k1) = Some b
  ∧ staged kN = staged k1
  ∧ k_n kN = k_n k1.
Proof.
  intros Hok Hlay Hnd Hb Hu Hrun Hrun2 kN.
  apply log_write_inv in Hrun as (_ & Hst & Hn & Hok1 & Hlay1 & _);
    [|done..].
  assert (Hin : b ∈ staged k1) by (rewrite Hst; apply absorb_elem).
  assert (Hnd1 : NoDup (staged k1)) by (rewrite Hst; by apply absorb_NoDup).
  destruct (log_writes_again N b k1 Hok1 Hlay1 Hb Hin) as [HstN HnN].
  fold kN in HstN, HnN.
  destruct (log_writes_staged bs k1 k2 Hok1 Hlay1 Hu Hrun2) as [Hst2 Hok2].
  pose proof (foldl_absorb_prefix bs (staged k1)) as [rest Hrest].
  rewrite <- Hst2 in Hrest.
  split_and!; [done..| | | |done|done].
  - rewrite (staged_length k2 Hok2). destruct Hok2 as [[] _]. lia.
  - apply slots_of_one.
    + rewrite Hst2. by apply foldl_absorb_NoDup.
    + rewrite Hrest. apply elem_of_app. by left.
  - rewrite Hrest, lookup_app_l by by apply first_index_in.
    by apply first_index_lookup.
Qed.

(** C10.  The capacity test of [log_write] precedes the absorption scan:
    once [n] has reached [LOGSIZE] or [size - 2], [log_write b] halts with
    "too big a transaction" for every [b], also for a [b] that is staged
    and whose absorption would leave the list as it is. *)
Theorem log_write_checks_capacity_first (k : kernel) (b : Z) :
  layout_ok k →
  LOGSIZE ≤ k_n k ∨ k_size k - 2 ≤ k_n k →
  log_write b k = Panic "too big a transaction" k
  ∧ (b ∈ staged k → absorb (staged k) b = staged k).
Proof.
  intros Hlay Hbig. split; [by apply log_write_too_big|].
  intros Hin. unfold absorb. by rewrite decide_True.
Qed.

(** C8.  With no admitted operation ([outstanding < 1]) [log_write] always
    halts in [panic] and changes nothing; the message is "log_write outside
    of trans", unless the capacity test, which comes first, has already
    fired.  With [outstanding ≥ 1] that panic is never reached. *)
Theorem log_write_outside_transaction (k : kernel) (b : Z) :
  layout_ok k →
  (k_outstanding k < 1 →
   log_write b k =
     Panic (if decide (LOGSIZE ≤ k_n k ∨ k_size k - 2 ≤ k_n k)
            then "too big a transaction"
            else "log_write outside of trans") k)
  ∧ (1 ≤ k_outstanding k →
     ∀ k', log_write b k ≠ Panic "log_write outside of trans" k').
Proof.
  intros Hlay. split.
  - intros Hout. destruct (decide _) as [Hbig|Hsmall].
    + by apply log_write_too_big.
    + apply log_write_outside; done || lia.
  - intros Hin k'. by apply log_write_inside.
Qed.

Lemma log_writes_step (b : Z) (bs : list Z) (k k1 : kernel) :
  log_write b k = Done tt k1 →
  log_writes (b :: bs) k = log_writes bs k1.
Proof. intros H. simpl. unfold mbind, M_bind. by rewrite H. Qed.

Lemma log_writes_halt (b : Z) (bs : list Z) (k k1 : kernel) (msg : string) :
  log_write b k = Panic msg k1 →
  log_writes (b :: bs) k = Panic msg k1.
Proof. intros H. simpl. unfold mbind, M_bind. by rewrite H. Qed.

(** Staging distinct new blocks one after the other: the run returns if the
    count stays within both limits, and halts in the capacity test, at the
    first call that finds the count at a limit, if it does not. *)
Lemma log_writes_distinct (bs : list Z) (k : kernel) :
  header_ok k → layout_ok k →
  k_n k ≤ k_size k - 2 → 1 ≤ k_outstanding k →
  NoDup bs → Forall is_uint bs → (∀ b, b ∈ bs → b ∉ staged k) →
  (k_n k + Z.of_nat (length bs) ≤ LOGSIZE
   ∧ k_n k + Z.of_nat (length bs) ≤ k_size k - 2 →
   ∃ k', log_writes bs k = Done tt k' ∧ staged k' = staged k ++ bs)
  ∧ (LOGSIZE < k_n k + Z.of_nat (length bs)
     ∨ k_size k - 2 < k_n k + Z.of_nat (length bs) →
     ∃ k', log_writes bs k = Panic "too big a transaction" k'
           ∧ staged k `prefix_of` staged k'
           ∧ (LOGSIZE ≤ k_n k' ∨ k_size k' - 2 ≤ k_n k')).
Proof.
  revert k.
  induction bs as [|b bs IH]; intros k Hok Hlay Hsz Hout Hnd Hu Hnew.
  - simpl. split.
    + intros _. exists k. by rewrite app_nil_r.
    + destruct Hok as [Hn _]. lia.
  - apply NoDup_cons in Hnd as [Hb Hnd].
    apply Forall_cons in Hu as [Hub Hu].
    destruct (decide (LOGSIZE ≤ k_n k ∨ k_size k - 2 ≤ k_n k))
      as [Hbig|Hsmall].
    + split; [simpl length; lia|]. intros _. exists k.
      split_and!; [|done..].
      apply log_writes_halt. by apply log_write_too_big.
    + destruct (log_write_done b k)
        as (k1 & Hrun & Hst & Hn & Hok1 & Hlay1 & Hsz1 & Hout1 & _);
        [done|done|done|lia..|].
      assert (Hnin : b ∉ staged k) by (apply Hnew; left).
      unfold absorb in Hst. rewrite decide_False in Hst by done.
      rewrite decide_False in Hn by done.
      rewrite (log_writes_step _ _ _ _ Hrun).
      destruct (IH k1) as [IHfit IHover]; [done|done|lia|lia|done|done| |].
      { intros b' Hb'. rewrite Hst. apply not_elem_of_app. split.
        - apply Hnew. by right.
        - intros ->%list_elem_of_singleton. done. }
      rewrite Hst, Hn, Hsz1 in *. simpl length.
      split.
      * intros Hfit. destruct IHfit as (k' & -> & Hst'); [lia|].
        exists k'. split; [done|]. by rewrite Hst', <- app_assoc.
      * intros Hover. destruct IHover as (k' & -> & Hpre & Hlim); [lia|].
        exists k'. split_and!; [done| |done].
        etrans; [|done]. by apply prefix_app_r.
Qed.

(** C6, as the code has it.  [log_write] halts with "too big a
    transaction", and stages nothing, exactly when it is called with [n]
    already at [LOGSIZE] or at [size - 2].  So in a transaction that starts
    empty, staging more than [LOGSIZE] or more than [size - 2] distinct
    blocks halts in that panic, with the blocks staged before it still in
    the list; and a call made while [n] is below both limits never does. *)
Theorem log_write_capacity (k : kernel) (b : Z) (bs : list Z) :
  layout_ok k →
  (LOGSIZE ≤ k_n k ∨ k_size k - 2 ≤ k_n k
   ↔ log_write b k = Panic "too big a transaction" k)
  ∧ (k_n k < LOGSIZE → k_n k < k_size k - 2 →
     ∀ k', log_write b k ≠ Panic "too big a transaction" k')
  ∧ (header_ok k → k_n k = 0 → 2 ≤ k_size k → 1 ≤ k_outstanding k →
     NoDup bs → Forall is_uint bs →
     LOGSIZE < Z.of_nat (length bs) ∨ k_size k - 2 < Z.of_nat (length bs) →
     ∃ k', log_writes bs k = Panic "too big a transaction" k'
           ∧ (LOGSIZE ≤ k_n k' ∨ k_size k' - 2 ≤ k_n k')).
Proof.
  intros Hlay. split_and!.
  - split; [by apply log_write_too_big|].
    intros Hrun.
    destruct (decide (LOGSIZE ≤ k_n k ∨ k_size k - 2 ≤ k_n k)); [done|].
    exfalso. by apply (log_write_not_too_big b k k); [done|lia..|].
  - intros H1 H2 k'. by apply log_write_not_too_big.
  - intros Hok Hn Hsz Hout Hnd Hu Hmany.
    destruct (log_writes_distinct bs k) as [_ Hover];
      [done|done|lia|done..| |].
    { intros b' _. unfold staged. rewrite Hn. simpl. apply not_elem_of_nil. }
    destruct Hover as (k' & Hrun & _ & Hlim); [lia|]. eauto.
Qed.

End LogWrite.

(** *** The log_write properties on the stock layout *)

Lemma k_in_op_header_ok : @header_ok xv6 k_in_op.
Proof. by vm_compute. Qed.

Lemma k_full_header_ok : @header_ok xv6 k_full.
Proof. by vm_compute. Qed.

Lemma k_mounted_layout_ok : @layout_ok xv6 k_mounted.
Proof. by vm_compute. Qed.

Lemma k_in_op_layout_ok : @layout_ok xv6 k_in_op.
Proof. by vm_compute. Qed.

Lemma k_full_layout_ok : @layout_ok xv6 k_full.
Proof. by vm_compute. Qed.

Lemma log_write_absorption_witness :
  let k1 := final (@log_write xv6 100 k_in_op) in
  let k2 := final (@log_writes xv6 [101; 100; 102; 100] k1) in
  let kN := final (@log_writes xv6 (replicate 3 100) k1) in
  staged k1 = absorb (staged k_in_op) 100
  ∧ k_n k1 = (if decide (100 ∈ staged k_in_op)
              then k_n k_in_op else k_n k_in_op + 1)
  ∧ staged k2 = foldl absorb (staged k1) [101; 100; 102; 100]
  ∧ k_n k2 = Z.of_nat (length (staged k2))
  ∧ slots_of 100 (staged k2) = 1%nat
  ∧ staged k2 !! first_index 100 (staged k1) = Some 100
  ∧ staged kN = staged k1
  ∧ k_n kN = k_n k1.
Proof.
  apply (@log_write_absorption xv6 k_in_op
           (final (@log_write xv6 100 k_in_op))
           (final (@log_writes xv6 [101; 100; 102; 100]
                     (final (@log_write xv6 100 k_in_op))))
           100 [101; 100; 102; 100] 3).
  - exact k_in_op_header_ok.
  - exact k_in_op_layout_ok.
  - vm_compute. constructor.
  - unfold is_uint. lia.
  - repeat constructor; unfold is_uint; lia.
  - by vm_compute.
  - by vm_compute.
Defined.

(** The staged list of that run. *)
Example log_write_absorption_example :
  staged (final (@log_writes xv6 [100; 101; 100; 102; 100] k_in_op))
  = [100; 101; 102].
Proof. by vm_compute. Qed.

Lemma log_write_checks_capacity_first_witness :
  @log_write xv6 100 k_full = Panic "too big a transaction" k_full
  ∧ (100 ∈ staged k_full → absorb (staged k_full) 100 = staged k_full).
Proof.
  apply (@log_write_checks_capacity_first xv6 k_full 100).
  - exact k_full_layout_ok.
  - right. by vm_compute.
Defined.

Lemma log_write_outside_transaction_witness :
  @log_write xv6 100 k_mounted =
    Panic "log_write outside of trans" k_mounted
  ∧ ∀ k', @log_write xv6 100 k_in_op ≠ Panic "log_write outside of trans" k'.
Proof.
  split.
  - destruct (@log_write_outside_transaction xv6 k_mounted 100
                k_mounted_layout_ok) as [H _].
    rewrite H by (by vm_compute).
    rewrite decide_False; [done|]. vm_compute. intros [H'|H']; by apply H'.
  - destruct (@log_write_outside_transaction xv6 k_in_op 100
                k_in_op_layout_ok) as [_ H].
    apply H. by vm_compute.
Defined.

(** C8 does not hold as stated: with no operation admitted and the
    transaction at its limit ([n = size - 2 = 28]), [log_write] halts with
    "too big a transaction", not with "log_write outside of trans": the
    capacity test comes first. *)
Lemma log_write_outside_transaction_counterexample :
  k_outstanding k_full_idle < 1
  ∧ k_n k_full_idle = k_size k_full_idle - 2
  ∧ @log_write xv6 100 k_full_idle
    = Panic "too big a transaction" k_full_idle
  ∧ @log_write xv6 100 k_full_idle
    ≠ Panic "log_write outside of trans" k_full_idle.
Proof. by vm_compute. Qed.

(** C6 does not hold as stated: a transaction that has staged exactly
    [size - 2 = 28] distinct blocks, and so is within the limit, halts with
    "too big a transaction" when it records one of them again. *)
Lemma log_write_capacity_counterexample :
  let bs := seqZ 100 28 ++ [100] in
  Z.of_nat (length (remove_dups bs)) = k_size k_in_op - 2
  ∧ Z.of_nat (length (remove_dups bs)) ≤ @LOGSIZE xv6
  ∧ k_n k_in_op = 0
  ∧ @log_writes xv6 bs k_in_op = Panic "too big a transaction" k_full.
Proof. by vm_compute. Qed.

Lemma log_write_capacity_witness :
  (@LOGSIZE xv6 ≤ k_n k_full ∨ k_size k_full - 2 ≤ k_n k_full
   ↔ @log_write xv6 100 k_full = Panic "too big a transaction" k_full)
  ∧ (∀ k', @log_write xv6 100 k_in_op ≠ Panic "too big a transaction" k')
  ∧ (∃ k', @log_writes xv6 (seqZ 100 29) k_in_op
             = Panic "too big a transaction" k'
           ∧ (@LOGSIZE xv6 ≤ k_n k' ∨ k_size k' - 2 ≤ k_n k')).
Proof.
  destruct (@log_write_capacity xv6 k_full 100 [] k_full_layout_ok)
    as (H1 & _ & _).
  destruct (@log_write_capacity xv6 k_in_op 100 (seqZ 100 29)
              k_in_op_layout_ok) as (_ & H2 & H3).
  split_and!.
  - exact H1.
  - apply H2; by vm_compute.
  - apply H3.
    + exact k_in_op_header_ok.
    + by vm_compute.
    + by vm_compute.
    + by vm_compute.
    + apply NoDup_seqZ.
    + apply Forall_forall. intros b Hb%elem_of_seqZ. unfold is_uint. lia.
    + right. by vm_compute.
Defined.

(** ** Commit of an empty transaction *)

Section Commit0.
Context {P : Params}.

(** C9.  With [log.lh.n = 0], [commit] returns at once: the kernel state
    it returns in is the state it was called in, so no block is read or
    written and the header, the checksum, the log region and the home
    blocks are what they were. *)
Theorem commit_empty (k : kernel) :
  k_n k = 0 → commit k = Done tt k.
Proof.
  intros Hn. unfold commit, mbind, M_bind, gets. by rewrite Hn.
Qed.

End Commit0.

Lemma commit_empty_witness : @commit xv6 k_mounted = Done tt k_mounted.
Proof. apply (@commit_empty xv6 k_mounted). by vm_compute. Defined.

(** ** Admission *)

Section Admission.
Context {P : Params}.

Lemma admission_test (k : kernel) :
  admission_fits k →
  to_int (k_n k + to_int (to_int (k_outstanding k + 1) * MAXOPBLOCKS))
  = k_n k + (k_outstanding k + 1) * MAXOPBLOCKS
  ∧ to_int (LOGSIZE - 2) = LOGSIZE - 2
  ∧ to_int (k_outstanding k + 1) = k_outstanding k + 1.
Proof.
  intros (H1 & H2 & H3 & H4).
  by rewrite (to_int_small _ H1), (to_int_small _ H2), (to_int_small _ H3),
    (to_int_small _ H4).
Qed.

Lemma begin_op_loop_admit (ws : list (kernel → kernel)) (k : kernel) :
  admission_fits k → admissible k →
  begin_op_loop ws k =
    Done tt (set_log (with_locked false)
               (set_log (with_outstanding (k_outstanding k + 1)) k)).
Proof.
  intros Hfits [Hc Hfit].
  destruct (admission_test k Hfits) as (Ht1 & Ht2 & Ht3).
  destruct ws; simpl; rewrite Hc, Ht1, Ht2; simpl.
  all: destruct (_ >? _) eqn:Hn; zbool; [lia|].
  all: unfold mbind, M_bind, modify, release; by rewrite Ht3.
Qed.

Lemma begin_op_loop_block (ws : list (kernel → kernel)) (k : kernel) :
  admission_fits k → ¬ admissible k →
  begin_op_loop ws k =
    match ws with
    | [] => Asleep (set_log (with_locked false) k)
    | w :: ws' =>
        begin_op_loop ws'
          (set_log (with_locked true) (w (set_log (with_locked false) k)))
    end.
Proof.
  intros Hfits Hno. unfold admissible in Hno.
  destruct (admission_test k Hfits) as (Ht1 & Ht2 & Ht3).
  destruct ws; simpl; rewrite Ht1, Ht2.
  all: destruct (k_committing k =? 0) eqn:Hc; zbool; simpl; [|done].
  all: destruct (_ >? _) eqn:Hn; zbool; [done|lia].
Qed.

(** C4.  [begin_op] admits its caller exactly when no commit is in flight
    and [n + (outstanding + 1) * MAXOPBLOCKS > LOGSIZE - 2] is false (the
    capacity of the test is [LOGSIZE]): then it returns with [outstanding]
    one higher, the lock free and nothing else changed.  Otherwise it
    sleeps with the lock released and [outstanding] as it was, and at each
    wakeup makes the same test again on the state it wakes up in. *)
Theorem begin_op_admission (k : kernel) (w : kernel → kernel)
    (ws : list (kernel → kernel)) :
  admission_fits k →
  (admissible k →
   begin_op ws k = Done tt (admitted k)
   ∧ k_outstanding (admitted k) = k_outstanding k + 1
   ∧ k_locked (admitted k) = false)
  ∧ (¬ admissible k →
     begin_op [] k = Asleep (asleep k)
     ∧ k_outstanding (asleep k) = k_outstanding k
     ∧ k_locked (asleep k) = false
     ∧ begin_op (w :: ws) k = begin_op ws (w (asleep k))).
Proof.
  intros Hfits. split.
  - intros Hadm. split; [|done].
    unfold begin_op, mbind, M_bind, acquire, modify.
    by rewrite begin_op_loop_admit.
  - intros Hno. split_and!; [|done|done|].
    + unfold begin_op, mbind, M_bind, acquire, modify.
      by rewrite begin_op_loop_block.
    + unfold begin_op, mbind, M_bind, acquire, modify.
      by rewrite begin_op_loop_block.
Qed.

End Admission.

Lemma begin_op_admission_witness :
  (@begin_op xv6 [] k_mounted = Done tt (admitted k_mounted)
   ∧ k_outstanding (admitted k_mounted) = k_outstanding k_mounted + 1
   ∧ k_locked (admitted k_mounted) = false)
  ∧ (@begin_op xv6 [] k_full = Asleep (asleep k_full)
     ∧ k_outstanding (asleep k_full) = k_outstanding k_full
     ∧ k_locked (asleep k_full) = false
     ∧ @begin_op xv6 [set_log (with_lh (with_n 0))] k_full =
         @begin_op xv6 [] (set_log (with_lh (with_n 0)) (asleep k_full))).
Proof.
  split.
  - apply (@begin_op_admission xv6 k_mounted id []).
    + by vm_compute.
    + split; [by vm_compute|]. vm_compute. intros H. discriminate H.
  - apply (@begin_op_admission xv6 k_full (set_log (with_lh (with_n 0))) []).
    + by vm_compute.
    + intros [_ H]. apply H. by vm_compute.
Defined.

(** ** The monad and the buffer cache *)

Lemma bind_done {A B} (m : M A) (f : A → M B) (k k' : kernel) (a : A) :
  m k = Done a k' → (m ≫= f) k = f a k'.
Proof. intros H. unfold mbind, M_bind. by rewrite H. Qed.

Section Reads.
Context {P : Params}.

Lemma only_reads_refl (k : kernel) : only_reads k k.
Proof.
  split_and!; try done. exists []. simpl. by rewrite app_nil_r.
Qed.

Lemma only_reads_trans (k1 k2 k3 : kernel) :
  only_reads k1 k2 → only_reads k2 k3 → only_reads k1 k3.
Proof.
  intros (Hl & Hd & Hy & Hv & r & Ht) (Hl' & Hd' & Hy' & Hv' & r' & Ht').
  split_and!; [congruence..| |].
  - intros b. by rewrite Hv', Hv.
  - exists (r ++ r'). by rewrite Ht', Ht, fmap_app, app_assoc.
Qed.

Lemma bread_spec (dev b : Z) (k : kernel) :
  ∃ k', bread dev b k = Done b k' ∧ only_reads k k'
        ∧ k_cache k' !! b = Some (k_view k b).
Proof.
  unfold bread, k_view. destruct (k_cache k !! b) as [d|] eqn:Hc.
  - exists k. split_and!; [done|apply only_reads_refl|done].
  - eexists. split_and!; [done| |simpl; apply lookup_insert_eq].
    split_and!; try done.
    + intros b'. unfold k_view. simpl.
      destruct (decide (b = b')) as [<-|Hne].
      * by rewrite lookup_insert_eq, Hc.
      * by rewrite lookup_insert_ne.
    + by exists [b].
Qed.

Lemma sum_blocks_ext (v1 v2 : Z → list Z) (fuel : nat) (i start first c : Z) :
  (∀ b, v1 b = v2 b) →
  sum_blocks v1 fuel i start first c = sum_blocks v2 fuel i start first c.
Proof.
  intros Hv. revert i c. induction fuel as [|fuel IH]; intros i c; [done|].
  simpl. by rewrite Hv, IH.
Qed.

Lemma sum_loop_spec (first : Z) (fuel : nat) (i c : Z) (k : kernel) :
  ∃ k', for_acc fuel i c (λ i checksum,
          dev ← gets k_dev;
          start ← gets k_start;
          logblocks ← bread dev (to_uint (start + i + first));
          d ← buf_data logblocks;
          brelse logblocks;;
          mret (sum_bytes (Z.to_nat BSIZE) 0 d checksum)) k =
          Done (sum_blocks (k_view k) fuel i (k_start k) first c) k'
        ∧ only_reads k k'.
Proof.
  revert k i c. induction fuel as [|fuel IH]; intros k i c.
  - exists k. split; [done|apply only_reads_refl].
  - simpl for_acc.
    destruct (bread_spec (k_dev k) (to_uint (k_start k + i + first)) k)
      as (k1 & Hrd & Hro & _).
    destruct (IH k1 (i + 1) (sum_bytes (Z.to_nat BSIZE) 0
                 (k_view k (to_uint (k_start k + i + first))) c))
      as (k2 & Hrun & Hro').
    exists k2. split; [|by eapply only_reads_trans].
    erewrite bind_done.
    2:{ unfold mbind, M_bind, gets. rewrite Hrd.
        unfold buf_data, gets, brelse, mret, M_ret. reflexivity. }
    destruct Hro as (Hl & _ & _ & Hv & _).
    rewrite Hv, Hrun. f_equal.
    unfold k_start. rewrite Hl. simpl sum_blocks.
    by apply sum_blocks_ext.
Qed.

Lemma sum_log_blocks_spec (first : Z) (k : kernel) :
  ∃ k', sum_log_blocks first k =
          Done (sum_blocks (k_view k) (Z.to_nat (k_n k)) 0 (k_start k) first 0) k'
        ∧ only_reads k k'.
Proof.
  unfold sum_log_blocks. rewrite (bind_done _ _ k k (k_n k)) by done.
  apply sum_loop_spec.
Qed.

End Reads.

(** ** Recovery *)

Section Recovery.
Context {P : Params}.

(** [recover_from_log] reads the checksum block and the [n] log blocks from
    [start + 2] on, and then takes the branch the comparison of the two
    checksums selects. *)
Lemma recover_from_log_spec (k : kernel) :
  ∃ k1, only_reads k k1
        ∧ recover_from_log k =
            if stored_checksum k =? recomputed_checksum k
            then replay k1
            else Done tt
                   (emit (EvPrint
                      "boot log checksum mismatch, will not commit log." [])
                      k1).
Proof.
  destruct (bread_spec (k_dev k) (to_uint (k_start k)) k)
    as (k0 & Hrd & Hro & _).
  destruct (sum_log_blocks_spec (1 + 1) k0) as (k1 & Hsum & Hro').
  exists k1. split; [by eapply only_reads_trans|].
  unfold recover_from_log.
  rewrite (bind_done _ _ k k (k_dev k)) by done.
  rewrite (bind_done _ _ k k (k_start k)) by done.
  rewrite (bind_done _ _ _ _ _ Hrd).
  rewrite (bind_done _ _ k0 k0 (k_view k0 (to_uint (k_start k)))) by done.
  rewrite (bind_done _ _ _ _ _ Hsum).
  rewrite (bind_done _ _ k1 k1 tt) by done.
  destruct Hro as (Hl & _ & _ & Hv & _).
  unfold stored_checksum, recomputed_checksum.
  rewrite Hv. unfold k_n, k_start. rewrite Hl.
  rewrite (sum_blocks_ext (k_view k0) (k_view k)) by done.
  by destruct (_ =? _).
Qed.

(** C7.  When the checksum [recover_from_log] recomputes differs from the
    one stored in the checksum block, it returns (it does not panic), and
    between call and return it has done device reads only, followed by
    the one message "boot log checksum mismatch, will not commit log.": the
    device (home blocks and log region), the in-memory log and the data of
    every buffer are as they were, and no block has been written. *)
Theorem recovery_mismatch_discards (k : kernel) :
  stored_checksum k ≠ recomputed_checksum k →
  ∃ k1 reads,
    recover_from_log k =
      Done tt
        (emit (EvPrint "boot log checksum mismatch, will not commit log." [])
           k1)
    ∧ k_disk k1 = k_disk k
    ∧ k_log k1 = k_log k
    ∧ k_dirty k1 = k_dirty k
    ∧ (∀ b, k_view k1 b = k_view k b)
    ∧ k_trace k1 = k_trace k ++ (EvRead <$> reads).
Proof.
  intros Hne. destruct (recover_from_log_spec k) as (k1 & Hro & Hrun).
  apply Z.eqb_neq in Hne. rewrite Hne in Hrun.
  destruct Hro as (Hl & Hd & Hy & Hv & reads & Ht).
  by exists k1, reads.
Qed.

(** C3.  At boot the in-memory [log.lh.n] is zero when [recover_from_log]
    sums the log blocks, so the sum runs over no block and the recomputed
    checksum is 0; [initlog] then replays (reads the header, installs,
    truncates) exactly when the 32-bit value in bytes 0..3 of the checksum
    block on the device is 0, whatever the rest of the log region holds. *)
Theorem boot_recovery_compares_with_zero (sb : superblock) (dev : Z)
    (d : gmap Z (list Z)) :
  4 * (LOGSIZE + 1) < BSIZE →
  sum_log_blocks (1 + 1) (boot_checked sb dev d)
    = Done 0 (boot_checked sb dev d)
  ∧ initlog sb dev (boot d) =
      if load_checksum (dread d (to_uint (logstart sb))) =? 0
      then replay (boot_checked sb dev d)
      else Done tt
             (emit (EvPrint
                "boot log checksum mismatch, will not commit log." [])
                (boot_checked sb dev d)).
Proof.
  intros Hfit. split; [done|].
  unfold initlog. destruct (_ >=? _) eqn:Hg; zbool; [lia|].
  unfold recover_from_log, mbind, M_bind, initlock, modify, gets, bread.
  simpl. rewrite lookup_empty. simpl.
  change (k_start (set_log _ (set_log _ (set_log _ (set_log _
            (set_log _ (boot d)))))))
    with (to_int (logstart sb)).
  rewrite !to_uint_to_int.
  unfold k_view. simpl. rewrite lookup_insert_eq.
  by destruct (_ =? _).
Qed.

End Recovery.

(** ** The commit protocol *)

Lemma marks_app (tr1 tr2 : list event) :
  marks (tr1 ++ tr2) = marks tr1 ++ marks tr2.
Proof. apply omap_app. Qed.

Lemma marks_reads (reads : list Z) : marks (EvRead <$> reads) = [].
Proof. induction reads as [|b reads IH]; [done|]. simpl. exact IH. Qed.

Section CommitSteps.
Context {P : Params}.

Lemma advances_refl (k : kernel) : advances k k [].
Proof. split; [done|]. exists []. by rewrite app_nil_r. Qed.

Lemma advances_trans (k1 k2 k3 : kernel) (ms1 ms2 : list mark) :
  advances k1 k2 ms1 → advances k2 k3 ms2 → advances k1 k3 (ms1 ++ ms2).
Proof.
  intros (Hl & tr & Ht & Hm) (Hl' & tr' & Ht' & Hm').
  split; [congruence|]. exists (tr ++ tr').
  by rewrite Ht', Ht, app_assoc, marks_app, Hm, Hm'.
Qed.

Lemma only_reads_advances (k k' : kernel) : only_reads k k' → advances k k' [].
Proof.
  intros (Hl & _ & _ & _ & reads & Ht). split; [done|].
  exists (EvRead <$> reads). split; [done|apply marks_reads].
Qed.

(** One round of the loop of [write_log]. *)
Lemma write_log_body (tail v : Z) (k : kernel) :
  k_block k !! Z.to_nat tail = Some v →
  ∃ k', (dev ← gets k_dev;
         start ← gets k_start;
         to ← bread dev (to_uint (start + tail + 1 + 1));
         home ← lh_block_get tail;
         from ← bread dev (to_uint home);
         memmove to from;;
         bwrite to;;
         brelse from;;
         brelse to) k = Done tt k'
        ∧ advances k k' [MWrite (to_uint (k_start k + tail + 1 + 1))].
Proof.
  intros Hv.
  destruct (bread_spec (k_dev k) (to_uint (k_start k + tail + 1 + 1)) k)
    as (k1 & Hrd1 & Hro1 & _).
  destruct (bread_spec (k_dev k) (to_uint v) k1) as (k2 & Hrd2 & Hro2 & _).
  apply only_reads_advances in Hro1 as Ha1.
  apply only_reads_advances in Hro2 as Ha2.
  pose proof (advances_trans _ _ _ _ _ Ha1 Ha2) as Ha.
  eexists. split.
  - unfold mbind, M_bind, gets. rewrite Hrd1.
    unfold lh_block_get. destruct Hro1 as (Hl1 & _).
    unfold k_block in *. rewrite Hl1, Hv, Hrd2.
    unfold memmove, bwrite, brelse, modify, mret, M_ret. reflexivity.
  - eapply (advances_trans _ _ _ [] [_]); [exact Ha|].
    split; [done|]. eexists [_]. split; [reflexivity|]. reflexivity.
Qed.

Lemma write_log_loop (fuel : nat) (i : Z) (k : kernel) :
  0 ≤ i → (Z.to_nat i + fuel ≤ length (k_block k))%nat →
  ∃ k', for_loop fuel i (λ tail,
          dev ← gets k_dev;
          start ← gets k_start;
          to ← bread dev (to_uint (start + tail + 1 + 1));
          home ← lh_block_get tail;
          from ← bread dev (to_uint home);
          memmove to from;;
          bwrite to;;
          brelse from;;
          brelse to) k = Done tt k'
        ∧ advances k k'
            (MWrite <$> ((λ j, to_uint (k_start k + j + 1 + 1))
                         <$> seqZ i (Z.of_nat fuel))).
Proof.
  revert i k. induction fuel as [|fuel IH]; intros i k Hi Hlen.
  - exists k. split; [done|apply advances_refl].
  - destruct (lookup_lt_is_Some_2 (k_block k) (Z.to_nat i)) as [v Hv]; [lia|].
    destruct (write_log_body i v k Hv) as (k1 & Hbody & Ha1).
    assert (Hl1 : k_log k1 = k_log k) by apply Ha1.
    destruct (IH (i + 1) k1) as (k2 & Hrun & Ha2); [lia| |].
    { unfold k_block. rewrite Hl1. fold (k_block k). lia. }
    exists k2. split.
    + simpl for_loop. rewrite (bind_done _ _ _ _ _ Hbody). exact Hrun.
    + rewrite Nat2Z.inj_succ, seqZ_cons by lia. simpl fmap.
      replace (Z.pred (Z.succ (Z.of_nat fuel))) with (Z.of_nat fuel) by lia.
      replace (Z.succ i) with (i + 1) by lia.
      unfold k_start in *. rewrite Hl1 in Ha2.
      exact (advances_trans _ _ _ [_] _ Ha1 Ha2).
Qed.

Lemma write_log_spec (k : kernel) :
  header_ok k →
  ∃ k', write_log k = Done tt k'
        ∧ advances k k'
            (MWrite <$> ((λ j, to_uint (k_start k + j + 1 + 1))
                         <$> seqZ 0 (k_n k))).
Proof.
  intros [Hn Hlen]. unfold write_log.
  rewrite (bind_done _ _ k k (k_n k)) by done.
  destruct (write_log_loop (Z.to_nat (k_n k)) 0 k) as (k' & Hrun & Ha);
    [lia|lia|].
  exists k'. split; [done|]. by rewrite Z2Nat.id in Ha by lia.
Qed.

(** One round of the loop of [install_trans]. *)
Lemma install_trans_body (tail v : Z) (k : kernel) :
  k_block k !! Z.to_nat tail = Some v →
  ∃ k', (dev ← gets k_dev;
         start ← gets k_start;
         lbuf ← bread dev (to_uint (start + tail + 1 + 1));
         home ← lh_block_get tail;
         dbuf ← bread dev (to_uint home);
         memmove dbuf lbuf;;
         bwrite dbuf;;
         brelse lbuf;;
         brelse dbuf) k = Done tt k'
        ∧ advances k k' [MWrite (to_uint v)].
Proof.
  intros Hv.
  destruct (bread_spec (k_dev k) (to_uint (k_start k + tail + 1 + 1)) k)
    as (k1 & Hrd1 & Hro1 & _).
  destruct (bread_spec (k_dev k) (to_uint v) k1) as (k2 & Hrd2 & Hro2 & _).
  apply only_reads_advances in Hro1 as Ha1.
  apply only_reads_advances in Hro2 as Ha2.
  pose proof (advances_trans _ _ _ _ _ Ha1 Ha2) as Ha.
  eexists. split.
  - unfold mbind, M_bind, gets. rewrite Hrd1.
    unfold lh_block_get. destruct Hro1 as (Hl1 & _).
    unfold k_block in *. rewrite Hl1, Hv, Hrd2.
    unfold memmove, bwrite, brelse, modify, mret, M_ret. reflexivity.
  - eapply (advances_trans _ _ _ [] [_]); [exact Ha|].
    split; [done|]. eexists [_]. split; [reflexivity|]. reflexivity.
Qed.

Lemma install_trans_loop (fuel : nat) (i : Z) (k : kernel) :
  0 ≤ i → (Z.to_nat i + fuel ≤ length (k_block k))%nat →
  ∃ k', for_loop fuel i (λ tail,
          dev ← gets k_dev;
          start ← gets k_start;
          lbuf ← bread dev (to_uint (start + tail + 1 + 1));
          home ← lh_block_get tail;
          dbuf ← bread dev (to_uint home);
          memmove dbuf lbuf;;
          bwrite dbuf;;
          brelse lbuf;;
          brelse dbuf) k = Done tt k'
        ∧ advances k k'
            (MWrite <$> (to_uint
                         <$> take fuel (drop (Z.to_nat i) (k_block k)))).
Proof.
  revert i k. induction fuel as [|fuel IH]; intros i k Hi Hlen.
  - exists k. split; [done|apply advances_refl].
  - destruct (lookup_lt_is_Some_2 (k_block k) (Z.to_nat i)) as [v Hv]; [lia|].
    destruct (install_trans_body i v k Hv) as (k1 & Hbody & Ha1).
    assert (Hl1 : k_log k1 = k_log k) by apply Ha1.
    destruct (IH (i + 1) k1) as (k2 & Hrun & Ha2); [lia| |].
    { unfold k_block. rewrite Hl1. fold (k_block k). lia. }
    exists k2. split.
    + simpl for_loop. rewrite (bind_done _ _ _ _ _ Hbody). exact Hrun.
    + rewrite (drop_S _ _ _ Hv). simpl take. simpl fmap.
      unfold k_block in *. rewrite Hl1 in Ha2.
      replace (Z.to_nat (i + 1)) with (S (Z.to_nat i)) in Ha2 by lia.
      exact (advances_trans _ _ _ [_] _ Ha1 Ha2).
Qed.

Lemma install_trans_spec (k : kernel) :
  header_ok k →
  ∃ k', install_trans k = Done tt k' ∧ advances k k' (MWrite <$> staged k).
Proof.
  intros [Hn Hlen]. unfold install_trans.
  rewrite (bind_done _ _ k k (k_n k)) by done.
  destruct (install_trans_loop (Z.to_nat (k_n k)) 0 k) as (k' & Hrun & Ha);
    [lia|lia|].
  exists k'. split; [done|]. by rewrite drop_0 in Ha.
Qed.

Lemma buf_poke_spec (b j v : Z) (k : kernel) :
  ∃ k', buf_poke b j v k = Done tt k' ∧ advances k k' [].
Proof.
  eexists. split; [reflexivity|]. split; [done|].
  exists []. by rewrite app_nil_r.
Qed.

Lemma store_int_spec (b word v : Z) (k : kernel) :
  ∃ k', store_int b word v k = Done tt k' ∧ advances k k' [].
Proof.
  unfold store_int.
  destruct (buf_poke_spec b (4 * word) (to_uchar (to_uint v)) k)
    as (k1 & H1 & A1).
  destruct (buf_poke_spec b (4 * word + 1)
              (to_uchar (Z.shiftr (to_uint v) 8)) k1) as (k2 & H2 & A2).
  destruct (buf_poke_spec b (4 * word + 2)
              (to_uchar (Z.shiftr (to_uint v) 16)) k2) as (k3 & H3 & A3).
  destruct (buf_poke_spec b (4 * word + 3)
              (to_uchar (Z.shiftr (to_uint v) 24)) k3) as (k4 & H4 & A4).
  exists k4. split.
  - rewrite (bind_done _ _ _ _ _ H1), (bind_done _ _ _ _ _ H2),
      (bind_done _ _ _ _ _ H3). exact H4.
  - exact (advances_trans _ _ _ [] []
             (advances_trans _ _ _ [] []
                (advances_trans _ _ _ [] [] A1 A2) A3) A4).
Qed.

Lemma write_head_loop (buf : Z) (fuel : nat) (i : Z) (k : kernel) :
  0 ≤ i → (Z.to_nat i + fuel ≤ length (k_block k))%nat →
  ∃ k', for_loop fuel i (λ i,
          v ← lh_block_get i;
          store_int buf (1 + i) v) k = Done tt k'
        ∧ advances k k' [].
Proof.
  revert i k. induction fuel as [|fuel IH]; intros i k Hi Hlen.
  - exists k. split; [done|apply advances_refl].
  - destruct (lookup_lt_is_Some_2 (k_block k) (Z.to_nat i)) as [v Hv]; [lia|].
    destruct (store_int_spec buf (1 + i) v k) as (k1 & Hst & Ha1).
    assert (Hl1 : k_log k1 = k_log k) by apply Ha1.
    destruct (IH (i + 1) k1) as (k2 & Hrun & Ha2);
      [lia|unfold k_block in *; rewrite Hl1; lia|].
    exists k2. split.
    + simpl for_loop. erewrite bind_done; [exact Hrun|].
      unfold mbind, M_bind, lh_block_get. by rewrite Hv.
    + exact (advances_trans _ _ _ [] [] Ha1 Ha2).
Qed.

Lemma bwrite_spec (b : Z) (k : kernel) :
  ∃ k', bwrite b k = Done tt k' ∧ advances k k' [MWrite b].
Proof.
  eexists. split; [reflexivity|]. split; [done|].
  eexists [_]. split; reflexivity.
Qed.

Lemma write_head_spec (k : kernel) :
  header_ok k →
  ∃ k', write_head k = Done tt k'
        ∧ advances k k' [MWrite (to_uint (k_start k + 1))].
Proof.
  intros [Hn Hlen].
  destruct (bread_spec (k_dev k) (to_uint (k_start k + 1)) k)
    as (k1 & Hrd & Hro & _).
  apply only_reads_advances in Hro as Ha1.
  assert (Hl1 : k_log k1 = k_log k) by apply Ha1.
  destruct (store_int_spec (to_uint (k_start k + 1)) 0 (k_n k) k1)
    as (k2 & Hst & Ha2).
  assert (Hl2 : k_log k2 = k_log k1) by apply Ha2.
  destruct (write_head_loop (to_uint (k_start k + 1))
              (Z.to_nat (k_n k)) 0 k2) as (k3 & Hloop & Ha3);
    [lia|unfold k_block in *; rewrite Hl2, Hl1; lia|].
  destruct (bwrite_spec (to_uint (k_start k + 1)) k3) as (k4 & Hbw & Ha4).
  exists k4. split.
  - unfold write_head.
    rewrite (bind_done _ _ k k (k_dev k)) by done.
    rewrite (bind_done _ _ k k (k_start k)) by done.
    rewrite (bind_done _ _ _ _ _ Hrd).
    rewrite (bind_done _ _ k1 k1 (k_n k)).
    2:{ unfold gets, k_n. by rewrite Hl1. }
    rewrite (bind_done _ _ _ _ _ Hst).
    rewrite (bind_done _ _ _ _ _ Hloop).
    rewrite (bind_done _ _ _ _ _ Hbw). done.
  - exact (advances_trans _ _ _ [] [_] Ha1
             (advances_trans _ _ _ [] [_] Ha2
                (advances_trans _ _ _ [] [_] Ha3 Ha4))).
Qed.

Lemma to_uint_add_ne (s d : Z) :
  0 < d < 2 ^ 32 → to_uint (s + d) ≠ to_uint s.
Proof.
  unfold to_uint. intros Hd Heq.
  change (2 ^ 32) with 4294967296 in *.
  Z.div_mod_to_equations. lia.
Qed.

Lemma sum_blocks_ext_on (v1 v2 : Z → list Z) (fuel : nat)
    (i start first c : Z) :
  (∀ j, i ≤ j < i + Z.of_nat fuel →
        v1 (to_uint (start + j + first)) = v2 (to_uint (start + j + first))) →
  sum_blocks v1 fuel i start first c = sum_blocks v2 fuel i start first c.
Proof.
  revert i c. induction fuel as [|fuel IH]; intros i c Hv; [done|].
  simpl. rewrite Hv by lia. apply IH. intros j Hj. apply Hv. lia.
Qed.

Lemma k_view_poke (b j v b' : Z) (k : kernel) :
  b' ≠ b →
  k_view (set_cache (<[b := <[Z.to_nat j := v]> (k_view k b)]>) k) b'
  = k_view k b'.
Proof.
  intros Hne. unfold k_view. simpl. by rewrite lookup_insert_ne.
Qed.

Lemma k_view_bwrite (b b' : Z) (k : kernel) (e : event) :
  k_view (set_dirty (λ s, s ∖ {[b]})
            (set_disk (<[b := k_view k b]>) (emit e k))) b'
  = k_view k b'.
Proof.
  unfold k_view. simpl. destruct (k_cache k !! b') as [d|] eqn:Hc; [done|].
  unfold dread. destruct (decide (b = b')) as [->|Hne].
  - by rewrite lookup_insert_eq, Hc.
  - by rewrite lookup_insert_ne.
Qed.

Lemma buf_poke_view (b j v : Z) (k : kernel) :
  ∃ k', buf_poke b j v k = Done tt k' ∧ advances k k' []
        ∧ ∀ b', b' ≠ b → k_view k' b' = k_view k b'.
Proof.
  eexists. split_and!; [reflexivity| |].
  - split; [done|]. exists []. by rewrite app_nil_r.
  - intros b' Hne. by apply k_view_poke.
Qed.

Lemma bwrite_view (b : Z) (k : kernel) :
  ∃ k', bwrite b k = Done tt k' ∧ advances k k' [MWrite b]
        ∧ ∀ b', k_view k' b' = k_view k b'.
Proof.
  eexists. split_and!; [reflexivity| |].
  - split; [done|]. eexists [_]. split; reflexivity.
  - intros b'. apply k_view_bwrite.
Qed.

Lemma write_checksum_spec (k : kernel) :
  ∃ k', write_checksum k = Done tt k'
        ∧ k_log k' = with_checksum (commit_checksum k) (k_log k)
        ∧ (∃ tr, k_trace k' = k_trace k ++ tr
                 ∧ marks tr =
                     [MPrint "write_checksum() - log checksum calculated as: %x \n";
                      MWrite (to_uint (k_start k));
                      MPrint "disk written checksum data: %x \n"])
        ∧ (∀ b, b ≠ to_uint (k_start k) → k_view k' b = k_view k b).
Proof.
  destruct (sum_log_blocks_spec 1 k) as (k1 & Hsum & Hro1).
  destruct Hro1 as (Hl1 & _ & _ & Hv1 & r1 & Ht1).
  set (c := commit_checksum k).
  set (a := to_uint (k_start k)).
  pose (k2 := emit (EvPrint
                "write_checksum() - log checksum calculated as: %x \n" [c])
               (set_log (with_checksum c) k1)).
  assert (Hl2 : k_log k2 = with_checksum c (k_log k)).
  { simpl. by rewrite Hl1. }
  destruct (bread_spec (k_dev k) a k2) as (k3 & Hrd3 & Hro3 & _).
  destruct Hro3 as (Hl3 & _ & _ & Hv3 & r3 & Ht3).
  destruct (buf_poke_view a 0 (to_uchar c) k3) as (k4 & Hp4 & Ha4 & Hv4).
  destruct (buf_poke_view a 1 (to_uchar (Z.shiftr c 8)) k4)
    as (k5 & Hp5 & Ha5 & Hv5).
  destruct (buf_poke_view a 2 (to_uchar (Z.shiftr c 16)) k5)
    as (k6 & Hp6 & Ha6 & Hv6).
  destruct (buf_poke_view a 3 (to_uchar (Z.shiftr c 24)) k6)
    as (k7 & Hp7 & Ha7 & Hv7).
  destruct (bwrite_view a k7) as (k8 & Hw8 & Ha8 & Hv8).
  destruct (bread_spec (k_dev k) a k8) as (k9 & Hrd9 & Hro9 & _).
  apply only_reads_advances in Hro9 as Ha9.
  destruct Hro9 as (_ & _ & _ & Hv9 & _).
  pose proof (advances_trans _ _ _ _ _
                (advances_trans _ _ _ _ _
                   (advances_trans _ _ _ _ _
                      (advances_trans _ _ _ _ _
                         (advances_trans _ _ _ _ _ Ha4 Ha5) Ha6) Ha7) Ha8) Ha9)
    as (Hl39 & tr39 & Ht39 & Hm39).
  simpl in Hm39.
  eexists. split_and!.
  - unfold write_checksum.
    rewrite (bind_done _ _ _ _ _ Hsum).
    fold (commit_checksum k). fold c.
    rewrite (bind_done _ _ k1 (set_log (with_checksum c) k1) tt) by done.
    rewrite (bind_done _ _ (set_log (with_checksum c) k1)
               (set_log (with_checksum c) k1) c) by done.
    rewrite (bind_done _ _ (set_log (with_checksum c) k1) k2 tt) by done.
    rewrite (bind_done _ _ k2 k2 (k_dev k)).
    2:{ unfold gets, k_dev. by rewrite Hl2. }
    rewrite (bind_done _ _ k2 k2 (k_start k)).
    2:{ unfold gets, k_start. by rewrite Hl2. }
    fold a.
    rewrite (bind_done _ _ _ _ _ Hrd3), (bind_done _ _ _ _ _ Hp4),
      (bind_done _ _ _ _ _ Hp5), (bind_done _ _ _ _ _ Hp6),
      (bind_done _ _ _ _ _ Hp7), (bind_done _ _ _ _ _ Hw8).
    rewrite (bind_done _ _ k8 k8 tt) by done.
    rewrite (bind_done _ _ _ _ _ Hrd9).
    rewrite (bind_done _ _ k9 k9 (k_view k9 a)) by done.
    rewrite (bind_done _ _ k9 k9 tt) by done.
    reflexivity.
  - simpl. by rewrite Hl39, Hl3, Hl2.
  - eexists. split.
    + simpl. rewrite Ht39, Ht3. simpl. rewrite Ht1.
      rewrite <- !app_assoc. reflexivity.
    + rewrite !marks_app, !marks_reads, Hm39. reflexivity.
  - intros b Hb.
    change (k_view (emit ?e k9) b) with (k_view k9 b).
    rewrite Hv9, Hv8, Hv7, Hv6, Hv5, Hv4, Hv3 by done.
    change (k_view k2 b) with (k_view k1 b).
    apply Hv1.
Qed.

Lemma check_checksum_spec (k : kernel) :
  ∃ k', check_checksum k =
          Done (if k_checksum k =? commit_checksum k then 1 else 0) k'
        ∧ advances k k'
            [MPrint "check_checksum() - log checksum: %x \n";
             MPrint "check_checksum() - new checksum: %x \n";
             MPrint (if k_checksum k =? commit_checksum k
                     then "check_checksum() - checksum validated prior to commit\n"
                     else "check_checksum() - ERROR: checksum invalid prior to commit\n")].
Proof.
  destruct (sum_log_blocks_spec 1 k) as (k1 & Hsum & Hro1).
  destruct Hro1 as (Hl1 & _ & _ & Hv1 & r1 & Ht1).
  unfold check_checksum.
  rewrite (bind_done _ _ _ _ _ Hsum).
  fold (commit_checksum k).
  unfold mbind, M_bind, gets, cprintf, modify.
  replace (k_checksum k1) with (k_checksum k)
    by (unfold k_checksum; by rewrite Hl1).
  destruct (k_checksum k =? commit_checksum k).
  - eexists. split; [reflexivity|]. split; [done|].
    eexists. split.
    + simpl. rewrite Ht1, <- !app_assoc. reflexivity.
    + rewrite marks_app, marks_reads. reflexivity.
  - eexists. split; [reflexivity|]. split; [done|].
    eexists. split.
    + simpl. rewrite Ht1, <- !app_assoc. reflexivity.
    + rewrite marks_app, marks_reads. reflexivity.
Qed.

Lemma commit_unfold (k : kernel) :
  0 < k_n k →
  commit k =
    (write_log;; write_checksum;;
     check ← check_checksum; commit_checked check) k.
Proof.
  intros Hn. unfold commit at 1.
  rewrite (bind_done _ _ k k (k_n k)) by done.
  destruct (k_n k >? 0) eqn:Hg; zbool; [done|lia].
Qed.

(** After [write_checksum], [check_checksum] finds the checksum it looks
    for: the write of the checksum block has not touched the blocks the sum
    runs over. *)
Lemma checksum_verifies (k k' : kernel) :
  0 ≤ k_n k < 2 ^ 32 →
  k_log k' = with_checksum (commit_checksum k) (k_log k) →
  (∀ b, b ≠ to_uint (k_start k) → k_view k' b = k_view k b) →
  k_checksum k' = commit_checksum k' .
Proof.
  intros Hn Hl Hv. unfold k_checksum. rewrite Hl. simpl.
  unfold commit_checksum, k_n, k_start. rewrite Hl. simpl.
  f_equal. symmetry. apply sum_blocks_ext_on.
  intros j Hj. apply Hv.
  replace (log_start (k_log k) + j + 1)
    with (log_start (k_log k) + (j + 1)) by lia.
  apply to_uint_add_ne. unfold k_n in Hn. lia.
Qed.

End CommitSteps.

(** ** Blocks keep their size *)

Lemma preserves_bind {A B} (I : kernel → Prop) (m : M A) (f : A → M B) :
  preserves I m → (∀ a, preserves I (f a)) → preserves I (m ≫= f).
Proof.
  intros Hm Hf k b k' HI Hrun. unfold mbind, M_bind in Hrun.
  destruct (m k) as [a k1| | |] eqn:Hmk; try done.
  eapply Hf; [|exact Hrun]. by eapply Hm.
Qed.

Lemma preserves_mret {A} (I : kernel → Prop) (a : A) :
  preserves I (mret a : M A).
Proof. intros k a' k' HI Hrun. by injection Hrun as _ <-. Qed.

Lemma preserves_gets {A} (I : kernel → Prop) (f : kernel → A) :
  preserves I (gets f).
Proof. intros k a' k' HI Hrun. by injection Hrun as _ <-. Qed.

Lemma preserves_panic {A} (I : kernel → Prop) (msg : string) :
  preserves I (panic msg : M A).
Proof. intros k a' k' HI Hrun. done. Qed.

Lemma preserves_for_loop (I : kernel → Prop) (body : Z → M unit)
    (fuel : nat) (i : Z) :
  (∀ j, i ≤ j → preserves I (body j)) → preserves I (for_loop fuel i body).
Proof.
  revert i. induction fuel as [|fuel IH]; intros i Hbody.
  - apply preserves_mret.
  - simpl. apply preserves_bind; [apply Hbody; lia|].
    intros _. apply IH. intros j Hj. apply Hbody. lia.
Qed.

Lemma preserves_for_acc (I : kernel → Prop) (body : Z → Z → M Z)
    (fuel : nat) (i acc : Z) :
  (∀ j c, preserves I (body j c)) → preserves I (for_acc fuel i acc body).
Proof.
  intros Hbody. revert i acc. induction fuel as [|fuel IH]; intros i acc.
  - apply preserves_mret.
  - simpl. apply preserves_bind; [apply Hbody|]. intros c. apply IH.
Qed.

Lemma preserves_modify (I : kernel → Prop) (f : kernel → kernel) :
  (∀ k, I k → I (f k)) → preserves I (modify f).
Proof. intros Hf k a k' HI Hrun. injection Hrun as _ <-. by apply Hf. Qed.

Lemma preserves_if {A} (I : kernel → Prop) (c : bool) (m1 m2 : M A) :
  preserves I m1 → preserves I m2 → preserves I (if c then m1 else m2).
Proof. by destruct c. Qed.

Section BlocksOk.
Context {P : Params}.

Lemma blocks_ok_boot : blocks_ok (boot ∅).
Proof.
  intros b. unfold k_view, dread. simpl. rewrite !lookup_empty. simpl.
  apply length_replicate.
Qed.

Lemma blocks_ok_set_log (f : log → log) :
  preserves blocks_ok (modify (set_log f)).
Proof. by apply preserves_modify. Qed.

Lemma blocks_ok_set_dirty (f : gset Z → gset Z) :
  preserves blocks_ok (modify (set_dirty f)).
Proof. by apply preserves_modify. Qed.

Lemma blocks_ok_modify_log (f : kernel → log → log) :
  preserves blocks_ok (modify (λ k, set_log (f k) k)).
Proof. by apply preserves_modify. Qed.

Lemma blocks_ok_cprintf (fmt : string) (args : list Z) :
  preserves blocks_ok (cprintf fmt args).
Proof. by apply preserves_modify. Qed.

Lemma blocks_ok_wakeup : preserves blocks_ok wakeup.
Proof. by apply preserves_modify. Qed.

Lemma blocks_ok_bread (dev b : Z) : preserves blocks_ok (bread dev b).
Proof.
  intros k a k' HI Hrun.
  destruct (bread_spec dev b k) as (k1 & Hrd & (_ & _ & _ & Hv & _) & _).
  rewrite Hrun in Hrd. injection Hrd as _ <-.
  intros b'. by rewrite Hv.
Qed.

Lemma blocks_ok_brelse (b : Z) : preserves blocks_ok (brelse b).
Proof. apply preserves_mret. Qed.

Lemma blocks_ok_buf_data (b : Z) : preserves blocks_ok (buf_data b).
Proof. apply preserves_gets. Qed.

Lemma blocks_ok_buf_poke (b j v : Z) : preserves blocks_ok (buf_poke b j v).
Proof.
  apply preserves_modify. intros k HI b'.
  destruct (decide (b' = b)) as [->|Hne].
  - unfold k_view at 1. simpl. rewrite lookup_insert_eq, length_insert.
    apply HI.
  - rewrite k_view_poke by done. apply HI.
Qed.

Lemma blocks_ok_memmove (dst src : Z) : preserves blocks_ok (memmove dst src).
Proof.
  apply preserves_modify. intros k HI b'.
  unfold k_view at 1. simpl.
  destruct (decide (b' = dst)) as [->|Hne].
  - rewrite lookup_insert_eq, length_app, length_take, length_drop, !HI. lia.
  - rewrite lookup_insert_ne by done. apply HI.
Qed.

Lemma blocks_ok_bwrite (b : Z) : preserves blocks_ok (bwrite b).
Proof.
  apply preserves_modify. intros k HI b'.
  rewrite k_view_bwrite. apply HI.
Qed.

Lemma blocks_ok_lh_block_get (i : Z) : preserves blocks_ok (lh_block_get i).
Proof.
  intros k a k' HI Hrun. unfold lh_block_get in Hrun.
  destruct (k_block k !! Z.to_nat i); [|done]. by injection Hrun as _ <-.
Qed.

Lemma blocks_ok_lh_block_set (i v : Z) :
  preserves blocks_ok (lh_block_set i v).
Proof.
  intros k a k' HI Hrun. unfold lh_block_set in Hrun.
  destruct (decide _); [|done]. by injection Hrun as _ <-.
Qed.

End BlocksOk.

Create HintDb blocks discriminated.
#[export] Hint Resolve preserves_mret preserves_gets preserves_panic
  blocks_ok_set_log blocks_ok_set_dirty blocks_ok_modify_log
  blocks_ok_cprintf blocks_ok_wakeup blocks_ok_bread blocks_ok_brelse
  blocks_ok_buf_data blocks_ok_buf_poke blocks_ok_memmove blocks_ok_bwrite
  blocks_ok_lh_block_get blocks_ok_lh_block_set : blocks.

(** Goes through a routine, one statement after the other. *)
Ltac keeps :=
  repeat first
    [ progress intros
    | apply preserves_bind
    | apply preserves_for_loop
    | apply preserves_for_acc
    | apply preserves_if
    | solve [auto with blocks] ].

Section BlocksOk2.
Context {P : Params}.

Lemma blocks_ok_store_int (b word v : Z) :
  preserves blocks_ok (store_int b word v).
Proof. unfold store_int. keeps. Qed.

Lemma blocks_ok_sum_log_blocks (first : Z) :
  preserves blocks_ok (sum_log_blocks first).
Proof. unfold sum_log_blocks. keeps. Qed.

Lemma blocks_ok_write_log : preserves blocks_ok write_log.
Proof. unfold write_log. keeps. Qed.

Lemma blocks_ok_install_trans : preserves blocks_ok install_trans.
Proof. unfold install_trans. keeps. Qed.

Lemma blocks_ok_write_head : preserves blocks_ok write_head.
Proof. unfold write_head. pose proof blocks_ok_store_int. keeps. Qed.

Lemma blocks_ok_read_head : preserves blocks_ok read_head.
Proof. unfold read_head. keeps. Qed.

Lemma blocks_ok_write_checksum : preserves blocks_ok write_checksum.
Proof.
  unfold write_checksum. pose proof blocks_ok_sum_log_blocks. keeps.
Qed.

Lemma blocks_ok_check_checksum : preserves blocks_ok check_checksum.
Proof.
  unfold check_checksum. pose proof blocks_ok_sum_log_blocks. keeps.
Qed.

Lemma blocks_ok_commit : preserves blocks_ok commit.
Proof.
  unfold commit, commit_checked.
  pose proof blocks_ok_write_log. pose proof blocks_ok_write_checksum.
  pose proof blocks_ok_check_checksum. pose proof blocks_ok_write_head.
  pose proof blocks_ok_install_trans. keeps.
Qed.

Lemma blocks_ok_recover_from_log : preserves blocks_ok recover_from_log.
Proof.
  unfold recover_from_log.
  pose proof blocks_ok_sum_log_blocks. pose proof blocks_ok_write_head.
  pose proof blocks_ok_install_trans. pose proof blocks_ok_read_head. keeps.
Qed.

Lemma blocks_ok_initlog (sb : superblock) (dev : Z) :
  preserves blocks_ok (initlog sb dev).
Proof.
  unfold initlog, initlock. pose proof blocks_ok_recover_from_log. keeps.
Qed.

Lemma blocks_ok_log_write (b : Z) : preserves blocks_ok (log_write b).
Proof.
  unfold log_write, acquire, release.
  assert (∀ fuel i, preserves blocks_ok (absorb_scan fuel i b)).
  { induction fuel as [|fuel IH]; intros i; simpl; keeps. }
  keeps.
Qed.

End BlocksOk2.

(** ** The header block as bytes *)

Lemma bytes_of_word (x : Z) :
  0 ≤ x < 2 ^ 32 →
  to_uchar x + Z.shiftl (to_uchar (Z.shiftr x 8)) 8
  + Z.shiftl (to_uchar (Z.shiftr x 16)) 16
  + Z.shiftl (to_uchar (Z.shiftr x 24)) 24 = x.
Proof.
  intros Hx. unfold to_uchar.
  rewrite !Z.shiftl_mul_pow2, !Z.shiftr_div_pow2 by lia.
  change (2 ^ 32) with 4294967296 in Hx.
  change (2 ^ 8) with 256. change (2 ^ 16) with 65536.
  change (2 ^ 24) with 16777216.
  Z.div_mod_to_equations. lia.
Qed.

Lemma byte_at_insert_eq (d : list Z) (i : nat) (v : Z) :
  (i < length d)%nat → byte_at (<[i := v]> d) (Z.of_nat i) = v.
Proof.
  intros Hi. unfold byte_at. rewrite Nat2Z.id, nth_lookup.
  by rewrite list_lookup_insert_eq.
Qed.

Lemma byte_at_insert_ne (d : list Z) (i : nat) (j v : Z) :
  i ≠ Z.to_nat j → byte_at (<[i := v]> d) j = byte_at d j.
Proof.
  intros Hi. unfold byte_at. rewrite !nth_lookup.
  by rewrite list_lookup_insert_ne.
Qed.

Lemma load_int_insert_ge (d : list Z) (i : nat) (v : Z) :
  (4 ≤ i)%nat → load_int (<[i := v]> d) 0 = load_int d 0.
Proof.
  intros Hi. unfold load_int. simpl.
  rewrite !byte_at_insert_ne by lia. reflexivity.
Qed.

Lemma load_int_stored (d : list Z) (v : Z) :
  (4 ≤ length d)%nat →
  load_int
    (<[3%nat := to_uchar (Z.shiftr (to_uint v) 24)]>
       (<[2%nat := to_uchar (Z.shiftr (to_uint v) 16)]>
          (<[1%nat := to_uchar (Z.shiftr (to_uint v) 8)]>
             (<[0%nat := to_uchar (to_uint v)]> d)))) 0
  = to_int v.
Proof.
  intros Hd. unfold load_int. simpl.
  rewrite (byte_at_insert_eq _ 3) by (rewrite !length_insert; lia).
  rewrite (byte_at_insert_ne _ 3 2), (byte_at_insert_eq _ 2)
    by (rewrite ?length_insert; lia).
  rewrite (byte_at_insert_ne _ 3 1), (byte_at_insert_ne _ 2 1),
    (byte_at_insert_eq _ 1) by (rewrite ?length_insert; lia).
  rewrite (byte_at_insert_ne _ 3 0), (byte_at_insert_ne _ 2 0),
    (byte_at_insert_ne _ 1 0), (byte_at_insert_eq _ 0) by lia.
  rewrite bytes_of_word.
  - apply to_int_to_uint.
  - unfold to_uint. apply Z.mod_pos_bound. lia.
Qed.

(** ** The order of a commit *)

Section CommitOrder.
Context {P : Params}.

Lemma word0_buf_poke (b b' j v n : Z) :
  4 ≤ j →
  preserves (λ k, load_int (k_view k b) 0 = n) (buf_poke b' j v).
Proof.
  intros Hj. apply preserves_modify. intros k HI.
  destruct (decide (b = b')) as [->|Hne].
  - unfold k_view at 1. simpl. rewrite lookup_insert_eq.
    rewrite load_int_insert_ge by lia. exact HI.
  - by rewrite k_view_poke.
Qed.

Lemma word0_store_int (b b' i v n : Z) :
  0 ≤ i →
  preserves (λ k, load_int (k_view k b) 0 = n) (store_int b' (1 + i) v).
Proof.
  intros Hi. unfold store_int.
  repeat (apply preserves_bind; [apply word0_buf_poke; lia|intros _]).
  apply word0_buf_poke; lia.
Qed.

Lemma word0_lh_block_get (b i n : Z) :
  preserves (λ k, load_int (k_view k b) 0 = n) (lh_block_get i).
Proof.
  intros k a k' HI Hrun. unfold lh_block_get in Hrun.
  destruct (k_block k !! Z.to_nat i); [|done]. by injection Hrun as _ <-.
Qed.

Lemma store_int_load (b v : Z) (k k' : kernel) :
  (4 ≤ length (k_view k b))%nat →
  store_int b 0 v k = Done tt k' →
  load_int (k_view k' b) 0 = to_int v.
Proof.
  intros Hlen Hrun. injection Hrun as <-.
  unfold k_view at 1. simpl. rewrite lookup_insert_eq.
  unfold k_view at 1. simpl. rewrite lookup_insert_eq.
  unfold k_view at 1. simpl. rewrite lookup_insert_eq.
  unfold k_view at 1. simpl. rewrite lookup_insert_eq.
  by apply load_int_stored.
Qed.

(** The header [write_head] puts on the device declares the [n] of the
    in-memory header. *)
Lemma write_head_durable (k k' : kernel) :
  header_ok k → is_int (k_n k) →
  (4 ≤ length (k_view k (to_uint (k_start k + 1))))%nat →
  write_head k = Done tt k' →
  ∃ tr d, k_trace k' = k_trace k ++ tr ++ [EvWrite (to_uint (k_start k + 1)) d]
          ∧ marks tr = []
          ∧ load_int d 0 = k_n k
          ∧ k_disk k' !! to_uint (k_start k + 1) = Some d.
Proof.
  intros [Hn Hlen] Hint Hview Hrun.
  set (hdr := to_uint (k_start k + 1)) in *.
  destruct (bread_spec (k_dev k) hdr k) as (k1 & Hrd & Hro & _).
  apply only_reads_advances in Hro as Ha1.
  assert (Hl1 : k_log k1 = k_log k) by apply Ha1.
  destruct Hro as (_ & _ & _ & Hv1 & _).
  destruct (store_int_spec hdr 0 (k_n k) k1) as (k2 & Hst & Ha2).
  assert (Hl2 : k_log k2 = k_log k1) by apply Ha2.
  destruct (write_head_loop hdr (Z.to_nat (k_n k)) 0 k2)
    as (k3 & Hloop & Ha3);
    [lia|unfold k_block in *; rewrite Hl2, Hl1; lia|].
  assert (Hw2 : load_int (k_view k2 hdr) 0 = k_n k).
  { rewrite (store_int_load hdr (k_n k) k1 k2); [|by rewrite Hv1|done].
    by apply to_int_small. }
  assert (Hw3 : load_int (k_view k3 hdr) 0 = k_n k).
  { eapply (preserves_for_loop (λ k0, load_int (k_view k0 hdr) 0 = k_n k));
      [|exact Hw2|exact Hloop].
    intros j Hj. apply preserves_bind; [apply word0_lh_block_get|].
    intros v. by apply word0_store_int. }
  pose proof (advances_trans _ _ _ _ _
                (advances_trans _ _ _ _ _ Ha1 Ha2) Ha3)
    as (_ & tr & Ht & Hm).
  unfold write_head in Hrun.
  rewrite (bind_done _ _ k k (k_dev k)) in Hrun by done.
  rewrite (bind_done _ _ k k (k_start k)) in Hrun by done.
  fold hdr in Hrun.
  rewrite (bind_done _ _ _ _ _ Hrd) in Hrun.
  rewrite (bind_done _ _ k1 k1 (k_n k)) in Hrun.
  2:{ unfold gets, k_n. by rewrite Hl1. }
  rewrite (bind_done _ _ _ _ _ Hst) in Hrun.
  rewrite (bind_done _ _ _ _ _ Hloop) in Hrun.
  injection Hrun as <-.
  exists tr, (k_view k3 hdr). split_and!.
  - simpl. by rewrite Ht, app_assoc.
  - exact Hm.
  - exact Hw3.
  - simpl. apply lookup_insert_eq.
Qed.

Lemma commit_spec (k : kernel) :
  header_ok k → 0 < k_n k → LOGSIZE < 2 ^ 31 → blocks_ok k → 4 ≤ BSIZE →
  ∃ k' tr1 d1 tr2 d2,
    commit k = Done tt k'
    ∧ k_trace k' =
        k_trace k ++ tr1 ++ [EvWrite (to_uint (k_start k + 1)) d1]
        ++ tr2 ++ [EvWrite (to_uint (k_start k + 1)) d2]
    ∧ marks tr1 = verified_marks k
    ∧ load_int d1 0 = k_n k
    ∧ marks tr2 = MWrite <$> staged k
    ∧ load_int d2 0 = 0
    ∧ k_disk k' !! to_uint (k_start k + 1) = Some d2
    ∧ k_log k' =
        with_lh (with_n 0)
          (with_checksum (commit_checksum (final (write_log k))) (k_log k)).
Proof.
  intros Hok Hn Hsmall Hbk Hbs.
  pose proof Hok as [Hn' Hlen].
  destruct (write_log_spec k Hok) as (k1 & Hwl & Hl1 & tr1 & Ht1 & Hm1).
  destruct (write_checksum_spec k1)
    as (k2 & Hwc & Hl2 & (tr2 & Ht2 & Hm2) & Hv2).
  destruct (check_checksum_spec k2) as (k3 & Hcc & Hl3 & tr3 & Ht3 & Hm3).
  rewrite (checksum_verifies k1 k2), Z.eqb_refl in Hcc, Hm3; [|
    unfold k_n in *; rewrite Hl1; lia | done | done |
    unfold k_n in *; rewrite Hl1; lia | done | done ].
  assert (Hs1 : k_start k1 = k_start k) by (unfold k_start; by rewrite Hl1).
  assert (Hs3 : k_start k3 = k_start k).
  { unfold k_start in *. rewrite Hl3, Hl2. simpl. exact Hs1. }
  assert (Hn3 : k_n k3 = k_n k).
  { unfold k_n in *. rewrite Hl3, Hl2. simpl. by rewrite Hl1. }
  assert (Hok3 : header_ok k3).
  { unfold header_ok, k_n, k_block in *. rewrite Hl3, Hl2. simpl.
    by rewrite Hl1. }
  assert (Hbk3 : blocks_ok k3).
  { eapply blocks_ok_check_checksum; [|exact Hcc].
    eapply blocks_ok_write_checksum; [|exact Hwc].
    eapply blocks_ok_write_log; [|exact Hwl]. exact Hbk. }
  destruct (write_head_spec k3 Hok3) as (k4 & Hwh & Hl4 & _).
  destruct (write_head_durable k3 k4) as (tr4 & d1 & Ht4 & Hm4 & Hd1 & _);
    [done|unfold is_int; rewrite Hn3; lia|rewrite Hbk3; lia|done|].
  assert (Hok4 : header_ok k4).
  { unfold header_ok, k_n, k_block in *. by rewrite Hl4. }
  destruct (install_trans_spec k4 Hok4)
    as (k5 & Hit & Hl5 & tr5 & Ht5 & Hm5).
  assert (Hst4 : staged k4 = staged k).
  { unfold staged, k_n, k_block. rewrite Hl4, Hl3, Hl2. simpl.
    by rewrite Hl1. }
  set (k6 := set_log (with_lh (with_n 0)) k5).
  assert (Hok6 : header_ok k6).
  { unfold header_ok, k_n, k_block in *. simpl. rewrite Hl5, Hl4.
    split; [lia|]. apply Hok3. }
  assert (Hs6 : k_start k6 = k_start k).
  { unfold k_start in *. simpl. rewrite Hl5, Hl4. exact Hs3. }
  assert (Hbk6 : blocks_ok k6).
  { eapply (blocks_ok_set_log (with_lh (with_n 0)) k5 tt); [|done].
    eapply blocks_ok_install_trans; [|exact Hit].
    eapply blocks_ok_write_head; [|exact Hwh]. exact Hbk3. }
  destruct (write_head_spec k6 Hok6) as (k7 & Hwh' & Hl7 & _).
  destruct (write_head_durable k6 k7) as (tr7 & d2 & Ht7 & Hm7 & Hd2 & Hdk);
    [done|change (k_n k6) with 0; unfold is_int; lia|
     rewrite Hbk6; lia|done|].
  rewrite Hs3 in Ht4. rewrite Hs6 in Ht7, Hdk.
  exists k7, (tr1 ++ tr2 ++ tr3 ++ tr4), d1, (tr5 ++ tr7), d2.
  split_and!.
  - rewrite commit_unfold by done.
    rewrite (bind_done _ _ _ _ _ Hwl), (bind_done _ _ _ _ _ Hwc),
      (bind_done _ _ _ _ _ Hcc).
    unfold commit_checked. change (negb (1 =? 0)) with true. cbv iota.
    rewrite (bind_done _ _ _ _ _ Hwh), (bind_done _ _ _ _ _ Hit).
    rewrite (bind_done _ _ k5 k6 tt) by done.
    exact Hwh'.
  - rewrite Ht7. change (k_trace k6) with (k_trace k5).
    rewrite Ht5, Ht4, Ht3, Ht2, Ht1, <- !app_assoc. reflexivity.
  - rewrite !marks_app, Hm1, Hm2, Hm3, Hm4, Hs1, app_nil_r.
    unfold verified_marks. reflexivity.
  - by rewrite Hd1.
  - by rewrite marks_app, Hm5, Hm7, app_nil_r, Hst4.
  - exact Hd2.
  - exact Hdk.
  - rewrite Hl7. simpl. rewrite Hl5, Hl4, Hl3, Hl2, Hl1, Hwl. reflexivity.
Qed.

(** C2.  A commit of a non-empty transaction returns, and it writes the
    device in this order and in no other: the staged blocks into the data
    slots from [start + 2] on, the checksum block [start], then, after
    [check_checksum] has reported the checksum validated, the header block
    [start + 1] with the [n] of the transaction (the commit point), the
    home blocks in staging order, and the header block again with
    [n = 0].  The header is written by the part of [commit] that runs on
    the verdict of [check_checksum] only; [check_checksum] writes no
    block and returns 0 on a mismatch, and on 0 that part halts in [panic]
    before any write. *)
Theorem commit_order (k : kernel) :
  header_ok k → 0 < k_n k → LOGSIZE < 2 ^ 31 → blocks_ok k → 4 ≤ BSIZE →
  (∃ k' tr1 d1 tr2 d2,
     commit k = Done tt k'
     ∧ k_trace k' =
         k_trace k ++ tr1 ++ [EvWrite (to_uint (k_start k + 1)) d1]
         ++ tr2 ++ [EvWrite (to_uint (k_start k + 1)) d2]
     ∧ marks (tr1 ++ [EvWrite (to_uint (k_start k + 1)) d1]
              ++ tr2 ++ [EvWrite (to_uint (k_start k + 1)) d2])
       = commit_marks k
     ∧ marks tr1 = verified_marks k
     ∧ load_int d1 0 = k_n k
     ∧ marks tr2 = MWrite <$> staged k
     ∧ load_int d2 0 = 0
     ∧ k_n k' = 0)
  ∧ commit k =
      (write_log;; write_checksum;;
       check ← check_checksum; commit_checked check) k
  ∧ (∀ k0, ∃ k0' tr,
       check_checksum k0 =
         Done (if k_checksum k0 =? commit_checksum k0 then 1 else 0) k0'
       ∧ k_trace k0' = k_trace k0 ++ tr
       ∧ marks tr =
           [MPrint "check_checksum() - log checksum: %x \n";
            MPrint "check_checksum() - new checksum: %x \n";
            MPrint (if k_checksum k0 =? commit_checksum k0
                    then "check_checksum() - checksum validated prior to commit\n"
                    else "check_checksum() - ERROR: checksum invalid prior to commit\n")])
  ∧ (∀ k0, commit_checked 0 k0 = Panic "log checksum has a missmatch" k0).
Proof.
  intros Hok Hn Hsmall Hbk Hbs. split_and!.
  - destruct (commit_spec k Hok Hn Hsmall Hbk Hbs)
      as (k' & tr1 & d1 & tr2 & d2 & Hrun & Ht & Hm1 & Hd1 & Hm2 & Hd2 & _ & Hl).
    exists k', tr1, d1, tr2, d2. split_and!; [done..| |done|done|done|done|].
    + rewrite !marks_app, Hm1, Hm2. reflexivity.
    + unfold k_n. by rewrite Hl.
  - by apply commit_unfold.
  - intros k0.
    destruct (check_checksum_spec k0) as (k0' & Hcc & _ & tr & Ht & Hm).
    by exists k0', tr.
  - done.
Qed.

End CommitOrder.

(** ** The protocol on the stock layout *)

Lemma k_staged2_header_ok : @header_ok xv6 k_staged2.
Proof. by vm_compute. Qed.

(** The device writes and console messages of the commit of blocks 100 and
    101, as the model runs it. *)
Example commit_marks_example :
  marks (drop (length (k_trace k_staged2))
           (k_trace (final (@commit xv6 k_staged2))))
  = [MWrite 4; MWrite 5;
     MPrint "write_checksum() - log checksum calculated as: %x \n";
     MWrite 2;
     MPrint "disk written checksum data: %x \n";
     MPrint "check_checksum() - log checksum: %x \n";
     MPrint "check_checksum() - new checksum: %x \n";
     MPrint "check_checksum() - checksum validated prior to commit\n";
     MWrite 3; MWrite 100; MWrite 101; MWrite 3].
Proof. by vm_compute. Qed.

(** Every block of a state is [BSIZE] bytes long when every block of its
    cache and of its device is. *)
Lemma blocks_ok_intro `{P : Params} (k : kernel) :
  map_Forall (λ _ d, length d = Z.to_nat BSIZE) (k_cache k) →
  map_Forall (λ _ d, length d = Z.to_nat BSIZE) (k_disk k) →
  blocks_ok k.
Proof.
  intros Hc Hd b. unfold k_view, dread.
  destruct (k_cache k !! b) as [d|] eqn:Hcb; [by eapply Hc|].
  destruct (k_disk k !! b) as [d|] eqn:Hdb; [by eapply Hd|].
  apply length_replicate.
Qed.

Lemma k_staged2_blocks_ok : @blocks_ok xv6 k_staged2.
Proof.
  apply blocks_ok_intro.
  - refine (bool_decide_unpack _ _). by vm_compute.
  - refine (bool_decide_unpack _ _). by vm_compute.
Qed.

Lemma commit_order_witness :
  (∃ k' tr1 d1 tr2 d2,
     @commit xv6 k_staged2 = Done tt k'
     ∧ k_trace k' =
         k_trace k_staged2 ++ tr1
         ++ [EvWrite (to_uint (k_start k_staged2 + 1)) d1]
         ++ tr2 ++ [EvWrite (to_uint (k_start k_staged2 + 1)) d2]
     ∧ marks (tr1 ++ [EvWrite (to_uint (k_start k_staged2 + 1)) d1]
              ++ tr2 ++ [EvWrite (to_uint (k_start k_staged2 + 1)) d2])
       = commit_marks k_staged2
     ∧ marks tr1 = verified_marks k_staged2
     ∧ load_int d1 0 = k_n k_staged2
     ∧ marks tr2 = MWrite <$> staged k_staged2
     ∧ load_int d2 0 = 0
     ∧ k_n k' = 0)
  ∧ @commit xv6 k_staged2 =
      (@write_log xv6;; @write_checksum xv6;;
       check ← @check_checksum xv6; @commit_checked xv6 check) k_staged2
  ∧ (∀ k0, ∃ k0' tr,
       @check_checksum xv6 k0 =
         Done (if k_checksum k0 =? @commit_checksum xv6 k0 then 1 else 0) k0'
       ∧ k_trace k0' = k_trace k0 ++ tr
       ∧ marks tr =
           [MPrint "check_checksum() - log checksum: %x \n";
            MPrint "check_checksum() - new checksum: %x \n";
            MPrint (if k_checksum k0 =? @commit_checksum xv6 k0
                    then "check_checksum() - checksum validated prior to commit\n"
                    else "check_checksum() - ERROR: checksum invalid prior to commit\n")])
  ∧ (∀ k0, @commit_checked xv6 0 k0
           = Panic "log checksum has a missmatch" k0).
Proof.
  apply (@commit_order xv6 k_staged2).
  - exact k_staged2_header_ok.
  - by vm_compute.
  - by vm_compute.
  - exact k_staged2_blocks_ok.
  - by vm_compute.
Defined.

(** The same transaction committed by [end_op]: the home blocks hold the
    new data, the header on the device is empty, no operation is
    outstanding and no commit is in flight. *)
Example end_op_commits :
  byte_at (@dread xv6 (k_disk k_committed) 100) 0 = 1
  ∧ byte_at (@dread xv6 (k_disk k_committed) 101) 0 = 2
  ∧ load_int (@dread xv6 (k_disk k_committed) 3) 0 = 0
  ∧ k_n k_committed = 0
  ∧ k_outstanding k_committed = 0
  ∧ k_committing k_committed = 0
  ∧ k_locked k_committed = false.
Proof. by vm_compute. Qed.

Lemma recovery_mismatch_discards_witness :
  ∃ k1 reads,
    @recover_from_log xv6 (@boot_log xv6 (Superblock 2 30) 1 d_crashed) =
      Done tt
        (emit (EvPrint "boot log checksum mismatch, will not commit log." [])
           k1)
    ∧ k_disk k1 = k_disk (@boot_log xv6 (Superblock 2 30) 1 d_crashed)
    ∧ k_log k1 = k_log (@boot_log xv6 (Superblock 2 30) 1 d_crashed)
    ∧ k_dirty k1 = k_dirty (@boot_log xv6 (Superblock 2 30) 1 d_crashed)
    ∧ (∀ b, @k_view xv6 k1 b
            = @k_view xv6 (@boot_log xv6 (Superblock 2 30) 1 d_crashed) b)
    ∧ k_trace k1 =
        k_trace (@boot_log xv6 (Superblock 2 30) 1 d_crashed)
        ++ (EvRead <$> reads).
Proof.
  apply (@recovery_mismatch_discards xv6
           (@boot_log xv6 (Superblock 2 30) 1 d_crashed)).
  by vm_compute.
Defined.

Lemma boot_recovery_compares_with_zero_witness :
  @sum_log_blocks xv6 (1 + 1) (@boot_checked xv6 (Superblock 2 30) 1 d_crashed)
    = Done 0 (@boot_checked xv6 (Superblock 2 30) 1 d_crashed)
  ∧ @initlog xv6 (Superblock 2 30) 1 (@boot xv6 d_crashed) =
      if @load_checksum (@dread xv6 d_crashed (to_uint 2)) =? 0
      then @replay xv6 (@boot_checked xv6 (Superblock 2 30) 1 d_crashed)
      else Done tt
             (emit (EvPrint
                "boot log checksum mismatch, will not commit log." [])
                (@boot_checked xv6 (Superblock 2 30) 1 d_crashed)).
Proof.
  apply (@boot_recovery_compares_with_zero xv6 (Superblock 2 30) 1 d_crashed).
  by vm_compute.
Defined.

(** When the checksum on the device is 0, as after the commit of block 100
    alone, the recovery at boot replays: it reads the header, installs the
    logged block and empties the header on the device. *)
Example boot_recovery_replays :
  load_checksum (@dread xv6 d_crashed1 2) = 0
  ∧ load_int (@dread xv6 d_crashed1 3) 0 = 1
  ∧ byte_at (@dread xv6 d_crashed1 100) 0 = 0
  ∧ (let k := final (@initlog xv6 (Superblock 2 30) 1 (@boot xv6 d_crashed1))
     in @initlog xv6 (Superblock 2 30) 1 (@boot xv6 d_crashed1) = Done tt k
        ∧ byte_at (@dread xv6 (k_disk k) 100) 0 = 1
        ∧ load_int (@dread xv6 (k_disk k) 3) 0 = 0
        ∧ marks (k_trace k) =
            [MPrint "boot log checksum match, proceding with log commit. \n";
             MWrite 100; MWrite 3]).
Proof. by vm_compute. Qed.

(** C1 fails on the code.  The transaction of blocks 100 and 101 is
    committed: [write_checksum] stored the checksum 1, computed over blocks
    [start + 1] (the header block) and [start + 2], and the header with
    [n = 2] reached the device before power was lost.  The loop of
    [recover_from_log] over the same two-block transaction and the same log
    region runs over blocks [start + 2] and [start + 3] and yields 3.  At
    boot it runs over no block at all, because [log.lh.n] is still 0: it
    yields 0, the stored 1 does not match, and [initlog] returns without
    replaying, leaving the home blocks 100 and 101 without the committed
    data. *)
Theorem recovery_rejects_committed_transaction :
  k_checksum k_checksummed = 1
  ∧ @commit_checksum xv6 k_checksummed = 1
  ∧ @recomputed_checksum xv6 k_checksummed = 3
  ∧ @load_checksum (@dread xv6 d_crashed 2) = 1
  ∧ @load_int (@dread xv6 d_crashed 3) 0 = 2
  ∧ @load_int (@dread xv6 d_crashed 3) 1 = 100
  ∧ @load_int (@dread xv6 d_crashed 3) 2 = 101
  ∧ @stored_checksum xv6 (@boot_log xv6 (Superblock 2 30) 1 d_crashed) = 1
  ∧ @recomputed_checksum xv6 (@boot_log xv6 (Superblock 2 30) 1 d_crashed) = 0
  ∧ @initlog xv6 (Superblock 2 30) 1 (@boot xv6 d_crashed) =
      Done tt
        (emit (EvPrint "boot log checksum mismatch, will not commit log." [])
           (@boot_checked xv6 (Superblock 2 30) 1 d_crashed))
  ∧ byte_at (@dread xv6 d_crashed 4) 0 = 1
  ∧ byte_at (@dread xv6 d_crashed 5) 0 = 2
  ∧ byte_at (@dread xv6 d_crashed 100) 0 = 0
  ∧ byte_at (@dread xv6 d_crashed 101) 0 = 0.
Proof. by vm_compute. Qed.

(** * Further properties *)

(** ** Stepping through a routine with the values it reads *)

Lemma preserves_gets_bind {A B} (I : kernel → Prop) (f : kernel → A)
    (g : A → M B) :
  (∀ k0, I k0 → preserves I (g (f k0))) → preserves I (gets f ≫= g).
Proof. intros H k b k' HI Hrun. exact (H k HI k b k' HI Hrun). Qed.

Lemma preserves_lh_block_get_bind {B} (I : kernel → Prop) (i : Z)
    (g : Z → M B) :
  (∀ k0 v, I k0 → k_block k0 !! Z.to_nat i = Some v → preserves I (g v)) →
  preserves I (lh_block_get i ≫= g).
Proof.
  intros H k b k' HI Hrun. unfold mbind, M_bind, lh_block_get in Hrun.
  destruct (k_block k !! Z.to_nat i) as [v|] eqn:Hv; [|done].
  exact (H k v HI Hv k b k' HI Hrun).
Qed.

Lemma preserves_for_loop_bounded (I : kernel → Prop) (body : Z → M unit)
    (fuel : nat) (i : Z) :
  (∀ j, i ≤ j < i + Z.of_nat fuel → preserves I (body j)) →
  preserves I (for_loop fuel i body).
Proof.
  revert i. induction fuel as [|fuel IH]; intros i Hbody.
  - apply preserves_mret.
  - simpl. apply preserves_bind; [apply Hbody; lia|].
    intros _. apply IH. intros j Hj. apply Hbody. lia.
Qed.

Section Stepping.
Context {P : Params}.

Lemma preserves_bread_bind {B} (I : kernel → Prop) (dev b : Z)
    (g : Z → M B) :
  preserves I (bread dev b) → preserves I (g b) →
  preserves I (bread dev b ≫= g).
Proof.
  intros Hb Hg k r k' HI Hrun.
  destruct (bread_spec dev b k) as (k1 & Hrd & _).
  rewrite (bind_done _ _ _ _ _ Hrd) in Hrun.
  eapply Hg; [|exact Hrun]. eapply Hb; eauto.
Qed.

(** ** Routines that write inside a set of blocks only *)

Lemma same_outside_refl (S : Z → Prop) (k : kernel) : same_outside S k k.
Proof. by intros b _. Qed.

Lemma same_outside_trans (S : Z → Prop) (k1 k2 k3 : kernel) :
  same_outside S k1 k2 → same_outside S k2 k3 → same_outside S k1 k3.
Proof.
  intros H12 H23 b Hb. destruct (H12 b Hb) as [E1 E2].
  destruct (H23 b Hb) as [E3 E4]. split; congruence.
Qed.

Lemma same_outside_weaken (S S' : Z → Prop) (k k' : kernel) :
  (∀ b, S b → S' b) → same_outside S k k' → same_outside S' k k'.
Proof. intros HS H b Hb. apply H. intros Hs. apply Hb, HS, Hs. Qed.

Lemma kept_bread (s : Z) (h : logheader) (S : Z → Prop) (k0 : kernel)
    (dev b : Z) :
  preserves (kept s h S k0) (bread dev b).
Proof.
  intros k a k' (Hs & Hh & Hout) Hrun.
  destruct (bread_spec dev b k) as (k1 & Hrd & (Hl & Hd & _ & Hv & _) & _).
  rewrite Hrun in Hrd. injection Hrd as _ <-.
  unfold kept, k_start. rewrite Hl. split_and!; [done..|].
  intros b' Hb'. rewrite Hv, Hd. by apply Hout.
Qed.

Lemma kept_set_log (s : Z) (h : logheader) (S : Z → Prop) (k0 : kernel)
    (f : log → log) :
  (∀ l, log_start (f l) = log_start l ∧ log_lh (f l) = log_lh l) →
  preserves (kept s h S k0) (modify (set_log f)).
Proof.
  intros Hf. apply preserves_modify. intros k (Hs & Hh & Hout).
  destruct (Hf (k_log k)) as [Hf1 Hf2].
  unfold kept, k_start. simpl. rewrite Hf1, Hf2. done.
Qed.

Lemma kept_cprintf (s : Z) (h : logheader) (S : Z → Prop) (k0 : kernel)
    (fmt : string) (args : list Z) :
  preserves (kept s h S k0) (cprintf fmt args).
Proof. by apply preserves_modify. Qed.

Lemma kept_buf_poke (s : Z) (h : logheader) (S : Z → Prop) (k0 : kernel)
    (b j v : Z) :
  S b → preserves (kept s h S k0) (buf_poke b j v).
Proof.
  intros Hb. apply preserves_modify. intros k (Hs & Hh & Hout).
  split_and!; [done..|]. intros b' Hb'.
  rewrite k_view_poke by (intros ->; done). by apply Hout.
Qed.

Lemma kept_memmove (s : Z) (h : logheader) (S : Z → Prop) (k0 : kernel)
    (dst src : Z) :
  S dst → preserves (kept s h S k0) (memmove dst src).
Proof.
  intros Hb. apply preserves_modify. intros k (Hs & Hh & Hout).
  split_and!; [done..|]. intros b' Hb'.
  destruct (Hout b' Hb') as [<- <-]. split; [|done].
  unfold k_view. simpl. rewrite lookup_insert_ne by (intros ->; done). done.
Qed.

Lemma kept_bwrite (s : Z) (h : logheader) (S : Z → Prop) (k0 : kernel)
    (b : Z) :
  S b → preserves (kept s h S k0) (bwrite b).
Proof.
  intros Hb. apply preserves_modify. intros k (Hs & Hh & Hout).
  split_and!; [done..|]. intros b' Hb'.
  rewrite k_view_bwrite. destruct (Hout b' Hb') as [<- <-]. split; [done|].
  simpl. rewrite lookup_insert_ne by (intros ->; done). done.
Qed.

Lemma kept_store_int (s : Z) (h : logheader) (S : Z → Prop) (k0 : kernel)
    (b word v : Z) :
  S b → preserves (kept s h S k0) (store_int b word v).
Proof.
  intros Hb. unfold store_int.
  repeat (apply preserves_bind; [by apply kept_buf_poke|intros _]).
  by apply kept_buf_poke.
Qed.

Lemma kept_sum_log_blocks (s : Z) (h : logheader) (S : Z → Prop)
    (k0 : kernel) (first : Z) :
  preserves (kept s h S k0) (sum_log_blocks first).
Proof.
  unfold sum_log_blocks, buf_data, brelse.
  apply preserves_bind; [apply preserves_gets|intros n].
  apply preserves_for_acc. intros j c.
  repeat (apply preserves_bind; [apply preserves_gets|intros ?]).
  apply preserves_bind; [apply kept_bread|intros ?].
  apply preserves_bind; [apply preserves_gets|intros ?].
  apply preserves_bind; apply preserves_mret || (intros; apply preserves_mret).
Qed.

Lemma kept_write_log (s : Z) (h : logheader) (S : Z → Prop) (k0 : kernel) :
  (∀ j, 0 ≤ j < lh_n h → S (to_uint (s + j + 1 + 1))) →
  preserves (kept s h S k0) write_log.
Proof.
  intros HS. unfold write_log.
  apply preserves_gets_bind. intros k1 (_ & Hh1 & _).
  apply preserves_for_loop_bounded. intros j Hj.
  apply preserves_gets_bind. intros k2 _.
  apply preserves_gets_bind. intros k3 (Hs3 & _).
  apply preserves_bread_bind; [apply kept_bread|].
  apply preserves_lh_block_get_bind. intros k4 v _ _.
  apply preserves_bread_bind; [apply kept_bread|].
  assert (Hin : S (to_uint (k_start k3 + j + 1 + 1))).
  { rewrite Hs3. apply HS. unfold k_n in Hj. rewrite Hh1 in Hj. lia. }
  apply preserves_bind; [by apply kept_memmove|intros _].
  apply preserves_bind; [by apply kept_bwrite|intros _].
  apply preserves_bind; intros; apply preserves_mret.
Qed.

Lemma kept_install_trans (s : Z) (h : logheader) (S : Z → Prop)
    (k0 : kernel) :
  (∀ v, v ∈ take (Z.to_nat (lh_n h)) (lh_block h) → S (to_uint v)) →
  preserves (kept s h S k0) install_trans.
Proof.
  intros HS. unfold install_trans.
  apply preserves_gets_bind. intros k1 (_ & Hh1 & _).
  apply preserves_for_loop_bounded. intros j Hj.
  apply preserves_gets_bind. intros k2 _.
  apply preserves_gets_bind. intros k3 _.
  apply preserves_bread_bind; [apply kept_bread|].
  apply preserves_lh_block_get_bind. intros k4 v (_ & Hh4 & _) Hv.
  apply preserves_bread_bind; [apply kept_bread|].
  assert (Hin : S (to_uint v)).
  { apply HS. unfold k_n in Hj. rewrite Hh1 in Hj.
    unfold k_block in Hv. rewrite Hh4 in Hv.
    apply elem_of_take. exists (Z.to_nat j). split; [done|lia]. }
  apply preserves_bind; [by apply kept_memmove|intros _].
  apply preserves_bind; [by apply kept_bwrite|intros _].
  apply preserves_bind; intros; apply preserves_mret.
Qed.

Lemma kept_write_head (s : Z) (h : logheader) (S : Z → Prop) (k0 : kernel) :
  S (to_uint (s + 1)) → preserves (kept s h S k0) write_head.
Proof.
  intros HS. unfold write_head.
  apply preserves_gets_bind. intros k1 _.
  apply preserves_gets_bind. intros k2 (Hs2 & _). rewrite Hs2.
  apply preserves_bread_bind; [apply kept_bread|].
  apply preserves_gets_bind. intros k3 _.
  apply preserves_bind; [by apply kept_store_int|intros _].
  apply preserves_bind.
  { apply preserves_for_loop. intros j _.
    apply preserves_lh_block_get_bind. intros k4 v _ _.
    by apply kept_store_int. }
  intros _. apply preserves_bind; [by apply kept_bwrite|intros _].
  apply preserves_mret.
Qed.

Lemma kept_write_checksum (s : Z) (h : logheader) (S : Z → Prop)
    (k0 : kernel) :
  S (to_uint s) → preserves (kept s h S k0) write_checksum.
Proof.
  intros HS. unfold write_checksum.
  apply preserves_bind; [apply kept_sum_log_blocks|intros c].
  apply preserves_bind; [by apply kept_set_log|intros _].
  apply preserves_gets_bind. intros k1 _.
  apply preserves_bind; [apply kept_cprintf|intros _].
  apply preserves_gets_bind. intros k2 _.
  apply preserves_gets_bind. intros k3 (Hs3 & _). rewrite Hs3.
  apply preserves_bread_bind; [apply kept_bread|].
  repeat (apply preserves_bind; [by apply kept_buf_poke|intros _]).
  apply preserves_bind; [by apply kept_bwrite|intros _].
  apply preserves_bind; [apply preserves_mret|intros _].
  apply preserves_bread_bind; [apply kept_bread|].
  apply preserves_bind; [apply preserves_gets|intros d].
  apply preserves_bind; [apply preserves_mret|intros _].
  apply kept_cprintf.
Qed.

Lemma kept_check_checksum (s : Z) (h : logheader) (S : Z → Prop)
    (k0 : kernel) :
  preserves (kept s h S k0) check_checksum.
Proof.
  unfold check_checksum.
  apply preserves_bind; [apply kept_sum_log_blocks|intros c].
  apply preserves_gets_bind. intros k1 _.
  apply preserves_bind; [apply kept_cprintf|intros _].
  apply preserves_bind; [apply kept_cprintf|intros _].
  apply preserves_if.
  - apply preserves_bind; [apply kept_cprintf|intros _]. apply preserves_mret.
  - apply preserves_bind; [apply kept_cprintf|intros _]. apply preserves_mret.
Qed.

End Stepping.

(** ** What a commit moves, and where *)

Lemma bind_inv {A B} (m : M A) (f : A → M B) (k k' : kernel) (b : B) :
  (m ≫= f) k = Done b k' → ∃ a k1, m k = Done a k1 ∧ f a k1 = Done b k'.
Proof.
  unfold mbind, M_bind. destruct (m k) as [a k1| | |]; try done.
  intros H. by exists a, k1.
Qed.

Section Copies.
Context {P : Params}.

Lemma slot_ne (k : kernel) (j j' : Z) :
  j ≠ j' → -2 ^ 32 < j - j' < 2 ^ 32 → slot k j ≠ slot k j'.
Proof.
  intros Hne Hd. unfold slot.
  destruct (decide (j' < j)).
  - replace (k_start k + j + 1 + 1) with (k_start k + j' + 1 + 1 + (j - j'))
      by lia.
    apply to_uint_add_ne. lia.
  - replace (k_start k + j' + 1 + 1) with (k_start k + j + 1 + 1 + (j' - j))
      by lia.
    intros Heq. symmetry in Heq. revert Heq. apply to_uint_add_ne. lia.
Qed.

(** The end of a round of either copy loop: [memmove], [bwrite] and the two
    [brelse]. *)
Lemma copy_tail (x y a b : Z) (k : kernel) :
  blocks_ok k →
  ∃ k', (memmove x y;; bwrite x;; brelse a;; brelse b) k = Done tt k'
        ∧ k_log k' = k_log k
        ∧ k_view k' x = k_view k y
        ∧ k_disk k' !! x = Some (k_view k y)
        ∧ same_outside (λ c, c = x) k k'.
Proof.
  intros Hb.
  assert (Hcopy : take (Z.to_nat BSIZE) (k_view k y)
                  ++ drop (Z.to_nat BSIZE) (k_view k x) = k_view k y).
  { rewrite take_ge, drop_ge by (rewrite Hb; lia). apply app_nil_r. }
  eexists. split; [reflexivity|].
  assert (Hx : ∀ e, k_view (emit e (set_cache
              (<[x := take (Z.to_nat BSIZE) (k_view k y)
                      ++ drop (Z.to_nat BSIZE) (k_view k x)]>) k)) x
               = k_view k y).
  { intros e. unfold k_view at 1. simpl. by rewrite lookup_insert_eq. }
  split_and!.
  - done.
  - rewrite k_view_bwrite. unfold k_view at 1. simpl.
    by rewrite lookup_insert_eq.
  - simpl. rewrite lookup_insert_eq. f_equal.
    unfold k_view at 1. simpl. by rewrite lookup_insert_eq.
  - intros c Hc. split.
    + rewrite k_view_bwrite. unfold k_view. simpl.
      by rewrite lookup_insert_ne by (intros ->; done).
    + simpl. by rewrite lookup_insert_ne by (intros ->; done).
Qed.

Lemma blocks_ok_same_outside (x y : Z) (k k' : kernel) :
  blocks_ok k → k_view k' x = k_view k y → same_outside (λ c, c = x) k k' →
  blocks_ok k'.
Proof.
  intros Hb Hx Hout c. destruct (decide (c = x)) as [->|Hne].
  - rewrite Hx. apply Hb.
  - destruct (Hout c Hne) as [-> _]. apply Hb.
Qed.

(** One round of the loop of [write_log], with the data. *)
Lemma write_log_body_data (tail v : Z) (k : kernel) :
  k_block k !! Z.to_nat tail = Some v → blocks_ok k →
  ∃ k', (dev ← gets k_dev;
         start ← gets k_start;
         to ← bread dev (to_uint (start + tail + 1 + 1));
         home ← lh_block_get tail;
         from ← bread dev (to_uint home);
         memmove to from;;
         bwrite to;;
         brelse from;;
         brelse to) k = Done tt k'
        ∧ k_log k' = k_log k
        ∧ k_view k' (slot k tail) = k_view k (to_uint v)
        ∧ k_disk k' !! slot k tail = Some (k_view k (to_uint v))
        ∧ same_outside (λ c, c = slot k tail) k k'.
Proof.
  intros Hv Hb.
  destruct (bread_spec (k_dev k) (slot k tail) k)
    as (k1 & Hrd1 & (Hl1 & Hd1 & _ & Hv1 & _) & _).
  destruct (bread_spec (k_dev k) (to_uint v) k1)
    as (k2 & Hrd2 & (Hl2 & Hd2 & _ & Hv2 & _) & _).
  assert (Hb2 : blocks_ok k2) by (intros c; by rewrite Hv2, Hv1).
  destruct (copy_tail (slot k tail) (to_uint v) (to_uint v) (slot k tail) k2 Hb2)
    as (k3 & Hrun & Hl3 & Hx & Hdx & Hout).
  exists k3. split_and!.
  - rewrite (bind_done _ _ k k (k_dev k)) by done.
    rewrite (bind_done _ _ k k (k_start k)) by done.
    fold (slot k tail). rewrite (bind_done _ _ _ _ _ Hrd1).
    rewrite (bind_done _ _ k1 k1 v).
    2:{ unfold lh_block_get, k_block in *. by rewrite Hl1, Hv. }
    rewrite (bind_done _ _ _ _ _ Hrd2). exact Hrun.
  - by rewrite Hl3, Hl2.
  - by rewrite Hx, Hv2, Hv1.
  - by rewrite Hdx, Hv2, Hv1.
  - intros c Hc. destruct (Hout c Hc) as [-> ->].
    by rewrite Hv2, Hv1, Hd2, Hd1.
Qed.

Lemma write_log_loop_data (fuel : nat) (i : Z) (k : kernel) :
  0 ≤ i → (Z.to_nat i + fuel ≤ length (k_block k))%nat →
  i + Z.of_nat fuel < 2 ^ 32 → blocks_ok k →
  (∀ j j' v, i ≤ j < i + Z.of_nat fuel → i ≤ j' < i + Z.of_nat fuel →
             k_block k !! Z.to_nat j = Some v → to_uint v ≠ slot k j') →
  ∃ k', for_loop fuel i (λ tail,
          dev ← gets k_dev;
          start ← gets k_start;
          to ← bread dev (to_uint (start + tail + 1 + 1));
          home ← lh_block_get tail;
          from ← bread dev (to_uint home);
          memmove to from;;
          bwrite to;;
          brelse from;;
          brelse to) k = Done tt k'
        ∧ k_log k' = k_log k
        ∧ blocks_ok k'
        ∧ (∀ j v, i ≤ j < i + Z.of_nat fuel →
                  k_block k !! Z.to_nat j = Some v →
                  k_view k' (slot k j) = k_view k (to_uint v)
                  ∧ k_disk k' !! slot k j = Some (k_view k (to_uint v)))
        ∧ same_outside (λ c, ∃ j, i ≤ j < i + Z.of_nat fuel ∧ c = slot k j)
            k k'.
Proof.
  revert i k. induction fuel as [|fuel IH]; intros i k Hi Hlen Hsmall Hb Hdis.
  - exists k. split_and!; [done..|intros; lia|apply same_outside_refl].
  - destruct (lookup_lt_is_Some_2 (k_block k) (Z.to_nat i)) as [v Hv]; [lia|].
    destruct (write_log_body_data i v k Hv Hb)
      as (k1 & Hbody & Hl1 & Hx1 & Hd1 & Hout1).
    assert (Hb1 : blocks_ok k1) by (by eapply blocks_ok_same_outside).
    assert (Hbl : k_block k1 = k_block k) by (unfold k_block; by rewrite Hl1).
    assert (Hsl : ∀ j, slot k1 j = slot k j)
      by (intros j; unfold slot, k_start; by rewrite Hl1).
    destruct (IH (i + 1) k1) as (k2 & Hrun & Hl2 & Hb2 & Hdata & Hout2);
      [lia|rewrite Hbl; lia|lia|done| |].
    { intros j j' w Hj Hj'. rewrite Hbl, Hsl. intros Hw.
      apply (Hdis j j' w); [lia|lia|done]. }
    exists k2. split_and!.
    + simpl for_loop. rewrite (bind_done _ _ _ _ _ Hbody). exact Hrun.
    + by rewrite Hl2.
    + done.
    + intros j w Hj Hw. destruct (decide (j = i)) as [->|Hne].
      * assert (w = v) as -> by congruence.
        destruct (Hout2 (slot k i)) as [-> ->]; [|done].
        intros (j' & Hj' & Heq). rewrite Hsl in Heq. revert Heq.
        apply slot_ne; lia.
      * destruct (Hdata j w) as [E1 E2]; [lia|by rewrite Hbl|].
        rewrite Hsl in E1, E2. rewrite E1, E2.
        destruct (Hout1 (to_uint w)) as [-> _]; [|done].
        apply (Hdis j i w); [lia|lia|done].
    + intros c Hc. destruct (Hout2 c) as [-> ->].
      * intros (j & Hj & ->). apply Hc. exists j. rewrite <- Hsl.
        split; [lia|done].
      * apply Hout1. intros ->. apply Hc. exists i. split; [lia|done].
Qed.

(** One round of the loop of [install_trans], with the data. *)
Lemma install_trans_body_data (tail v : Z) (k : kernel) :
  k_block k !! Z.to_nat tail = Some v → blocks_ok k →
  ∃ k', (dev ← gets k_dev;
         start ← gets k_start;
         lbuf ← bread dev (to_uint (start + tail + 1 + 1));
         home ← lh_block_get tail;
         dbuf ← bread dev (to_uint home);
         memmove dbuf lbuf;;
         bwrite dbuf;;
         brelse lbuf;;
         brelse dbuf) k = Done tt k'
        ∧ k_log k' = k_log k
        ∧ k_view k' (to_uint v) = k_view k (slot k tail)
        ∧ k_disk k' !! to_uint v = Some (k_view k (slot k tail))
        ∧ same_outside (λ c, c = to_uint v) k k'.
Proof.
  intros Hv Hb.
  destruct (bread_spec (k_dev k) (slot k tail) k)
    as (k1 & Hrd1 & (Hl1 & Hd1 & _ & Hv1 & _) & _).
  destruct (bread_spec (k_dev k) (to_uint v) k1)
    as (k2 & Hrd2 & (Hl2 & Hd2 & _ & Hv2 & _) & _).
  assert (Hb2 : blocks_ok k2) by (intros c; by rewrite Hv2, Hv1).
  destruct (copy_tail (to_uint v) (slot k tail) (slot k tail) (to_uint v) k2 Hb2)
    as (k3 & Hrun & Hl3 & Hx & Hdx & Hout).
  exists k3. split_and!.
  - rewrite (bind_done _ _ k k (k_dev k)) by done.
    rewrite (bind_done _ _ k k (k_start k)) by done.
    fold (slot k tail). rewrite (bind_done _ _ _ _ _ Hrd1).
    rewrite (bind_done _ _ k1 k1 v).
    2:{ unfold lh_block_get, k_block in *. by rewrite Hl1, Hv. }
    rewrite (bind_done _ _ _ _ _ Hrd2). exact Hrun.
  - by rewrite Hl3, Hl2.
  - by rewrite Hx, Hv2, Hv1.
  - by rewrite Hdx, Hv2, Hv1.
  - intros c Hc. destruct (Hout c Hc) as [-> ->].
    by rewrite Hv2, Hv1, Hd2, Hd1.
Qed.

Lemma install_trans_loop_data (fuel : nat) (i : Z) (k : kernel) :
  0 ≤ i → (Z.to_nat i + fuel ≤ length (k_block k))%nat → blocks_ok k →
  (∀ j j' v v', i ≤ j < i + Z.of_nat fuel → i ≤ j' < i + Z.of_nat fuel →
                j ≠ j' → k_block k !! Z.to_nat j = Some v →
                k_block k !! Z.to_nat j' = Some v' → to_uint v ≠ to_uint v') →
  (∀ j j' v, i ≤ j < i + Z.of_nat fuel → i ≤ j' < i + Z.of_nat fuel →
             k_block k !! Z.to_nat j = Some v → to_uint v ≠ slot k j') →
  ∃ k', for_loop fuel i (λ tail,
          dev ← gets k_dev;
          start ← gets k_start;
          lbuf ← bread dev (to_uint (start + tail + 1 + 1));
          home ← lh_block_get tail;
          dbuf ← bread dev (to_uint home);
          memmove dbuf lbuf;;
          bwrite dbuf;;
          brelse lbuf;;
          brelse dbuf) k = Done tt k'
        ∧ k_log k' = k_log k
        ∧ blocks_ok k'
        ∧ (∀ j v, i ≤ j < i + Z.of_nat fuel →
                  k_block k !! Z.to_nat j = Some v →
                  k_view k' (to_uint v) = k_view k (slot k j)
                  ∧ k_disk k' !! to_uint v = Some (k_view k (slot k j)))
        ∧ same_outside
            (λ c, ∃ j v, i ≤ j < i + Z.of_nat fuel
                         ∧ k_block k !! Z.to_nat j = Some v ∧ c = to_uint v)
            k k'.
Proof.
  revert i k.
  induction fuel as [|fuel IH]; intros i k Hi Hlen Hb Hnd Hdis.
  - exists k. split_and!; [done..|intros; lia|apply same_outside_refl].
  - destruct (lookup_lt_is_Some_2 (k_block k) (Z.to_nat i)) as [v Hv]; [lia|].
    destruct (install_trans_body_data i v k Hv Hb)
      as (k1 & Hbody & Hl1 & Hx1 & Hd1 & Hout1).
    assert (Hb1 : blocks_ok k1) by (by eapply blocks_ok_same_outside).
    assert (Hbl : k_block k1 = k_block k) by (unfold k_block; by rewrite Hl1).
    assert (Hsl : ∀ j, slot k1 j = slot k j)
      by (intros j; unfold slot, k_start; by rewrite Hl1).
    destruct (IH (i + 1) k1) as (k2 & Hrun & Hl2 & Hb2 & Hdata & Hout2);
      [lia|rewrite Hbl; lia|done| | |].
    { intros j j' w w' Hj Hj' Hne. rewrite Hbl. intros Hw Hw'.
      apply (Hnd j j' w w'); [lia|lia|done..]. }
    { intros j j' w Hj Hj'. rewrite Hbl, Hsl. intros Hw.
      apply (Hdis j j' w); [lia|lia|done]. }
    exists k2. split_and!.
    + simpl for_loop. rewrite (bind_done _ _ _ _ _ Hbody). exact Hrun.
    + by rewrite Hl2.
    + done.
    + intros j w Hj Hw. destruct (decide (j = i)) as [->|Hne].
      * assert (w = v) as -> by congruence.
        destruct (Hout2 (to_uint v)) as [-> ->]; [|done].
        intros (j' & w' & Hj' & Hw' & Heq). rewrite Hbl in Hw'.
        revert Heq. apply (Hnd i j' v w'); [lia|lia|lia|done..].
      * destruct (Hdata j w) as [E1 E2]; [lia|by rewrite Hbl|].
        rewrite Hsl in E1, E2. rewrite E1, E2.
        destruct (Hout1 (slot k j)) as [-> _]; [|done].
        intros Heq. symmetry in Heq. revert Heq.
        apply (Hdis i j v); [lia|lia|done].
    + intros c Hc. destruct (Hout2 c) as [-> ->].
      * intros (j & w & Hj & Hw & ->). apply Hc. exists j, w.
        rewrite <- Hbl. split_and!; done || lia.
      * apply Hout1. intros ->. apply Hc. exists i, v. split_and!; done || lia.
Qed.

(** The staged list, entry by entry. *)
Lemma staged_lookup (k : kernel) (j : nat) (h : Z) :
  staged k !! j = Some h ↔
  ∃ v, k_block k !! j = Some v ∧ (j < Z.to_nat (k_n k))%nat ∧ h = to_uint v.
Proof.
  unfold staged. rewrite list_lookup_fmap. split.
  - intros H. apply fmap_Some in H as (v & Hv & ->).
    apply lookup_take_Some in Hv as [Hv Hj]. by exists v.
  - intros (v & Hv & Hj & ->). by rewrite lookup_take_lt, Hv.
Qed.

End Copies.

Section CommitData.
Context {P : Params}.

Lemma in_log_slot (k : kernel) (j : Z) :
  0 ≤ j < k_n k → in_log k (slot k j).
Proof.
  intros Hj. exists (j + 2). split; [lia|]. unfold slot. f_equal. lia.
Qed.

Lemma in_log_header (k : kernel) : 0 ≤ k_n k → in_log k (header_block k).
Proof. intros Hn. exists 1. split; [lia|done]. Qed.

Lemma in_log_checksum (k : kernel) : 0 ≤ k_n k → in_log k (checksum_block k).
Proof.
  intros Hn. exists 0. split; [lia|]. unfold checksum_block. f_equal. lia.
Qed.

Lemma slot_ne_checksum (k : kernel) (j : Z) :
  0 ≤ j < 2 ^ 31 → slot k j ≠ checksum_block k.
Proof.
  intros Hj. unfold slot, checksum_block.
  replace (k_start k + j + 1 + 1) with (k_start k + (j + 2)) by lia.
  apply to_uint_add_ne. zpow. change (2 ^ 32) with 4294967296. lia.
Qed.

Lemma slot_ne_header (k : kernel) (j : Z) :
  0 ≤ j < 2 ^ 31 → slot k j ≠ header_block k.
Proof.
  intros Hj. unfold slot, header_block.
  replace (k_start k + j + 1 + 1) with (k_start k + 1 + (j + 1)) by lia.
  apply to_uint_add_ne. zpow. change (2 ^ 32) with 4294967296. lia.
Qed.

Lemma kept_weaken (s : Z) (h : logheader) (S S' : Z → Prop) (k0 k : kernel) :
  (∀ b, S b → S' b) → kept s h S k0 k → kept s h S' k0 k.
Proof.
  intros HS (Hs & Hh & Hout). split_and!; [done..|].
  by eapply same_outside_weaken.
Qed.

Lemma kept_refl (S : Z → Prop) (k : kernel) :
  kept (k_start k) (log_lh (k_log k)) S k k.
Proof. split_and!; [done..|apply same_outside_refl]. Qed.

(** [write_log] on a well-formed header. *)
Lemma write_log_data (k : kernel) :
  header_ok k → LOGSIZE < 2 ^ 31 → blocks_ok k →
  (∀ h j, h ∈ staged k → 0 ≤ j < k_n k → h ≠ slot k j) →
  ∃ k', write_log k = Done tt k'
        ∧ k_log k' = k_log k
        ∧ blocks_ok k'
        ∧ (∀ j h, staged k !! j = Some h →
                  k_disk k' !! slot k (Z.of_nat j) = Some (k_view k h)
                  ∧ k_view k' (slot k (Z.of_nat j)) = k_view k h)
        ∧ same_outside (λ c, ∃ j, 0 ≤ j < k_n k ∧ c = slot k j) k k'.
Proof.
  intros [Hn Hlen] Hsmall Hb Hdis. unfold write_log.
  rewrite (bind_done _ _ k k (k_n k)) by done.
  destruct (write_log_loop_data (Z.to_nat (k_n k)) 0 k)
    as (k' & Hrun & Hl & Hb' & Hdata & Hout); [lia|lia| |done| |].
  { zpow. change (2 ^ 32) with 4294967296. lia. }
  { intros j j' v Hj Hj' Hv. apply Hdis; [|lia].
    apply list_elem_of_lookup. exists (Z.to_nat j).
    apply staged_lookup. exists v. split_and!; [done|lia|done]. }
  exists k'. split_and!; [done..| |].
  - intros j h Hh. apply staged_lookup in Hh as (v & Hv & Hj & ->).
    destruct (Hdata (Z.of_nat j) v) as [E1 E2];
      [lia|by rewrite Nat2Z.id|done].
  - eapply same_outside_weaken; [|exact Hout].
    intros c (j & Hj & ->). exists j. split; [lia|done].
Qed.

(** [install_trans] on a well-formed header. *)
Lemma install_trans_data (k : kernel) :
  header_ok k → blocks_ok k → NoDup (staged k) →
  (∀ h j, h ∈ staged k → 0 ≤ j < k_n k → h ≠ slot k j) →
  ∃ k', install_trans k = Done tt k'
        ∧ k_log k' = k_log k
        ∧ blocks_ok k'
        ∧ (∀ j h, staged k !! j = Some h →
                  k_disk k' !! h = Some (k_view k (slot k (Z.of_nat j)))
                  ∧ k_view k' h = k_view k (slot k (Z.of_nat j)))
        ∧ same_outside (λ c, c ∈ staged k) k k'.
Proof.
  intros [Hn Hlen] Hb Hnd Hdis. unfold install_trans.
  rewrite (bind_done _ _ k k (k_n k)) by done.
  assert (Hst : ∀ j v, 0 ≤ j < 0 + Z.of_nat (Z.to_nat (k_n k)) →
                       k_block k !! Z.to_nat j = Some v →
                       staged k !! Z.to_nat j = Some (to_uint v)).
  { intros j v Hj Hv. apply staged_lookup. exists v.
    split_and!; [done|lia|done]. }
  destruct (install_trans_loop_data (Z.to_nat (k_n k)) 0 k)
    as (k' & Hrun & Hl & Hb' & Hdata & Hout); [lia|lia|done| | |].
  { intros j j' v v' Hj Hj' Hne Hv Hv' Heq.
    apply Hst in Hv, Hv'; [|done..]. rewrite Heq in Hv.
    pose proof (NoDup_lookup _ _ _ _ Hnd Hv Hv'). lia. }
  { intros j j' v Hj Hj' Hv. apply Hdis; [|lia].
    apply list_elem_of_lookup. exists (Z.to_nat j). by apply Hst. }
  exists k'. split_and!; [done..| |].
  - intros j h Hh. apply staged_lookup in Hh as (v & Hv & Hj & ->).
    destruct (Hdata (Z.of_nat j) v) as [E1 E2];
      [lia|by rewrite Nat2Z.id|done].
  - eapply same_outside_weaken; [|exact Hout].
    intros c (j & v & Hj & Hv & ->).
    apply list_elem_of_lookup. exists (Z.to_nat j). by apply Hst.
Qed.

(** The data a commit puts in the home blocks. *)
Lemma commit_data (k k' : kernel) :
  header_ok k → 0 < k_n k → LOGSIZE < 2 ^ 31 → blocks_ok k →
  NoDup (staged k) → (∀ h, h ∈ staged k → ¬ in_log k h) →
  commit k = Done tt k' →
  ∀ h, h ∈ staged k →
       k_disk k' !! h = Some (k_view k h) ∧ k_view k' h = k_view k h.
Proof.
  intros Hok Hn Hsmall Hbk Hnd Hhome Hrun.
  pose proof Hok as [Hn' Hlen].
  assert (Hdis : ∀ h j, h ∈ staged k → 0 ≤ j < k_n k → h ≠ slot k j).
  { intros h j Hh Hj ->. by apply (Hhome _ Hh), in_log_slot. }
  destruct (write_log_data k Hok Hsmall Hbk Hdis)
    as (k1 & Hwl & Hl1 & Hbk1 & Hdata1 & Hout1).
  rewrite commit_unfold in Hrun by done.
  rewrite (bind_done _ _ _ _ _ Hwl) in Hrun.
  apply bind_inv in Hrun as ([] & k2 & Hwc & Hrun).
  apply bind_inv in Hrun as (c & k3 & Hcc & Hrun).
  unfold commit_checked in Hrun. destruct (negb (c =? 0)); [|done].
  apply bind_inv in Hrun as ([] & k4 & Hwh & Hrun).
  apply bind_inv in Hrun as ([] & k5 & Hit & Hrun).
  apply bind_inv in Hrun as ([] & k6 & Hmod & Hwh2).
  injection Hmod as <-.
  set (s := k_start k). set (h0 := log_lh (k_log k)).
  set (S := λ c, c = checksum_block k ∨ c = header_block k).
  assert (K1 : kept s h0 S k1 k1).
  { split_and!; [unfold s, k_start; by rewrite Hl1|unfold h0; by rewrite Hl1|].
    apply same_outside_refl. }
  assert (K2 : kept s h0 S k1 k2).
  { eapply kept_write_checksum; [|exact K1|exact Hwc]. by left. }
  assert (K3 : kept s h0 S k1 k3).
  { eapply kept_check_checksum; [exact K2|exact Hcc]. }
  assert (K4 : kept s h0 S k1 k4).
  { eapply kept_write_head; [|exact K3|exact Hwh]. by right. }
  destruct K4 as (Hs4 & Hh4 & Hout4).
  assert (Hl4 : k_n k4 = k_n k ∧ k_block k4 = k_block k).
  { unfold k_n, k_block. by rewrite Hh4. }
  destruct Hl4 as [Hn4 Hbl4].
  assert (Hst4 : staged k4 = staged k) by (unfold staged; by rewrite Hn4, Hbl4).
  assert (Hsl4 : ∀ j, slot k4 j = slot k j) by (intros j; unfold slot; by rewrite Hs4).
  assert (Hbk4 : blocks_ok k4).
  { eapply blocks_ok_write_head; [|exact Hwh].
    eapply blocks_ok_check_checksum; [|exact Hcc].
    eapply blocks_ok_write_checksum; [|exact Hwc]. exact Hbk1. }
  destruct (install_trans_data k4)
    as (k5' & Hit' & Hl5 & Hbk5 & Hdata5 & Hout5).
  { split; [by rewrite Hn4|by rewrite Hbl4]. }
  { done. }
  { by rewrite Hst4. }
  { intros h j. rewrite Hst4, Hn4, Hsl4. apply Hdis. }
  rewrite Hit in Hit'. injection Hit' as <-.
  set (k6 := set_log (with_lh (with_n 0)) k5) in *.
  assert (K6 : kept s (with_n 0 h0) (λ c, c = header_block k) k6 k').
  { eapply kept_write_head; [| |exact Hwh2]; [done|].
    split_and!; [|simpl; by rewrite Hl5, Hh4|apply same_outside_refl].
    unfold k_start. simpl. rewrite Hl5. exact Hs4. }
  destruct K6 as (_ & _ & Hout6).
  intros h Hh.
  assert (Hne : h ≠ header_block k).
  { intros ->. apply (Hhome _ Hh), in_log_header. lia. }
  destruct (Hout6 h Hne) as [-> ->].
  change (k_view k6 h) with (k_view k5 h).
  change (k_disk k6) with (k_disk k5).
  pose proof Hh as Hh'.
  apply list_elem_of_lookup in Hh' as (j & Hj).
  assert (Hjn : (j < Z.to_nat (k_n k))%nat).
  { apply staged_lookup in Hj as (_ & _ & Hlt & _). done. }
  destruct (Hdata5 j h) as [-> ->]; [by rewrite Hst4|].
  rewrite Hsl4.
  destruct (Hout4 (slot k (Z.of_nat j))) as [-> _].
  { unfold S. intros [Heq|Heq]; revert Heq.
    - apply slot_ne_checksum. zpow. lia.
    - apply slot_ne_header. zpow. lia. }
  by destruct (Hdata1 j h Hj) as [_ ->].
Qed.

(** X1.  [write_log] copies the staged blocks into the data slots: when no
    staged block number is that of a slot, it returns, and slot [j] then
    holds, in its buffer and on the device, the data the buffer of the
    [j]-th staged block held; nothing but the slots has changed, and the
    in-memory log is as it was. *)
Theorem write_log_fills_slots (k : kernel) :
  header_ok k → LOGSIZE < 2 ^ 31 → blocks_ok k →
  (∀ h j, h ∈ staged k → 0 ≤ j < k_n k → h ≠ slot k j) →
  ∃ k', write_log k = Done tt k'
        ∧ k_log k' = k_log k
        ∧ (∀ j h, staged k !! j = Some h →
                  k_disk k' !! slot k (Z.of_nat j) = Some (k_view k h)
                  ∧ k_view k' (slot k (Z.of_nat j)) = k_view k h)
        ∧ (∀ b, (∀ j, 0 ≤ j < k_n k → b ≠ slot k j) →
                k_view k' b = k_view k b ∧ k_disk k' !! b = k_disk k !! b).
Proof.
  intros Hok Hsmall Hb Hdis.
  destruct (write_log_data k Hok Hsmall Hb Hdis)
    as (k' & Hrun & Hl & _ & Hdata & Hout).
  exists k'. split_and!; [done..|].
  intros b Hb'. apply Hout. intros (j & Hj & ->). by apply (Hb' j).
Qed.

(** X2.  [install_trans] copies the data slots to the home blocks: when the
    staged block numbers are distinct and none is that of a slot, it
    returns, and the [j]-th staged block then holds, on the device and in
    its buffer, the data slot [j] held; no other block has changed, and the
    in-memory log is as it was. *)
Theorem install_trans_installs (k : kernel) :
  header_ok k → blocks_ok k → NoDup (staged k) →
  (∀ h j, h ∈ staged k → 0 ≤ j < k_n k → h ≠ slot k j) →
  ∃ k', install_trans k = Done tt k'
        ∧ k_log k' = k_log k
        ∧ (∀ j h, staged k !! j = Some h →
                  k_disk k' !! h = Some (k_view k (slot k (Z.of_nat j)))
                  ∧ k_view k' h = k_view k (slot k (Z.of_nat j)))
        ∧ (∀ b, b ∉ staged k →
                k_view k' b = k_view k b ∧ k_disk k' !! b = k_disk k !! b).
Proof.
  intros Hok Hb Hnd Hdis.
  destruct (install_trans_data k Hok Hb Hnd Hdis)
    as (k' & Hrun & Hl & _ & Hdata & Hout).
  by exists k'.
Qed.

(** X3.  Write-ahead: up to the commit point, a commit writes the log
    region only.  When [write_log], [write_checksum] and [check_checksum]
    have run, every block other than the checksum block and the [n] data
    slots is, on the device and in its buffer, as it was: the home blocks
    still hold the old data, and the header block on the device still
    declares the previous transaction. *)
Theorem flush_stays_in_log (k k' : kernel) (check : Z) :
  (write_log;; write_checksum;; check_checksum) k = Done check k' →
  (∀ b, b ≠ checksum_block k → (∀ j, 0 ≤ j < k_n k → b ≠ slot k j) →
        k_disk k' !! b = k_disk k !! b ∧ k_view k' b = k_view k b)
  ∧ (k_n k < 2 ^ 31 →
     on_device k' (header_block k) = on_device k (header_block k)).
Proof.
  intros Hrun.
  set (S := λ b, b = checksum_block k ∨ ∃ j, 0 ≤ j < k_n k ∧ b = slot k j).
  assert (K : kept (k_start k) (log_lh (k_log k)) S k k').
  { assert (Hp : preserves (kept (k_start k) (log_lh (k_log k)) S k)
                    (write_log;; write_checksum;; check_checksum)).
    { apply preserves_bind; [|intros _; apply preserves_bind].
      - apply kept_write_log. intros j Hj. right. by exists j.
      - apply kept_write_checksum. by left.
      - intros _. apply kept_check_checksum. }
    exact (Hp k check k' (kept_refl S k) Hrun). }
  destruct K as (_ & _ & Hout).
  assert (Hfr : ∀ b, b ≠ checksum_block k →
                     (∀ j, 0 ≤ j < k_n k → b ≠ slot k j) →
                     k_disk k' !! b = k_disk k !! b ∧ k_view k' b = k_view k b).
  { intros b Hb1 Hb2. destruct (Hout b) as [E1 E2]; [|done].
    intros [->|(j & Hj & ->)]; [done|]. by apply (Hb2 j). }
  split; [exact Hfr|].
  intros Hn. unfold on_device, dread.
  destruct (Hfr (header_block k)) as [-> _]; [| |done].
  - unfold header_block, checksum_block. apply to_uint_add_ne.
    change (2 ^ 32) with 4294967296. lia.
  - intros j Hj Heq. symmetry in Heq. revert Heq. apply slot_ne_header. lia.
Qed.

(** X4.  What a commit makes durable.  When the staged block numbers are
    distinct and lie outside the log region, [commit] returns, and every
    staged block then holds on the device the data its buffer held when
    [commit] was called; the buffer still holds that data. *)
Theorem commit_installs (k : kernel) :
  header_ok k → 0 < k_n k → LOGSIZE < 2 ^ 31 → blocks_ok k → 4 ≤ BSIZE →
  NoDup (staged k) → (∀ h, h ∈ staged k → ¬ in_log k h) →
  ∃ k', commit k = Done tt k'
        ∧ ∀ h, h ∈ staged k →
               k_disk k' !! h = Some (k_view k h) ∧ k_view k' h = k_view k h.
Proof.
  intros Hok Hn Hsmall Hbk Hbs Hnd Hhome.
  destruct (commit_spec k Hok Hn Hsmall Hbk Hbs) as (k' & _ & _ & _ & _ & Hrun & _).
  exists k'. split; [done|]. by apply commit_data.
Qed.

(** X5.  What a commit leaves alone.  Whenever [commit] returns, a block
    that is neither staged nor in the log region (checksum block, header
    block, data slots [0] to [n - 1]) is, on the device and in its buffer,
    as it was. *)
Theorem commit_frame (k k' : kernel) :
  commit k = Done tt k' →
  ∀ b, b ∉ staged k → ¬ in_log k b →
       k_disk k' !! b = k_disk k !! b ∧ k_view k' b = k_view k b.
Proof.
  intros Hrun.
  destruct (decide (0 < k_n k)) as [Hn|Hn].
  2:{ unfold commit in Hrun.
      rewrite (bind_done _ _ k k (k_n k)) in Hrun by done.
      destruct (k_n k >? 0) eqn:Hg; zbool; [lia|].
      injection Hrun as <-. done. }
  rewrite commit_unfold in Hrun by done.
  set (S := λ c, c ∈ staged k ∨ in_log k c).
  set (s := k_start k). set (h0 := log_lh (k_log k)).
  assert (Hchk : S (to_uint s)).
  { right. apply (in_log_checksum k). lia. }
  assert (Hhdr : S (to_uint (s + 1))).
  { right. apply (in_log_header k). lia. }
  apply bind_inv in Hrun as ([] & k1 & Hwl & Hrun).
  apply bind_inv in Hrun as ([] & k2 & Hwc & Hrun).
  apply bind_inv in Hrun as (c & k3 & Hcc & Hrun).
  unfold commit_checked in Hrun. destruct (negb (c =? 0)); [|done].
  apply bind_inv in Hrun as ([] & k4 & Hwh & Hrun).
  apply bind_inv in Hrun as ([] & k5 & Hit & Hrun).
  apply bind_inv in Hrun as ([] & k6 & Hmod & Hwh2).
  injection Hmod as <-.
  assert (K5 : kept s h0 S k k5).
  { eapply kept_install_trans; [| |exact Hit].
    { intros v Hv. left. unfold staged. fold h0.
      change (k_n k) with (lh_n h0). change (k_block k) with (lh_block h0).
      by apply list_elem_of_fmap_2. }
    eapply kept_write_head; [done| |exact Hwh].
    eapply kept_check_checksum; [|exact Hcc].
    eapply kept_write_checksum; [done| |exact Hwc].
    eapply kept_write_log; [| |exact Hwl]; [|apply kept_refl].
    intros j Hj. right. apply (in_log_slot k). done. }
  assert (K6 : kept s (with_n 0 h0) S k k').
  { eapply kept_write_head; [done| |exact Hwh2].
    destruct K5 as (Hs5 & Hh5 & Hout5).
    split_and!; [done|simpl; by rewrite Hh5|done]. }
  destruct K6 as (_ & _ & Hout).
  intros b Hb1 Hb2. destruct (Hout b) as [E1 E2]; [|done].
  by intros [?|?].
Qed.

End CommitData.

(** ** The header block, written and read back *)

Lemma byte_at_poke_eq (d : list Z) (j v : Z) :
  0 ≤ j → (Z.to_nat j < length d)%nat →
  byte_at (<[Z.to_nat j := v]> d) j = v.
Proof.
  intros Hj Hlen. unfold byte_at. rewrite nth_lookup.
  by rewrite list_lookup_insert_eq.
Qed.

Lemma load_int_insert_other (d : list Z) (i : nat) (v w : Z) :
  0 ≤ w → (Z.of_nat i < 4 * w ∨ 4 * w + 3 < Z.of_nat i) →
  load_int (<[i := v]> d) w = load_int d w.
Proof.
  intros Hw Hi. unfold load_int.
  rewrite !byte_at_insert_ne by lia. reflexivity.
Qed.

Lemma load_int_stored_word (d : list Z) (w v : Z) :
  0 ≤ w → (Z.to_nat (4 * w + 4) ≤ length d)%nat →
  load_int
    (<[Z.to_nat (4 * w + 3) := to_uchar (Z.shiftr (to_uint v) 24)]>
       (<[Z.to_nat (4 * w + 2) := to_uchar (Z.shiftr (to_uint v) 16)]>
          (<[Z.to_nat (4 * w + 1) := to_uchar (Z.shiftr (to_uint v) 8)]>
             (<[Z.to_nat (4 * w) := to_uchar (to_uint v)]> d)))) w
  = to_int v.
Proof.
  intros Hw Hd. unfold load_int.
  rewrite (byte_at_poke_eq _ (4 * w + 3)) by (rewrite ?length_insert; lia).
  rewrite (byte_at_insert_ne _ _ (4 * w + 2)) by lia.
  rewrite (byte_at_poke_eq _ (4 * w + 2)) by (rewrite ?length_insert; lia).
  rewrite !(byte_at_insert_ne _ _ (4 * w + 1)) by lia.
  rewrite (byte_at_poke_eq _ (4 * w + 1)) by (rewrite ?length_insert; lia).
  rewrite !(byte_at_insert_ne _ _ (4 * w)) by lia.
  rewrite (byte_at_poke_eq _ (4 * w)) by lia.
  rewrite bytes_of_word.
  - apply to_int_to_uint.
  - unfold to_uint. apply Z.mod_pos_bound. lia.
Qed.

Section HeaderWords.
Context {P : Params}.

Lemma word_buf_poke (b b' j v w x : Z) :
  0 ≤ w → 0 ≤ j → (j < 4 * w ∨ 4 * w + 3 < j) →
  preserves (λ k, load_int (k_view k b) w = x) (buf_poke b' j v).
Proof.
  intros Hw Hj0 Hj. apply preserves_modify. intros k HI.
  destruct (decide (b = b')) as [->|Hne].
  - unfold k_view at 1. simpl. rewrite lookup_insert_eq.
    rewrite load_int_insert_other by lia. exact HI.
  - by rewrite k_view_poke.
Qed.

Lemma word_store_int (b b' w w' v x : Z) :
  0 ≤ w → 0 ≤ w' → w ≠ w' →
  preserves (λ k, load_int (k_view k b) w = x) (store_int b' w' v).
Proof.
  intros Hw Hw' Hne. unfold store_int.
  repeat (apply preserves_bind; [apply word_buf_poke; lia|intros _]).
  apply word_buf_poke; lia.
Qed.

Lemma store_int_load_word (b w v : Z) (k k' : kernel) :
  0 ≤ w → (Z.to_nat (4 * w + 4) ≤ length (k_view k b))%nat →
  store_int b w v k = Done tt k' →
  load_int (k_view k' b) w = to_int v.
Proof.
  intros Hw Hlen Hrun. injection Hrun as <-.
  unfold k_view at 1. simpl. rewrite lookup_insert_eq.
  unfold k_view at 1. simpl. rewrite lookup_insert_eq.
  unfold k_view at 1. simpl. rewrite lookup_insert_eq.
  unfold k_view at 1. simpl. rewrite lookup_insert_eq.
  by apply load_int_stored_word.
Qed.

Lemma store_int_log (b w v : Z) (k k' : kernel) :
  store_int b w v k = Done tt k' → k_log k' = k_log k.
Proof.
  intros Hrun. destruct (store_int_spec b w v k) as (k1 & Hst & Hl & _).
  rewrite Hrun in Hst. by injection Hst as ->.
Qed.

(** The words the loop of [write_head] leaves in the buffer. *)
Lemma write_head_loop_words (buf : Z) (fuel : nat) (i : Z) (k k' : kernel) :
  0 ≤ i → blocks_ok k → 4 * (1 + i + Z.of_nat fuel) ≤ BSIZE →
  for_loop fuel i (λ i, v ← lh_block_get i; store_int buf (1 + i) v) k
    = Done tt k' →
  ∀ j v, i ≤ j < i + Z.of_nat fuel → k_block k !! Z.to_nat j = Some v →
         load_int (k_view k' buf) (1 + j) = to_int v.
Proof.
  revert i k. induction fuel as [|fuel IH]; intros i k Hi Hb Hfit Hrun j v Hj Hv;
    [lia|].
  simpl for_loop in Hrun.
  apply bind_inv in Hrun as ([] & k1 & Hbody & Hrest).
  apply bind_inv in Hbody as (v0 & k0 & Hget & Hst).
  unfold lh_block_get in Hget.
  destruct (k_block k !! Z.to_nat i) as [vi|] eqn:Hvi; [|done].
  injection Hget as <- <-.
  assert (Hl1 : k_log k1 = k_log k) by (by eapply store_int_log).
  assert (Hb1 : blocks_ok k1) by (by eapply blocks_ok_store_int).
  destruct (decide (j = i)) as [->|Hne].
  - assert (v = vi) as -> by congruence.
    eapply (preserves_for_loop_bounded
              (λ k0, load_int (k_view k0 buf) (1 + i) = to_int vi));
      [|eapply store_int_load_word; [| |exact Hst]|exact Hrest].
    + intros j' Hj'. apply preserves_lh_block_get_bind. intros k2 v2 _ _.
      apply word_store_int; lia.
    + lia.
    + rewrite Hb. lia.
  - apply (IH (i + 1) k1); [lia|done|lia|done|lia|].
    unfold k_block in *. by rewrite Hl1.
Qed.

(** The header block [write_head] leaves on the device. *)
Lemma write_head_words (k k' : kernel) :
  header_ok k → blocks_ok k → 4 * (LOGSIZE + 1) ≤ BSIZE →
  write_head k = Done tt k' →
  ∃ d, k_disk k' !! header_block k = Some d
       ∧ k_view k' (header_block k) = d
       ∧ load_int d 0 = to_int (k_n k)
       ∧ ∀ j v, 0 ≤ j < k_n k → k_block k !! Z.to_nat j = Some v →
                load_int d (1 + j) = to_int v.
Proof.
  intros [Hn Hlen] Hb Hfit Hrun.
  set (hdr := header_block k).
  unfold write_head in Hrun.
  rewrite (bind_done _ _ k k (k_dev k)) in Hrun by done.
  rewrite (bind_done _ _ k k (k_start k)) in Hrun by done.
  fold (header_block k) in Hrun. fold hdr in Hrun.
  apply bind_inv in Hrun as (buf & k1 & Hrd & Hrun).
  destruct (bread_spec (k_dev k) hdr k) as (k1' & Hrd' & Hro & _).
  rewrite Hrd in Hrd'. injection Hrd' as -> <-.
  destruct Hro as (Hl1 & _ & _ & Hv1 & _).
  assert (Hb1 : blocks_ok k1) by (intros c; by rewrite Hv1).
  rewrite (bind_done _ _ k1 k1 (k_n k)) in Hrun.
  2:{ unfold gets, k_n. by rewrite Hl1. }
  apply bind_inv in Hrun as ([] & k2 & Hst & Hrun).
  apply bind_inv in Hrun as ([] & k3 & Hloop & Hrun).
  apply bind_inv in Hrun as ([] & k4 & Hbw & Hrun).
  injection Hrun as <-.
  assert (Hl2 : k_log k2 = k_log k1) by (by eapply store_int_log).
  assert (Hb2 : blocks_ok k2) by (by eapply blocks_ok_store_int).
  assert (Hw0 : load_int (k_view k3 hdr) 0 = to_int (k_n k)).
  { eapply (preserves_for_loop (λ k0, load_int (k_view k0 hdr) 0 = to_int (k_n k)));
      [| |exact Hloop].
    - intros j Hj. apply preserves_lh_block_get_bind. intros k5 v5 _ _.
      apply word_store_int; lia.
    - eapply store_int_load_word; [lia| |exact Hst]. rewrite Hb1. lia. }
  injection Hbw as <-.
  exists (k_view k3 hdr). split_and!.
  - simpl. apply lookup_insert_eq.
  - apply k_view_bwrite.
  - exact Hw0.
  - intros j v Hj Hv.
    eapply (write_head_loop_words hdr _ 0 k2 k3); [lia|done| |exact Hloop| |].
    + lia.
    + lia.
    + unfold k_block in *. by rewrite Hl2, Hl1.
Qed.

(** The loop of [read_head] inside the array. *)
Lemma read_head_loop_done (lh : list Z) (fuel : nat) (i : Z) (k : kernel) :
  0 ≤ i → (Z.to_nat i + fuel ≤ length (k_block k))%nat →
  ∃ k', for_loop fuel i (λ i, lh_block_set i (load_int lh (1 + i))) k
          = Done tt k'
        ∧ k_log k' = with_lh (with_block (λ _, k_block k')) (k_log k)
        ∧ k_cache k' = k_cache k ∧ k_dirty k' = k_dirty k
        ∧ k_disk k' = k_disk k ∧ k_trace k' = k_trace k
        ∧ length (k_block k') = length (k_block k)
        ∧ (∀ j, i ≤ j < i + Z.of_nat fuel →
                k_block k' !! Z.to_nat j = Some (load_int lh (1 + j)))
        ∧ (∀ m, (m < Z.to_nat i)%nat → k_block k' !! m = k_block k !! m).
Proof.
  revert i k. induction fuel as [|fuel IH]; intros i k Hi Hlen.
  - exists k. split_and!; try done; [|intros; lia].
    unfold k_block. by destruct k as [[? ? ? ? ? ? ? []] ? ? ? ?].
  - simpl for_loop.
    set (k1 := set_log (with_lh (with_block
                 (<[Z.to_nat i := load_int lh (1 + i)]>))) k).
    assert (Hset : lh_block_set i (load_int lh (1 + i)) k = Done tt k1).
    { unfold lh_block_set. rewrite decide_True by lia. done. }
    assert (Hbl1 : k_block k1 = <[Z.to_nat i := load_int lh (1 + i)]> (k_block k))
      by done.
    destruct (IH (i + 1) k1) as (k2 & Hrun & Hl & Hc & Hy & Hd & Ht & Hlen2 & Hin & Hlow);
      [lia|rewrite Hbl1, length_insert; lia|].
    exists k2. rewrite (bind_done _ _ _ _ _ Hset).
    split_and!; try done.
    + by rewrite Hlen2, Hbl1, length_insert.
    + intros j Hj. destruct (decide (j = i)) as [->|Hne].
      * rewrite Hlow by lia. rewrite Hbl1. apply list_lookup_insert_eq. lia.
      * apply Hin. lia.
    + intros m Hm. rewrite Hlow by lia. rewrite Hbl1.
      apply list_lookup_insert_ne. lia.
Qed.

(** The loop of [read_head] past the end of the array. *)
Lemma read_head_loop_fault (lh : list Z) (fuel : nat) (i : Z) (k : kernel) :
  0 ≤ i → (Z.to_nat i ≤ length (k_block k))%nat →
  (length (k_block k) < Z.to_nat i + fuel)%nat →
  ∃ k', for_loop fuel i (λ i, lh_block_set i (load_int lh (1 + i))) k
          = Fault k'.
Proof.
  revert i k. induction fuel as [|fuel IH]; intros i k Hi Hle Hlen; [lia|].
  simpl for_loop. unfold mbind, M_bind, lh_block_set at 1.
  destruct (decide (Z.to_nat i < length (k_block k))%nat) as [Hlt|Hge].
  - apply IH; [lia| |].
    all: change (k_block (set_log _ k))
           with (<[Z.to_nat i := load_int lh (1 + i)]> (k_block k)).
    all: rewrite length_insert; lia.
  - by exists k.
Qed.

Lemma read_head_done (k : kernel) :
  let d := k_view k (header_block k) in
  load_int d 0 ≤ Z.of_nat (length (k_block k)) →
  ∃ k', read_head k = Done tt k'
        ∧ k_n k' = load_int d 0
        ∧ (∀ j, 0 ≤ j < load_int d 0 →
                k_block k' !! Z.to_nat j = Some (load_int d (1 + j)))
        ∧ length (k_block k') = length (k_block k)
        ∧ log_fields k' = log_fields k
        ∧ k_locked k' = k_locked k
        ∧ k_disk k' = k_disk k
        ∧ (∀ b, k_view k' b = k_view k b).
Proof.
  intros d Hn.
  destruct (bread_spec (k_dev k) (header_block k) k)
    as (k1 & Hrd & (Hl1 & Hd1 & _ & Hv1 & _) & _).
  set (k2 := set_log (with_lh (with_n (load_int d 0))) k1).
  destruct (read_head_loop_done d (Z.to_nat (load_int d 0)) 0 k2)
    as (k3 & Hrun & Hl3 & Hc3 & _ & Hd3 & _ & Hlen3 & Hin & _); [lia| |].
  { change (k_block k2) with (k_block k1). unfold k_block in *.
    rewrite Hl1. lia. }
  exists k3. split_and!.
  - unfold read_head.
    rewrite (bind_done _ _ k k (k_dev k)) by done.
    rewrite (bind_done _ _ k k (k_start k)) by done.
    fold (header_block k). rewrite (bind_done _ _ _ _ _ Hrd).
    rewrite (bind_done _ _ k1 k1 d).
    2:{ unfold buf_data, gets. by rewrite Hv1. }
    rewrite (bind_done _ _ k1 k2 tt) by done.
    rewrite (bind_done _ _ k2 k2 (load_int d 0)) by done.
    rewrite (bind_done _ _ _ _ _ Hrun). done.
  - unfold k_n. rewrite Hl3. done.
  - intros j Hj. apply Hin. lia.
  - rewrite Hlen3. change (k_block k2) with (k_block k1).
    unfold k_block. by rewrite Hl1.
  - unfold log_fields, k_start, k_size, k_dev, k_outstanding, k_committing,
      k_checksum. rewrite Hl3. simpl. by rewrite Hl1.
  - unfold k_locked. rewrite Hl3. simpl. by rewrite Hl1.
  - by rewrite Hd3.
  - intros b. rewrite <- Hv1. unfold k_view. by rewrite Hc3, Hd3.
Qed.

Lemma read_head_fault (k : kernel) :
  Z.of_nat (length (k_block k)) < load_int (k_view k (header_block k)) 0 →
  ∃ k', read_head k = Fault k'.
Proof.
  intros Hn. set (d := k_view k (header_block k)) in *.
  destruct (bread_spec (k_dev k) (header_block k) k)
    as (k1 & Hrd & (Hl1 & Hd1 & _ & Hv1 & _) & _).
  set (k2 := set_log (with_lh (with_n (load_int d 0))) k1).
  destruct (read_head_loop_fault d (Z.to_nat (load_int d 0)) 0 k2)
    as (k3 & Hrun); [lia|lia| |].
  { change (k_block k2) with (k_block k1). unfold k_block in *.
    rewrite Hl1. lia. }
  exists k3. unfold read_head.
  rewrite (bind_done _ _ k k (k_dev k)) by done.
  rewrite (bind_done _ _ k k (k_start k)) by done.
  fold (header_block k). rewrite (bind_done _ _ _ _ _ Hrd).
  rewrite (bind_done _ _ k1 k1 d).
  2:{ unfold buf_data, gets. by rewrite Hv1. }
  rewrite (bind_done _ _ k1 k2 tt) by done.
  rewrite (bind_done _ _ k2 k2 (load_int d 0)) by done.
  unfold mbind, M_bind. by rewrite Hrun.
Qed.

Lemma decode_blocks_lookup (d : list Z) (n : Z) (l : list Z) :
  0 ≤ n → (Z.to_nat n ≤ length l)%nat →
  (∀ j, 0 ≤ j < n → l !! Z.to_nat j = Some (load_int d (1 + j))) →
  take (Z.to_nat n) l = decode_blocks d n.
Proof.
  intros Hn Hlen Hl. apply list_eq. intros m. unfold decode_blocks.
  rewrite list_lookup_fmap.
  destruct (decide (m < Z.to_nat n)%nat) as [Hlt|Hge].
  - rewrite lookup_take_lt by done.
    rewrite (lookup_seqZ_lt 0 n m) by lia. simpl.
    specialize (Hl (Z.of_nat m)). rewrite Nat2Z.id in Hl.
    rewrite Hl by lia. do 2 f_equal.
  - rewrite lookup_take_ge by lia. rewrite lookup_seqZ_ge by lia. done.
Qed.

(** X6.  [read_head] trusts the [n] of the header block.  With [n] up to
    [LOGSIZE] it returns, the in-memory header then declares that [n] and
    its first [n] entries are the words of the block; the rest of
    [struct log], the buffers and the device are as they were.  With [n]
    above [LOGSIZE] it does not return: its loop writes past the end of
    [log.lh.block]. *)
Theorem read_head_bounds (k : kernel) :
  length (k_block k) = Z.to_nat LOGSIZE → 0 ≤ LOGSIZE →
  let d := k_view k (header_block k) in
  (load_int d 0 ≤ LOGSIZE →
   ∃ k', read_head k = Done tt k'
         ∧ k_n k' = load_int d 0
         ∧ take (Z.to_nat (load_int d 0)) (k_block k')
           = decode_blocks d (load_int d 0)
         ∧ length (k_block k') = Z.to_nat LOGSIZE
         ∧ log_fields k' = log_fields k
         ∧ k_disk k' = k_disk k
         ∧ ∀ b, k_view k' b = k_view k b)
  ∧ (LOGSIZE < load_int d 0 → ∃ k', read_head k = Fault k').
Proof.
  intros Hlen Hsize d. split.
  - intros Hn.
    destruct (read_head_done k)
      as (k' & Hrun & Hn' & Hin & Hlen' & Hf & _ & Hd & Hv); [fold d; lia|].
    fold d in Hn', Hin.
    exists k'. split_and!; try done; [|by rewrite Hlen', Hlen].
    destruct (decide (0 ≤ load_int d 0)) as [Hpos|Hneg].
    + apply decode_blocks_lookup; [done|lia|done].
    + unfold decode_blocks.
      replace (Z.to_nat (load_int d 0)) with 0%nat by lia.
      rewrite seqZ_nil by lia. done.
  - intros Hn. apply read_head_fault. fold d. lia.
Qed.

(** X7.  The header survives the device.  [write_head] returns, and any
    kernel with the log at the same place that then sees the header block
    as the device holds it (after a reboot, say) gets from [read_head] the
    [n] and the staged block numbers that were written. *)
Theorem header_round_trip (k : kernel) :
  header_ok k → blocks_ok k → 4 * (LOGSIZE + 1) ≤ BSIZE → LOGSIZE < 2 ^ 31 →
  ∃ k1, write_head k = Done tt k1
        ∧ ∀ k2, k_start k2 = k_start k →
                length (k_block k2) = Z.to_nat LOGSIZE →
                k_view k2 (header_block k) = on_device k1 (header_block k) →
                ∃ k3, read_head k2 = Done tt k3
                      ∧ k_n k3 = k_n k
                      ∧ staged k3 = staged k.
Proof.
  intros Hok Hb Hfit Hsmall. pose proof Hok as [Hn Hlen].
  destruct (write_head_spec k Hok) as (k1 & Hrun & _).
  exists k1. split; [done|]. intros k2 Hs2 Hlen2 Hview.
  destruct (write_head_words k k1 Hok Hb Hfit Hrun)
    as (d & Hd & _ & Hw0 & Hwords).
  assert (Hd2 : k_view k2 (header_block k2) = d).
  { unfold header_block in *. rewrite Hs2, Hview.
    unfold on_device, dread. by rewrite Hd. }
  rewrite to_int_small in Hw0 by (unfold is_int; zpow; lia).
  destruct (read_head_done k2)
    as (k3 & Hrun3 & Hn3 & Hin & Hlen3 & _); [rewrite Hd2, Hw0; lia|].
  rewrite Hd2 in Hn3, Hin. rewrite Hw0 in Hn3, Hin.
  exists k3. split_and!; [done..|].
  unfold staged. rewrite Hn3. apply list_eq. intros m.
  rewrite !list_lookup_fmap.
  destruct (decide (m < Z.to_nat (k_n k))%nat) as [Hlt|Hge].
  - rewrite !lookup_take_lt by done.
    destruct (lookup_lt_is_Some_2 (k_block k) m) as [v Hv]; [lia|].
    specialize (Hin (Z.of_nat m)). rewrite Nat2Z.id in Hin.
    rewrite Hin by lia. rewrite Hv. simpl. f_equal.
    rewrite (Hwords (Z.of_nat m) v); [apply to_uint_to_int|lia|].
    by rewrite Nat2Z.id.
  - by rewrite !lookup_take_ge by lia.
Qed.

End HeaderWords.

(** ** The checksum *)

Lemma sum_bytes_range (fuel : nat) (j : Z) (d : list Z) (c : Z) :
  0 ≤ c < 2 ^ 32 → 0 ≤ sum_bytes fuel j d c < 2 ^ 32.
Proof.
  revert j c. induction fuel as [|fuel IH]; intros j c Hc; [done|].
  simpl. apply IH. unfold to_uint at 1. apply Z.mod_pos_bound. lia.
Qed.

Lemma sum_bytes_weighted (fuel : nat) (j : Z) (d : list Z) (c : Z) :
  to_uint (sum_bytes fuel j d c) = to_uint (c + weighted_sum fuel j d).
Proof.
  revert j c. induction fuel as [|fuel IH]; intros j c.
  - simpl. f_equal. lia.
  - simpl. rewrite IH, to_uint_to_int.
    generalize ((j + 1) * byte_at d j). intros p.
    generalize (weighted_sum fuel (j + 1) d). intros w.
    unfold to_uint. change (2 ^ 32) with 4294967296.
    Z.div_mod_to_equations. lia.
Qed.

Lemma load_checksum_stored (d : list Z) (c : Z) :
  (4 ≤ length d)%nat → 0 ≤ c < 2 ^ 32 →
  load_checksum
    (<[3%nat := to_uchar (Z.shiftr c 24)]>
       (<[2%nat := to_uchar (Z.shiftr c 16)]>
          (<[1%nat := to_uchar (Z.shiftr c 8)]>
             (<[0%nat := to_uchar c]> d))))
  = c.
Proof.
  intros Hd Hc. unfold load_checksum.
  rewrite (byte_at_insert_eq _ 3) by (rewrite !length_insert; lia).
  rewrite (byte_at_insert_ne _ 3 2), (byte_at_insert_eq _ 2)
    by (rewrite ?length_insert; lia).
  rewrite (byte_at_insert_ne _ 3 1), (byte_at_insert_ne _ 2 1),
    (byte_at_insert_eq _ 1) by (rewrite ?length_insert; lia).
  rewrite (byte_at_insert_ne _ 3 0), (byte_at_insert_ne _ 2 0),
    (byte_at_insert_ne _ 1 0), (byte_at_insert_eq _ 0) by lia.
  rewrite bytes_of_word by done.
  rewrite to_uint_to_int. by apply to_uint_small.
Qed.

Section Checksum.
Context {P : Params}.

Lemma sum_blocks_range (view : Z → list Z) (fuel : nat) (i s first c : Z) :
  0 ≤ c < 2 ^ 32 → 0 ≤ sum_blocks view fuel i s first c < 2 ^ 32.
Proof.
  revert i c. induction fuel as [|fuel IH]; intros i c Hc; [done|].
  simpl. apply IH. by apply sum_bytes_range.
Qed.

Lemma commit_checksum_range (k : kernel) :
  0 < BSIZE → 0 ≤ commit_checksum k < BSIZE ∧ commit_checksum k < 2 ^ 32.
Proof.
  intros Hb. unfold commit_checksum.
  pose proof (sum_blocks_range (k_view k) (Z.to_nat (k_n k)) 0 (k_start k) 1 0)
    as Hr.
  assert (H0 : 0 ≤ 0 < 2 ^ 32) by (zpow; change (2 ^ 32) with 4294967296; lia).
  specialize (Hr H0). revert Hr. generalize (sum_blocks (k_view k)
    (Z.to_nat (k_n k)) 0 (k_start k) 1 0). intros x Hx.
  pose proof (Z.mod_pos_bound x BSIZE Hb).
  pose proof (Z.mod_le x BSIZE). lia.
Qed.

Lemma buf_poke_exact (b j v : Z) (k : kernel) :
  ∃ k', buf_poke b j v k = Done tt k'
        ∧ k_log k' = k_log k
        ∧ k_disk k' = k_disk k
        ∧ k_view k' b = <[Z.to_nat j := v]> (k_view k b).
Proof.
  eexists. split_and!; [reflexivity|done|done|].
  unfold k_view at 1. simpl. by rewrite lookup_insert_eq.
Qed.

(** [write_checksum], with the bytes it stores. *)
Lemma write_checksum_data (k : kernel) :
  blocks_ok k → 4 ≤ BSIZE →
  ∃ k', write_checksum k = Done tt k'
        ∧ k_log k' = with_checksum (commit_checksum k) (k_log k)
        ∧ load_checksum (on_device k' (checksum_block k)) = commit_checksum k
        ∧ load_checksum (k_view k' (checksum_block k)) = commit_checksum k.
Proof.
  intros Hbk Hbs.
  destruct (sum_log_blocks_spec 1 k) as (k1 & Hsum & Hro1).
  destruct Hro1 as (Hl1 & _ & _ & Hv1 & _).
  set (c := commit_checksum k).
  set (a := checksum_block k).
  pose (k2 := emit (EvPrint
                "write_checksum() - log checksum calculated as: %x \n" [c])
               (set_log (with_checksum c) k1)).
  assert (Hl2 : k_log k2 = with_checksum c (k_log k)).
  { simpl. by rewrite Hl1. }
  destruct (bread_spec (k_dev k) a k2) as (k3 & Hrd3 & Hro3 & _).
  destruct Hro3 as (Hl3 & _ & _ & Hv3 & _).
  destruct (buf_poke_exact a 0 (to_uchar c) k3) as (k4 & Hp4 & Hl4 & _ & Hv4).
  destruct (buf_poke_exact a 1 (to_uchar (Z.shiftr c 8)) k4)
    as (k5 & Hp5 & Hl5 & _ & Hv5).
  destruct (buf_poke_exact a 2 (to_uchar (Z.shiftr c 16)) k5)
    as (k6 & Hp6 & Hl6 & _ & Hv6).
  destruct (buf_poke_exact a 3 (to_uchar (Z.shiftr c 24)) k6)
    as (k7 & Hp7 & Hl7 & _ & Hv7).
  set (k8 := set_dirty (λ s, s ∖ {[a]})
               (set_disk (<[a := k_view k7 a]>)
                  (emit (EvWrite a (k_view k7 a)) k7))).
  assert (Hw8 : bwrite a k7 = Done tt k8) by done.
  destruct (bread_spec (k_dev k) a k8) as (k9 & Hrd9 & Hro9 & _).
  destruct Hro9 as (Hl9 & Hd9 & _ & Hv9 & _).
  assert (Hstored : load_checksum (k_view k7 a) = c).
  { rewrite Hv7, Hv6, Hv5, Hv4. apply load_checksum_stored.
    - rewrite Hv3. change (k_view k2 a) with (k_view k1 a).
      rewrite Hv1, Hbk. lia.
    - destruct (commit_checksum_range k) as [? ?]; [lia|]. unfold c. lia. }
  eexists. split_and!.
  - unfold write_checksum.
    rewrite (bind_done _ _ _ _ _ Hsum).
    fold (commit_checksum k). fold c.
    rewrite (bind_done _ _ k1 (set_log (with_checksum c) k1) tt) by done.
    rewrite (bind_done _ _ (set_log (with_checksum c) k1)
               (set_log (with_checksum c) k1) c) by done.
    rewrite (bind_done _ _ (set_log (with_checksum c) k1) k2 tt) by done.
    rewrite (bind_done _ _ k2 k2 (k_dev k)).
    2:{ unfold gets, k_dev. by rewrite Hl2. }
    rewrite (bind_done _ _ k2 k2 (k_start k)).
    2:{ unfold gets, k_start. by rewrite Hl2. }
    fold (checksum_block k). fold a.
    rewrite (bind_done _ _ _ _ _ Hrd3), (bind_done _ _ _ _ _ Hp4),
      (bind_done _ _ _ _ _ Hp5), (bind_done _ _ _ _ _ Hp6),
      (bind_done _ _ _ _ _ Hp7), (bind_done _ _ _ _ _ Hw8).
    rewrite (bind_done _ _ k8 k8 tt) by done.
    rewrite (bind_done _ _ _ _ _ Hrd9).
    rewrite (bind_done _ _ k9 k9 (k_view k9 a)) by done.
    rewrite (bind_done _ _ k9 k9 tt) by done.
    reflexivity.
  - simpl. rewrite Hl9. simpl. by rewrite Hl7, Hl6, Hl5, Hl4, Hl3, Hl2.
  - unfold on_device, dread. simpl. rewrite Hd9. simpl.
    rewrite lookup_insert_eq. exact Hstored.
  - change (k_view (emit ?e k9) a) with (k_view k9 a).
    rewrite Hv9. unfold k8. rewrite k_view_bwrite. exact Hstored.
Qed.

(** X8.  The checksum survives the device.  [write_checksum] returns; the
    checksum it leaves in [log.checksum] is the sum over the [n] blocks
    from [start + 1] on, reduced modulo [BSIZE], so it is below [BSIZE];
    and the four bytes it puts in the checksum block, on the device and in
    the buffer, decode to that value, which is what [recover_from_log]
    later reads as the stored checksum. *)
Theorem write_checksum_round_trip (k : kernel) :
  blocks_ok k → 4 ≤ BSIZE →
  ∃ k', write_checksum k = Done tt k'
        ∧ k_checksum k' = commit_checksum k
        ∧ 0 ≤ k_checksum k' < BSIZE
        ∧ load_checksum (on_device k' (checksum_block k)) = k_checksum k'
        ∧ stored_checksum k' = k_checksum k'.
Proof.
  intros Hbk Hbs.
  destruct (write_checksum_data k Hbk Hbs) as (k' & Hrun & Hl & Hdev & Hbuf).
  assert (Hc : k_checksum k' = commit_checksum k).
  { unfold k_checksum. by rewrite Hl. }
  exists k'. rewrite Hc. split_and!; try done.
  - apply commit_checksum_range. lia.
  - apply commit_checksum_range. lia.
  - unfold stored_checksum. replace (k_start k') with (k_start k); [done|].
    unfold k_start. by rewrite Hl.
Qed.

(** The weight of byte [BSIZE - 1] is [BSIZE]. *)
Lemma weighted_sum_last_byte (fuel : nat) (j : Z) (d : list Z) (v : Z) :
  0 < BSIZE → 0 ≤ j →
  weighted_sum fuel j (<[Z.to_nat (BSIZE - 1) := v]> d) mod BSIZE
  = weighted_sum fuel j d mod BSIZE.
Proof.
  intros Hb. revert j. induction fuel as [|fuel IH]; intros j Hj; [done|].
  simpl. rewrite Z.add_mod by lia. rewrite IH by lia.
  rewrite (Z.add_mod ((j + 1) * byte_at d j)) by lia. do 2 f_equal.
  destruct (decide (j = BSIZE - 1)) as [->|Hne].
  - replace (BSIZE - 1 + 1) with BSIZE by lia.
    rewrite !(Z.mul_comm BSIZE), !Z.mod_mul by lia. done.
  - rewrite byte_at_insert_ne by lia. done.
Qed.

Lemma sum_blocks_cong (v1 v2 : Z → list Z) (fuel : nat) (i s first c1 c2 : Z) :
  0 < BSIZE → (BSIZE | 2 ^ 32) →
  (∀ b, weighted_sum (Z.to_nat BSIZE) 0 (v1 b) mod BSIZE
        = weighted_sum (Z.to_nat BSIZE) 0 (v2 b) mod BSIZE) →
  c1 mod BSIZE = c2 mod BSIZE →
  sum_blocks v1 fuel i s first c1 mod BSIZE
  = sum_blocks v2 fuel i s first c2 mod BSIZE.
Proof.
  intros Hb Hdiv Hv. revert i c1 c2.
  induction fuel as [|fuel IH]; intros i c1 c2 Hc; [done|].
  simpl. apply IH.
  assert (Hred : ∀ x, x mod BSIZE = to_uint x mod BSIZE).
  { intros x. unfold to_uint. symmetry. by apply Z.mod_mod_divide. }
  rewrite (Hred (sum_bytes _ _ (v1 _) _)), (Hred (sum_bytes _ _ (v2 _) _)).
  rewrite !sum_bytes_weighted, <- !Hred.
  rewrite Z.add_mod by lia. rewrite Hc, Hv. by rewrite <- Z.add_mod by lia.
Qed.

Lemma poke_last_byte_weight (b v : Z) (k : kernel) (c : Z) :
  0 < BSIZE →
  weighted_sum (Z.to_nat BSIZE) 0
    (k_view (set_cache (<[b := <[Z.to_nat (BSIZE - 1) := v]> (k_view k b)]>) k) c)
    mod BSIZE
  = weighted_sum (Z.to_nat BSIZE) 0 (k_view k c) mod BSIZE.
Proof.
  intros Hb. destruct (decide (c = b)) as [->|Hne].
  - unfold k_view at 1. simpl. rewrite lookup_insert_eq.
    by apply weighted_sum_last_byte.
  - by rewrite k_view_poke.
Qed.

(** X9.  The checksum does not cover the last byte of a block.  When
    [BSIZE] divides 2^32 (as 512 does), the weight [j + 1] of the last byte
    is [BSIZE] and vanishes in the reduction modulo [BSIZE]: whatever is
    written to byte [BSIZE - 1] of whatever buffer, the checksum that
    [write_checksum] and [check_checksum] compute and the one that
    [recover_from_log] computes stay as they were. *)
Theorem checksum_ignores_last_byte (k k' : kernel) (b v : Z) :
  0 < BSIZE → (BSIZE | 2 ^ 32) →
  buf_poke b (BSIZE - 1) v k = Done tt k' →
  commit_checksum k' = commit_checksum k
  ∧ recomputed_checksum k' = recomputed_checksum k.
Proof.
  intros Hb Hdiv Hrun. injection Hrun as <-.
  unfold commit_checksum, recomputed_checksum.
  split; (apply sum_blocks_cong; [done|done| |done]);
    intros c; by apply poke_last_byte_weight.
Qed.

End Checksum.

(** ** The end of an operation *)

Section EndOp.
Context {P : Params}.

Lemma end_op_committing (k : kernel) :
  k_committing k ≠ 0 →
  end_op k =
    Panic "log.committing"
      (set_log (with_outstanding (to_int (k_outstanding k - 1)))
         (set_log (with_locked true) k)).
Proof.
  intros Hc. unfold end_op.
  set (ka := set_log (with_locked true) k).
  set (kb := set_log (with_outstanding (to_int (k_outstanding k - 1))) ka).
  rewrite (bind_done _ _ k ka tt) by done.
  rewrite (bind_done _ _ ka kb tt) by done.
  rewrite (bind_done _ _ kb kb (k_committing k)) by done.
  apply Z.eqb_neq in Hc. by rewrite Hc.
Qed.

Lemma end_op_not_last (k : kernel) :
  k_committing k = 0 → to_int (k_outstanding k - 1) ≠ 0 →
  end_op k =
    Done tt
      (set_log (with_locked false)
         (emit EvWakeup
            (set_log (with_outstanding (to_int (k_outstanding k - 1)))
               (set_log (with_locked true) k)))).
Proof.
  intros Hc Ho. unfold end_op.
  set (ka := set_log (with_locked true) k).
  set (kb := set_log (with_outstanding (to_int (k_outstanding k - 1))) ka).
  rewrite (bind_done _ _ k ka tt) by done.
  rewrite (bind_done _ _ ka kb tt) by done.
  rewrite (bind_done _ _ kb kb (k_committing k)) by done.
  rewrite Hc. change (negb (0 =? 0)) with false. cbv iota.
  rewrite (bind_done _ _ kb kb (to_int (k_outstanding k - 1))) by done.
  apply Z.eqb_neq in Ho. rewrite Ho.
  rewrite (bind_done _ _ kb (emit EvWakeup kb) 0) by done.
  rewrite (bind_done _ _ (emit EvWakeup kb)
             (set_log (with_locked false) (emit EvWakeup kb)) tt) by done.
  reflexivity.
Qed.

(** The state in which the last operation to end calls [commit]. *)
Lemma end_op_last (k : kernel) :
  k_committing k = 0 → to_int (k_outstanding k - 1) = 0 →
  end_op k =
    (commit;; acquire;; modify (set_log (with_committing 0));; wakeup;;
     release)
      (set_log (with_locked false)
         (set_log (with_committing 1)
            (set_log (with_outstanding 0) (set_log (with_locked true) k)))).
Proof.
  intros Hc Ho. unfold end_op.
  set (ka := set_log (with_locked true) k).
  set (kb := set_log (with_outstanding (to_int (k_outstanding k - 1))) ka).
  rewrite (bind_done _ _ k ka tt) by done.
  rewrite (bind_done _ _ ka kb tt) by done.
  rewrite (bind_done _ _ kb kb (k_committing k)) by done.
  rewrite Hc. change (negb (0 =? 0)) with false. cbv iota.
  rewrite (bind_done _ _ kb kb (to_int (k_outstanding k - 1))) by done.
  rewrite Ho. change (0 =? 0) with true. cbv iota.
  rewrite (bind_done _ _ kb (set_log (with_committing 1) kb) 1) by done.
  rewrite (bind_done _ _ (set_log (with_committing 1) kb)
             (set_log (with_locked false) (set_log (with_committing 1) kb))
             tt) by done.
  change (negb (1 =? 0)) with true. cbv iota.
  unfold kb. rewrite Ho. reflexivity.
Qed.

(** X10.  An [end_op] that is not the last one only counts down: with no
    commit in flight and operations still outstanding, it returns with
    [outstanding] one lower and the lock free, having woken the sleepers
    and done nothing else: no block is read or written, the header and the
    buffers are as they were. *)
Theorem end_op_defers_commit (k : kernel) :
  k_committing k = 0 → to_int (k_outstanding k - 1) ≠ 0 →
  ∃ k', end_op k = Done tt k'
        ∧ k_outstanding k' = to_int (k_outstanding k - 1)
        ∧ k_locked k' = false
        ∧ k_committing k' = 0
        ∧ log_lh (k_log k') = log_lh (k_log k)
        ∧ k_checksum k' = k_checksum k
        ∧ k_cache k' = k_cache k ∧ k_dirty k' = k_dirty k
        ∧ k_disk k' = k_disk k
        ∧ k_trace k' = k_trace k ++ [EvWakeup].
Proof.
  intros Hc Ho. eexists. split; [by apply end_op_not_last|].
  split_and!; done.
Qed.

(** X11.  [end_op] refuses to run into a commit: when [log.committing] is
    set it halts with "log.committing", after it has taken the lock and
    counted [outstanding] down. *)
Theorem end_op_while_committing (k : kernel) :
  k_committing k ≠ 0 →
  ∃ k', end_op k = Panic "log.committing" k'
        ∧ k_outstanding k' = to_int (k_outstanding k - 1)
        ∧ k_locked k' = true
        ∧ log_lh (k_log k') = log_lh (k_log k)
        ∧ k_disk k' = k_disk k ∧ k_cache k' = k_cache k
        ∧ k_trace k' = k_trace k.
Proof.
  intros Hc. eexists. split; [by apply end_op_committing|].
  split_and!; done.
Qed.

(** The last [end_op], with the data of the commit. *)
Lemma end_op_last_commits (k : kernel) :
  header_ok k → LOGSIZE < 2 ^ 31 → blocks_ok k → 4 ≤ BSIZE →
  NoDup (staged k) → (∀ h, h ∈ staged k → ¬ in_log k h) →
  k_committing k = 0 → k_outstanding k = 1 →
  ∃ k' tr, end_op k = Done tt k'
        ∧ (∀ h, h ∈ staged k → k_disk k' !! h = Some (k_view k h))
        ∧ k_n k' = 0
        ∧ k_outstanding k' = 0
        ∧ k_committing k' = 0
        ∧ k_locked k' = false
        ∧ k_trace k' = k_trace k ++ tr ++ [EvWakeup].
Proof.
  intros Hok Hsmall Hbk Hbs Hnd Hhome Hc Ho.
  rewrite end_op_last by (done || by rewrite Ho).
  set (kc := set_log (with_locked false)
               (set_log (with_committing 1)
                  (set_log (with_outstanding 0)
                     (set_log (with_locked true) k)))).
  destruct (decide (k_n k = 0)) as [Hn|Hn].
  - exists (set_log (with_locked false)
              (emit EvWakeup
                 (set_log (with_committing 0)
                    (set_log (with_locked true) kc)))), [].
    split_and!; try done.
    + assert (Hcm : commit kc = Done tt kc).
      { unfold commit. rewrite (bind_done _ _ kc kc (k_n k)) by done.
        by rewrite Hn. }
      by rewrite (bind_done _ _ _ _ _ Hcm).
    + intros h Hh. unfold staged in Hh. rewrite Hn in Hh. simpl in Hh.
      by apply elem_of_nil in Hh.
  - assert (Hpos : 0 < k_n k) by (destruct Hok as [[] _]; lia).
    destruct (commit_spec kc)
      as (k5 & tr1 & d1 & tr2 & d2 & Hrun & Ht & _ & _ & _ & _ & _ & Hl);
      [done..|].
    exists (set_log (with_locked false)
              (emit EvWakeup
                 (set_log (with_committing 0)
                    (set_log (with_locked true) k5)))),
           (tr1 ++ [EvWrite (to_uint (k_start k + 1)) d1]
            ++ tr2 ++ [EvWrite (to_uint (k_start k + 1)) d2]).
    split_and!.
    + by rewrite (bind_done _ _ _ _ _ Hrun).
    + intros h Hh.
      destruct (commit_data kc k5) with (h := h) as [E _]; done.
    + unfold k_n. simpl. by rewrite Hl.
    + unfold k_outstanding. simpl. by rewrite Hl.
    + done.
    + done.
    + simpl. rewrite Ht. change (k_trace kc) with (k_trace k).
      change (k_start kc) with (k_start k).
      rewrite <- !app_assoc. simpl. by rewrite <- ?app_assoc.
Qed.

(** X12.  The last [end_op] commits.  With one operation outstanding and no
    commit in flight, [end_op] returns; the transaction is then installed
    (every staged block holds on the device the data its buffer held), the
    in-memory header is empty, no operation is outstanding, no commit is
    in flight, the lock is free, and the sleepers have been woken last. *)
Theorem end_op_commits_transaction (k : kernel) :
  header_ok k → LOGSIZE < 2 ^ 31 → blocks_ok k → 4 ≤ BSIZE →
  NoDup (staged k) → (∀ h, h ∈ staged k → ¬ in_log k h) →
  k_committing k = 0 → k_outstanding k = 1 →
  ∃ k' tr, end_op k = Done tt k'
        ∧ (∀ h, h ∈ staged k → k_disk k' !! h = Some (k_view k h))
        ∧ k_n k' = 0
        ∧ k_outstanding k' = 0
        ∧ k_committing k' = 0
        ∧ k_locked k' = false
        ∧ k_trace k' = k_trace k ++ tr ++ [EvWakeup].
Proof. apply end_op_last_commits. Qed.

(** X13.  An operation that logs nothing costs nothing.  On an idle log
    (no operation outstanding, nothing staged) that admits the caller,
    [begin_op] followed by [end_op] returns with the log as it was and the
    lock free; the one event is the wakeup of [end_op]: no block is read or
    written. *)
Theorem empty_operation (k : kernel) (ws : list (kernel → kernel)) :
  admission_fits k → admissible k → k_outstanding k = 0 → k_n k = 0 →
  ∃ k', (begin_op ws;; end_op) k = Done tt k'
        ∧ log_fields k' = log_fields k
        ∧ log_lh (k_log k') = log_lh (k_log k)
        ∧ k_locked k' = false
        ∧ k_cache k' = k_cache k ∧ k_dirty k' = k_dirty k
        ∧ k_disk k' = k_disk k
        ∧ k_trace k' = k_trace k ++ [EvWakeup].
Proof.
  intros Hfits Hadm Ho Hn. pose proof Hadm as [Hc _].
  set (k1 := set_log (with_locked false)
               (set_log (with_outstanding (k_outstanding k + 1))
                  (set_log (with_locked true) k))).
  assert (Hb : begin_op ws k = Done tt k1).
  { unfold begin_op, mbind, M_bind, acquire, modify.
    by rewrite begin_op_loop_admit. }
  rewrite (bind_done _ _ _ _ _ Hb).
  assert (Ho1 : k_outstanding k1 = 1) by (unfold k_outstanding in *; simpl; lia).
  rewrite end_op_last; [|done|by rewrite Ho1].
  set (kc := set_log (with_locked false) _).
  assert (Hcm : commit kc = Done tt kc).
  { unfold commit. rewrite (bind_done _ _ kc kc (k_n k)) by done.
    by rewrite Hn. }
  rewrite (bind_done _ _ _ _ _ Hcm).
  eexists. split; [reflexivity|].
  unfold log_fields, k_start, k_size, k_dev, k_outstanding, k_committing,
    k_checksum in *. simpl. rewrite Hc, Ho. split_and!; done.
Qed.

End EndOp.

(** ** Mounting: [initlog] and the replay of the log *)

Section LogIs.
Context {P : Params}.

Lemma log_is_keep (φ : log → Prop) (f : kernel → kernel) :
  (∀ k, k_log (f k) = k_log k) → preserves (log_is φ) (modify f).
Proof.
  intros Hf. apply preserves_modify. intros k HI. unfold log_is.
  by rewrite Hf.
Qed.

Lemma log_is_bread (φ : log → Prop) (dev b : Z) :
  preserves (log_is φ) (bread dev b).
Proof.
  intros k a k' HI Hrun.
  destruct (bread_spec dev b k) as (k1 & Hrd & (Hl & _) & _).
  rewrite Hrun in Hrd. injection Hrd as _ <-. unfold log_is. by rewrite Hl.
Qed.

Lemma log_is_buf_poke (φ : log → Prop) (b j v : Z) :
  preserves (log_is φ) (buf_poke b j v).
Proof. by apply log_is_keep. Qed.

Lemma log_is_memmove (φ : log → Prop) (dst src : Z) :
  preserves (log_is φ) (memmove dst src).
Proof. by apply log_is_keep. Qed.

Lemma log_is_bwrite (φ : log → Prop) (b : Z) :
  preserves (log_is φ) (bwrite b).
Proof. by apply log_is_keep. Qed.

Lemma log_is_cprintf (φ : log → Prop) (fmt : string) (args : list Z) :
  preserves (log_is φ) (cprintf fmt args).
Proof. by apply log_is_keep. Qed.

Lemma log_is_lh_block_get (φ : log → Prop) (i : Z) :
  preserves (log_is φ) (lh_block_get i).
Proof.
  intros k a k' HI Hrun. unfold lh_block_get in Hrun.
  destruct (k_block k !! Z.to_nat i); [|done]. by injection Hrun as _ <-.
Qed.

Lemma log_is_set_log (φ : log → Prop) (f : log → log) :
  (∀ l, φ l → φ (f l)) → preserves (log_is φ) (modify (set_log f)).
Proof.
  intros Hf. apply preserves_modify. intros k HI. unfold log_is. simpl.
  by apply Hf.
Qed.

Lemma log_is_lh_block_set (φ : log → Prop) (i v : Z) :
  (∀ f l, φ l → φ (with_lh f l)) → preserves (log_is φ) (lh_block_set i v).
Proof.
  intros Hf k a k' HI Hrun. unfold lh_block_set in Hrun.
  destruct (decide _); [|done]. injection Hrun as _ <-.
  unfold log_is. simpl. by apply Hf.
Qed.

Lemma log_is_store_int (φ : log → Prop) (b word v : Z) :
  preserves (log_is φ) (store_int b word v).
Proof.
  unfold store_int.
  repeat (apply preserves_bind; [apply log_is_buf_poke|intros _]).
  apply log_is_buf_poke.
Qed.

Lemma log_is_write_head (φ : log → Prop) : preserves (log_is φ) write_head.
Proof.
  unfold write_head.
  repeat (apply preserves_bind; [apply preserves_gets|intros ?]).
  apply preserves_bind; [apply log_is_bread|intros buf].
  apply preserves_bind; [apply preserves_gets|intros n].
  apply preserves_bind; [apply log_is_store_int|intros _].
  apply preserves_bind.
  { apply preserves_for_loop. intros j _.
    apply preserves_bind; [apply log_is_lh_block_get|intros v].
    apply log_is_store_int. }
  intros _. apply preserves_bind; [apply log_is_bwrite|intros _].
  apply preserves_mret.
Qed.

Lemma log_is_install_trans (φ : log → Prop) :
  preserves (log_is φ) install_trans.
Proof.
  unfold install_trans.
  apply preserves_bind; [apply preserves_gets|intros n].
  apply preserves_for_loop. intros j _.
  repeat (apply preserves_bind; [apply preserves_gets|intros ?]).
  apply preserves_bind; [apply log_is_bread|intros lbuf].
  apply preserves_bind; [apply log_is_lh_block_get|intros home].
  apply preserves_bind; [apply log_is_bread|intros dbuf].
  apply preserves_bind; [apply log_is_memmove|intros _].
  apply preserves_bind; [apply log_is_bwrite|intros _].
  apply preserves_bind; intros; apply preserves_mret.
Qed.

Lemma log_is_read_head (φ : log → Prop) :
  (∀ f l, φ l → φ (with_lh f l)) → preserves (log_is φ) read_head.
Proof.
  intros Hf. unfold read_head, buf_data.
  repeat (apply preserves_bind; [apply preserves_gets|intros ?]).
  apply preserves_bind; [apply log_is_bread|intros buf].
  apply preserves_bind; [apply preserves_gets|intros lh].
  apply preserves_bind; [apply log_is_set_log; intros; apply Hf; done|intros _].
  apply preserves_bind; [apply preserves_gets|intros n].
  apply preserves_bind.
  { apply preserves_for_loop. intros j _. by apply log_is_lh_block_set. }
  intros _. apply preserves_mret.
Qed.

Lemma log_is_replay (φ : log → Prop) :
  (∀ f l, φ l → φ (with_lh f l)) → preserves (log_is φ) replay.
Proof.
  intros Hf. unfold replay.
  apply preserves_bind; [apply log_is_cprintf|intros _].
  apply preserves_bind; [by apply log_is_read_head|intros _].
  apply preserves_bind; [apply log_is_install_trans|intros _].
  apply preserves_bind; [apply log_is_set_log; intros; apply Hf; done|intros _].
  apply log_is_write_head.
Qed.

Lemma replay_empties (k k' : kernel) :
  replay k = Done tt k' → k_n k' = 0.
Proof.
  unfold replay. intros Hrun.
  apply bind_inv in Hrun as ([] & k1 & _ & Hrun).
  apply bind_inv in Hrun as ([] & k2 & _ & Hrun).
  apply bind_inv in Hrun as ([] & k3 & _ & Hrun).
  apply bind_inv in Hrun as ([] & k4 & Hmod & Hrun).
  injection Hmod as <-.
  eapply (log_is_write_head (λ l, lh_n (log_lh l) = 0)); [|exact Hrun].
  done.
Qed.

(** X14.  What [initlog] leaves.  When the header does not fit in a block
    ([sizeof(struct logheader) >= BSIZE]) it halts with "initlog: too big
    logheader" before it touches anything.  Whenever it returns on a
    booting kernel, the header fits, [log.start] and [log.size] are the
    [uint] fields of the superblock converted to [int], [log.dev] is the
    device of the caller, and the log is idle: nothing staged, no operation
    outstanding, no commit in flight, the checksum field zero, the lock
    free. *)
Theorem initlog_mounts (sb : superblock) (dev : Z) (d : gmap Z (list Z)) :
  (BSIZE ≤ 4 * (LOGSIZE + 1) →
   initlog sb dev (boot d) = Panic "initlog: too big logheader" (boot d))
  ∧ (∀ k', initlog sb dev (boot d) = Done tt k' →
           4 * (LOGSIZE + 1) < BSIZE
           ∧ k_start k' = to_int (logstart sb)
           ∧ k_size k' = to_int (nlog sb) ∧ k_dev k' = dev
           ∧ k_checksum k' = 0 ∧ k_n k' = 0
           ∧ k_outstanding k' = 0 ∧ k_committing k' = 0
           ∧ k_locked k' = false).
Proof.
  split.
  - intros Hbig. unfold initlog.
    destruct (4 * (LOGSIZE + 1) >=? BSIZE) eqn:Hg; zbool; [done|lia].
  - intros k' Hrun. unfold initlog in Hrun.
    destruct (4 * (LOGSIZE + 1) >=? BSIZE) eqn:Hg; zbool; [done|].
    split; [lia|].
    change ((initlock;;
             modify (set_log (with_start (to_int (logstart sb))));;
             modify (set_log (with_size (to_int (nlog sb))));;
             modify (set_log (with_dev dev));;
             modify (set_log (with_checksum 0));;
             recover_from_log) (boot d))
      with (recover_from_log (boot_log sb dev d)) in Hrun.
    set (φ := λ l, log_start l = to_int (logstart sb)
                   ∧ log_size l = to_int (nlog sb)
                   ∧ log_dev l = dev ∧ log_checksum l = 0
                   ∧ log_outstanding l = 0 ∧ log_committing l = 0
                   ∧ log_locked l = false).
    assert (H0 : log_is φ (boot_log sb dev d)) by (split_and!; done).
    destruct (recover_from_log_spec (boot_log sb dev d))
      as (k1 & (Hl1 & _) & Hrec).
    assert (H1 : log_is φ k1) by (unfold log_is; by rewrite Hl1).
    rewrite Hrun in Hrec.
    destruct (_ =? _).
    + symmetry in Hrec.
      assert (log_is φ k') as (? & ? & ? & ? & ? & ? & ?).
      { eapply log_is_replay; [|exact H1|exact Hrec]. by intros f l. }
      apply replay_empties in Hrec. split_and!; done.
    + injection Hrec as ->.
      destruct H1 as (? & ? & ? & ? & ? & ? & ?).
      assert (k_n k1 = 0) by (unfold k_n; by rewrite Hl1).
      split_and!; done.
Qed.

(** X15.  The replay of [recover_from_log].  When the two checksums it
    compares agree and the header block declares [n] blocks, at most
    [LOGSIZE], with distinct numbers outside the header block and the data
    slots, [recover_from_log] returns; every block the header names then
    holds on the device the data of its slot, no other block than these
    and the header block has changed, and the header is empty in memory
    and on the device. *)
Theorem recovery_replays (k : kernel) :
  length (k_block k) = Z.to_nat LOGSIZE → blocks_ok k →
  4 * (LOGSIZE + 1) ≤ BSIZE → LOGSIZE < 2 ^ 31 →
  stored_checksum k = recomputed_checksum k →
  let dh := k_view k (header_block k) in
  let n := load_int dh 0 in
  let homes := to_uint <$> decode_blocks dh n in
  0 ≤ n ≤ LOGSIZE → NoDup homes →
  (∀ h, h ∈ homes → h ≠ header_block k ∧ ∀ j, 0 ≤ j < n → h ≠ slot k j) →
  ∃ k', recover_from_log k = Done tt k'
        ∧ (∀ j h, homes !! j = Some h →
                  k_disk k' !! h = Some (k_view k (slot k (Z.of_nat j))))
        ∧ (∀ b, b ∉ homes → b ≠ header_block k →
                k_disk k' !! b = k_disk k !! b)
        ∧ k_n k' = 0
        ∧ load_int (on_device k' (header_block k)) 0 = 0.
Proof.
  intros Hlen Hbk Hfit Hsmall Heq dh n homes Hn Hnd Hout.
  destruct (recover_from_log_spec k) as (k1 & Hro & Hrec).
  rewrite Heq, Z.eqb_refl in Hrec. rewrite Hrec. clear Hrec.
  destruct Hro as (Hl1 & Hd1 & _ & Hv1 & _).
  unfold replay.
  set (ka := emit (EvPrint
    "boot log checksum match, proceding with log commit. \n" []) k1).
  rewrite (bind_done _ _ k1 ka tt) by done.
  assert (Hla : k_log ka = k_log k) by done.
  assert (Hva : ∀ b, k_view ka b = k_view k b) by (intros b; apply Hv1).
  assert (Hha : header_block ka = header_block k)
    by (unfold header_block, k_start; by rewrite Hla).
  destruct (read_head_done ka)
    as (kb & Hrh & Hnb & Hin & Hlenb & Hfb & _ & Hdb & Hvb).
  { rewrite Hha, Hva. fold dh. fold n. unfold k_block. rewrite Hla.
    fold (k_block k). lia. }
  rewrite Hha, Hva in Hnb, Hin. fold dh in Hnb, Hin. fold n in Hnb, Hin.
  rewrite (bind_done _ _ _ _ _ Hrh).
  assert (Hsb : k_start kb = k_start k).
  { unfold log_fields in Hfb. injection Hfb as -> _. unfold k_start.
    by rewrite Hla. }
  assert (Hlb : length (k_block kb) = Z.to_nat LOGSIZE).
  { rewrite Hlenb. unfold k_block. rewrite Hla. exact Hlen. }
  assert (Hokb : header_ok kb) by (split; [by rewrite Hnb|done]).
  assert (Hbkb : blocks_ok kb) by (intros b; by rewrite Hvb, Hva).
  assert (Hstb : staged kb = homes).
  { unfold staged, homes. rewrite Hnb. f_equal.
    apply decode_blocks_lookup; [lia|lia|done]. }
  assert (Hslb : ∀ j, slot kb j = slot k j)
    by (intros j; unfold slot; by rewrite Hsb).
  destruct (install_trans_data kb)
    as (kc & Hit & Hlc & Hbkc & Hdata & Houtc); [done|done|by rewrite Hstb| |].
  { intros h j. rewrite Hstb, Hnb, Hslb. intros Hh Hj.
    by apply (Hout h Hh). }
  rewrite (bind_done _ _ _ _ _ Hit).
  set (kd := set_log (with_lh (with_n 0)) kc).
  rewrite (bind_done _ _ kc kd tt) by done.
  assert (Hokd : header_ok kd).
  { split; [change (k_n kd) with 0; lia|].
    change (k_block kd) with (k_block kc). unfold k_block. by rewrite Hlc. }
  assert (Hsd : k_start kd = k_start k).
  { unfold k_start. simpl. rewrite Hlc. exact Hsb. }
  assert (Hhd : header_block kd = header_block k)
    by (unfold header_block; by rewrite Hsd).
  destruct (write_head_spec kd Hokd) as (k' & Hwh & Hl' & _).
  destruct (write_head_words kd k') as (d & Hd & _ & Hw0 & _);
    [done|done|done|done|].
  assert (K : kept (k_start kd) (log_lh (k_log kd))
                (λ c, c = header_block k) kd k').
  { eapply kept_write_head; [|apply kept_refl|exact Hwh].
    unfold header_block. by rewrite Hsd. }
  destruct K as (_ & _ & Houtd).
  exists k'. split_and!.
  - exact Hwh.
  - intros j h Hh.
    assert (Hin' : h ∈ homes) by (by eapply list_elem_of_lookup_2).
    destruct (Houtd h) as [_ ->]; [by apply Hout|].
    change (k_disk kd) with (k_disk kc).
    destruct (Hdata j h) as [-> _]; [by rewrite Hstb|].
    by rewrite Hslb, Hvb, Hva.
  - intros b Hb1 Hb2. destruct (Houtd b Hb2) as [_ ->].
    change (k_disk kd) with (k_disk kc).
    destruct (Houtc b) as [_ ->]; [by rewrite Hstb|].
    rewrite Hdb. change (k_disk ka) with (k_disk k1). by rewrite Hd1.
  - unfold k_n. by rewrite Hl'.
  - unfold on_device, dread. rewrite Hhd in Hd. rewrite Hd. simpl.
    rewrite Hw0. done.
Qed.

(** [recover_from_log] when the header block declares no block. *)
Lemma recover_from_log_empty (k : kernel) :
  length (k_block k) = Z.to_nat LOGSIZE → 0 ≤ LOGSIZE →
  load_int (k_view k (header_block k)) 0 = 0 →
  ∃ k', recover_from_log k = Done tt k'
        ∧ ∀ b, b ≠ header_block k →
               k_disk k' !! b = k_disk k !! b ∧ k_view k' b = k_view k b.
Proof.
  intros Hlen Hsize Hn0.
  destruct (recover_from_log_spec k) as (k1 & Hro & Hrec).
  rewrite Hrec. clear Hrec.
  destruct Hro as (Hl1 & Hd1 & _ & Hv1 & _).
  destruct (_ =? _).
  2:{ eexists. split; [reflexivity|]. intros b _.
      split; [simpl; by rewrite Hd1|apply Hv1]. }
  unfold replay.
  set (ka := emit (EvPrint
    "boot log checksum match, proceding with log commit. \n" []) k1).
  rewrite (bind_done _ _ k1 ka tt) by done.
  assert (Hla : k_log ka = k_log k) by done.
  assert (Hva : ∀ b, k_view ka b = k_view k b) by (intros b; apply Hv1).
  assert (Hha : header_block ka = header_block k)
    by (unfold header_block, k_start; by rewrite Hla).
  destruct (read_head_done ka)
    as (kb & Hrh & Hnb & _ & Hlenb & Hfb & _ & Hdb & Hvb).
  { rewrite Hha, Hva, Hn0. lia. }
  rewrite Hha, Hva, Hn0 in Hnb.
  rewrite (bind_done _ _ _ _ _ Hrh).
  assert (Hsb : k_start kb = k_start k).
  { unfold log_fields in Hfb. injection Hfb as -> _. unfold k_start.
    by rewrite Hla. }
  assert (Hit : install_trans kb = Done tt kb).
  { unfold install_trans. rewrite (bind_done _ _ kb kb (k_n kb)) by done.
    by rewrite Hnb. }
  rewrite (bind_done _ _ _ _ _ Hit).
  set (kd := set_log (with_lh (with_n 0)) kb).
  rewrite (bind_done _ _ kb kd tt) by done.
  assert (Hokd : header_ok kd).
  { split; [change (k_n kd) with 0; lia|].
    change (k_block kd) with (k_block kb). rewrite Hlenb.
    unfold k_block. by rewrite Hla. }
  destruct (write_head_spec kd Hokd) as (k' & Hwh & _).
  assert (K : kept (k_start kd) (log_lh (k_log kd))
                (λ c, c = header_block k) kd k').
  { eapply kept_write_head; [|apply kept_refl|exact Hwh].
    unfold header_block. by rewrite <- Hsb. }
  destruct K as (_ & _ & Houtd).
  exists k'. split; [done|]. intros b Hb.
  destruct (Houtd b Hb) as [-> ->].
  change (k_disk kd) with (k_disk kb). change (k_view kd b) with (k_view kb b).
  rewrite Hdb, Hvb, Hva. change (k_disk ka) with (k_disk k1).
  by rewrite Hd1.
Qed.

(** X16.  Recovery over an empty log is harmless.  When the header block
    declares no block, [recover_from_log] returns whichever way the
    checksums compare, and no block other than the header block has
    changed, on the device or in a buffer. *)
Theorem recovery_of_empty_log (k : kernel) :
  length (k_block k) = Z.to_nat LOGSIZE → 0 ≤ LOGSIZE →
  load_int (k_view k (header_block k)) 0 = 0 →
  ∃ k', recover_from_log k = Done tt k'
        ∧ ∀ b, b ≠ header_block k →
               k_disk k' !! b = k_disk k !! b ∧ k_view k' b = k_view k b.
Proof. apply recover_from_log_empty. Qed.

End LogIs.

(** ** Recording a block, and the check of a commit *)

Section Deferred.
Context {P : Params}.

(** X17.  [log_write] replaces [bwrite] and writes nothing: when it
    returns, the device, the data of the buffers and the event trace are as
    they were (no block was read or written), the buffer is flagged
    [B_DIRTY], and the lock is free. *)
Theorem log_write_defers_io (b : Z) (k k' : kernel) :
  header_ok k → layout_ok k → is_uint b →
  log_write b k = Done tt k' →
  k_disk k' = k_disk k ∧ k_cache k' = k_cache k ∧ k_trace k' = k_trace k
  ∧ k_dirty k' = k_dirty k ∪ {[b]} ∧ k_locked k' = false.
Proof.
  intros Hok Hlay Hb Hrun.
  destruct (log_write_inv b k k' Hok Hlay Hb Hrun) as ((H1 & H2 & H3) & _).
  destruct (log_write_done b k Hok Hlay Hb H1 H2 H3)
    as (k'' & Hrun' & _ & _ & _ & _ & _ & _ & Hlk & Hdy & Hc & Hd & Ht).
  rewrite Hrun in Hrun'. injection Hrun' as <-. done.
Qed.

(** X18.  The check of a commit always passes.  [check_checksum], run
    after [write_checksum] as [commit] runs it, recomputes the checksum
    from the buffers [write_checksum] summed, which the write of the
    checksum block has not touched: it returns 1, whatever the blocks
    hold. *)
Theorem commit_check_passes (k : kernel) :
  0 ≤ k_n k < 2 ^ 32 →
  ∃ k1 k2, write_checksum k = Done tt k1 ∧ check_checksum k1 = Done 1 k2.
Proof.
  intros Hn.
  destruct (write_checksum_spec k) as (k1 & Hwc & Hl & _ & Hv).
  destruct (check_checksum_spec k1) as (k2 & Hcc & _).
  rewrite (checksum_verifies k k1), Z.eqb_refl in Hcc by done.
  by exists k1, k2.
Qed.

End Deferred.

(** ** A crash before the commit point *)

Lemma device_writes_marks (tr : list event) (w : Z * list Z) :
  w ∈ device_writes tr → MWrite w.1 ∈ marks tr.
Proof.
  unfold device_writes, marks. intros Hw.
  apply list_elem_of_omap in Hw as (e & He & Hf).
  apply list_elem_of_omap. exists e. split; [done|].
  destruct e; try done. by injection Hf as <-.
Qed.

Lemma crash_disk_frame (d0 : gmap Z (list Z)) (tr : list event)
    (landed : nat) (b : Z) :
  (∀ w, w ∈ device_writes tr → w.1 ≠ b) →
  crash_disk d0 tr landed !! b = d0 !! b.
Proof.
  unfold crash_disk. intros Hw.
  assert (Hl : ∀ w, w ∈ take landed (device_writes tr) → w.1 ≠ b).
  { intros w Hin. apply Hw. apply elem_of_take in Hin as (i & Hi & _).
    by eapply list_elem_of_lookup_2. }
  clear Hw. revert d0 Hl.
  induction (take landed (device_writes tr)) as [|w l IH]; intros d0 Hl;
    [done|].
  simpl. rewrite IH.
  - apply lookup_insert_ne. apply Hl. by left.
  - intros w' Hin. apply Hl. by right.
Qed.

Section Crash.
Context {P : Params}.

Lemma verified_marks_writes (k : kernel) (b : Z) :
  MWrite b ∈ verified_marks k →
  b = checksum_block k ∨ ∃ j, 0 ≤ j < k_n k ∧ b = slot k j.
Proof.
  unfold verified_marks. intros Hin.
  apply elem_of_app in Hin as [Hin|Hin].
  - right. apply list_elem_of_fmap in Hin as (b' & Hb & Hin).
    injection Hb as ->.
    apply list_elem_of_fmap in Hin as (j & -> & Hj).
    apply elem_of_seqZ in Hj. exists j. split; [lia|done].
  - left. repeat (apply elem_of_cons in Hin as [Hin|Hin]; [try done|]).
    + by injection Hin as ->.
    + by apply elem_of_nil in Hin.
Qed.

Lemma boot_log_view (sb : superblock) (dev : Z) (d : gmap Z (list Z)) (b : Z) :
  k_view (boot_log sb dev d) b = dread d b.
Proof. unfold k_view. simpl. by rewrite lookup_empty. Qed.

(** X19.  A crash before the commit point loses nothing and installs
    nothing.  Take a commit that starts while the header block on the
    device declares an empty log.  Its trace reaches the first write of the
    header block after a run of events [tr1]; if power is lost when any
    number of the device writes of [tr1] have landed, [initlog] on the
    device that is left returns, and every block outside the log region is
    then what it was before the commit. *)
Theorem crash_before_commit_point (k : kernel) (sb : superblock) (dev : Z) :
  header_ok k → 0 < k_n k → LOGSIZE < 2 ^ 31 → blocks_ok k →
  4 * (LOGSIZE + 1) < BSIZE → logstart sb = k_start k →
  load_int (on_device k (header_block k)) 0 = 0 →
  ∃ k' tr1 d1 rest,
    commit k = Done tt k'
    ∧ k_trace k' = k_trace k ++ tr1 ++ EvWrite (header_block k) d1 :: rest
    ∧ ∀ landed, ∃ k'',
        initlog sb dev (boot (crash_disk (k_disk k) tr1 landed))
          = Done tt k''
        ∧ ∀ b, ¬ in_log k b → k_disk k'' !! b = k_disk k !! b.
Proof.
  intros Hok Hn Hsmall Hbk Hfit Hsb Hempty.
  pose proof Hok as [Hn' Hlen].
  destruct (commit_spec k Hok Hn Hsmall Hbk)
    as (k' & tr1 & d1 & tr2 & d2 & Hrun & Ht & Hm1 & _); [lia|].
  exists k', tr1, d1, (tr2 ++ [EvWrite (to_uint (k_start k + 1)) d2]).
  split_and!; [done|exact Ht|].
  intros landed. set (d := crash_disk (k_disk k) tr1 landed).
  assert (Hfr : ∀ b, b ≠ checksum_block k →
                     (∀ j, 0 ≤ j < k_n k → b ≠ slot k j) →
                     d !! b = k_disk k !! b).
  { intros b Hb1 Hb2. apply crash_disk_frame. intros w Hw <-.
    apply device_writes_marks in Hw. rewrite Hm1 in Hw.
    apply verified_marks_writes in Hw as [Heq|(j & Hj & Heq)]; [done|].
    by apply (Hb2 j). }
  unfold initlog.
  destruct (4 * (LOGSIZE + 1) >=? BSIZE) eqn:Hg; zbool; [lia|].
  change ((initlock;;
           modify (set_log (with_start (to_int (logstart sb))));;
           modify (set_log (with_size (to_int (nlog sb))));;
           modify (set_log (with_dev dev));;
           modify (set_log (with_checksum 0));;
           recover_from_log) (boot d))
    with (recover_from_log (boot_log sb dev d)).
  set (kb := boot_log sb dev d).
  assert (Hhb : header_block kb = header_block k).
  { unfold header_block. change (k_start kb) with (to_int (logstart sb)).
    rewrite Hsb. unfold to_uint, to_int. change (2 ^ 32) with 4294967296.
    change (2 ^ 31) with 2147483648. generalize (k_start k). intros s.
    Z.div_mod_to_equations. lia. }
  destruct (recover_from_log_empty kb) as (k'' & Hrec & Hout).
  - unfold kb. simpl. apply length_replicate.
  - lia.
  - rewrite Hhb. unfold kb. rewrite boot_log_view. unfold dread.
    rewrite Hfr; [exact Hempty| |].
    + unfold header_block, checksum_block. apply to_uint_add_ne.
      change (2 ^ 32) with 4294967296. lia.
    + intros j Hj Heq. symmetry in Heq. revert Heq.
      apply slot_ne_header. zpow. lia.
  - exists k''. split; [done|]. intros b Hb.
    destruct (Hout b) as [-> _].
    + rewrite Hhb. intros ->. apply Hb, in_log_header. lia.
    + change (k_disk kb) with d. apply Hfr.
      * intros ->. apply Hb, in_log_checksum. lia.
      * intros j Hj ->. by apply Hb, in_log_slot.
Qed.

End Crash.

(** ** A whole operation *)

Lemma foldl_absorb_elem (bs l : list Z) (b : Z) :
  b ∈ l ∨ b ∈ bs → b ∈ foldl absorb l bs.
Proof.
  revert l. induction bs as [|x bs IH]; intros l [Hl|Hb].
  - done.
  - by apply elem_of_nil in Hb.
  - simpl. apply IH. left. destruct (absorb_prefix l x) as [r ->].
    apply elem_of_app. by left.
  - simpl. apply IH. apply elem_of_cons in Hb as [->|Hb]; [|by right].
    left. apply absorb_elem.
Qed.

Lemma foldl_absorb_subset (bs l : list Z) (b : Z) :
  b ∈ foldl absorb l bs → b ∈ l ∨ b ∈ bs.
Proof.
  revert l. induction bs as [|x bs IH]; intros l Hb; [by left|].
  simpl in Hb. apply IH in Hb as [Hb|Hb]; [|right; by right].
  unfold absorb in Hb. destruct (decide (x ∈ l)); [by left|].
  apply elem_of_app in Hb as [Hb|Hb]; [by left|].
  apply list_elem_of_singleton in Hb as ->. right. by left.
Qed.

Lemma preserves_lh_block_get (I : kernel → Prop) (i : Z) :
  preserves I (lh_block_get i).
Proof.
  intros k a k' HI Hrun. unfold lh_block_get in Hrun.
  destruct (k_block k !! Z.to_nat i); [|done]. by injection Hrun as _ <-.
Qed.

Section Operation.
Context {P : Params}.

(** What [log_write] does not touch. *)
Lemma log_write_keeps (b c s o : Z) (ca d : gmap Z (list Z)) :
  preserves (λ k, k_committing k = c ∧ k_start k = s ∧ k_outstanding k = o
                  ∧ k_cache k = ca ∧ k_disk k = d) (log_write b).
Proof.
  unfold log_write, acquire, release.
  assert (Hscan : ∀ fuel i,
    preserves (λ k, k_committing k = c ∧ k_start k = s ∧ k_outstanding k = o
                    ∧ k_cache k = ca ∧ k_disk k = d) (absorb_scan fuel i b)).
  { induction fuel as [|fuel IH]; intros i; simpl; [apply preserves_mret|].
    apply preserves_bind; [apply preserves_lh_block_get|intros v].
    apply preserves_if; [apply preserves_mret|apply IH]. }
  repeat (apply preserves_bind; [apply preserves_gets|intros ?]).
  apply preserves_if; [apply preserves_panic|].
  apply preserves_bind; [apply preserves_gets|intros ?].
  apply preserves_if; [apply preserves_panic|].
  apply preserves_bind; [by apply preserves_modify|intros _].
  apply preserves_bind; [apply preserves_gets|intros ?].
  apply preserves_bind; [apply Hscan|intros i].
  apply preserves_bind.
  { intros k0 r k0' HI Hrun. unfold lh_block_set in Hrun.
    destruct (decide _); [|done]. by injection Hrun as _ <-. }
  intros _. apply preserves_bind; [apply preserves_gets|intros ?].
  apply preserves_bind.
  { apply preserves_if; [by apply preserves_modify|apply preserves_mret]. }
  intros _.
  apply preserves_bind; [by apply preserves_modify|intros _].
  by apply preserves_modify.
Qed.

Lemma log_writes_keeps (bs : list Z) (c s o : Z) (ca d : gmap Z (list Z)) :
  preserves (λ k, k_committing k = c ∧ k_start k = s ∧ k_outstanding k = o
                  ∧ k_cache k = ca ∧ k_disk k = d) (log_writes bs).
Proof.
  induction bs as [|b bs IH]; simpl; [apply preserves_mret|].
  apply preserves_bind; [apply log_write_keeps|intros _; exact IH].
Qed.

(** X20.  What a system call records is on the device when it ends.  On
    an idle log that admits the caller, let [begin_op] be followed by
    [log_write] calls for the blocks [bs], all of them outside the log
    region and all returning (the transaction fits).  Then [end_op]
    returns, and every block of [bs] holds on the device the data its
    buffer holds; the log is idle again. *)
Theorem operation_is_durable (k k1 : kernel) (ws : list (kernel → kernel))
    (bs : list Z) :
  header_ok k → layout_ok k → blocks_ok k → 4 ≤ BSIZE →
  admission_fits k → admissible k → k_n k = 0 → k_outstanding k = 0 →
  Forall is_uint bs →
  (∀ b j, b ∈ bs → 0 ≤ j < LOGSIZE + 2 → b ≠ to_uint (k_start k + j)) →
  (begin_op ws;; log_writes bs) k = Done tt k1 →
  ∃ k2, end_op k1 = Done tt k2
        ∧ (∀ b, b ∈ bs → k_disk k2 !! b = Some (k_view k b))
        ∧ k_n k2 = 0 ∧ k_outstanding k2 = 0 ∧ k_committing k2 = 0
        ∧ k_locked k2 = false.
Proof.
  intros Hok Hlay Hbk Hbs Hfits Hadm Hn Ho Hu Hreg Hrun.
  pose proof Hadm as [Hc _]. pose proof Hlay as [Hsmall _].
  set (ka := set_log (with_locked false)
               (set_log (with_outstanding (k_outstanding k + 1))
                  (set_log (with_locked true) k))).
  assert (Hb : begin_op ws k = Done tt ka).
  { unfold begin_op, mbind, M_bind, acquire, modify.
    by rewrite begin_op_loop_admit. }
  rewrite (bind_done _ _ _ _ _ Hb) in Hrun.
  assert (Hoka : header_ok ka) by exact Hok.
  assert (Hlaya : layout_ok ka) by exact Hlay.
  destruct (log_writes_staged bs ka k1 Hoka Hlaya Hu Hrun) as [Hst Hok1].
  assert (Hsta : staged ka = []).
  { unfold staged. change (k_n ka) with (k_n k). by rewrite Hn. }
  rewrite Hsta in Hst.
  destruct (log_writes_keeps bs (k_committing k) (k_start k)
              (k_outstanding k + 1) (k_cache k) (k_disk k) ka tt k1)
    as (Hc1 & Hs1 & Ho1 & Hca1 & Hd1); [done|done|].
  assert (Hv1 : ∀ b, k_view k1 b = k_view k b).
  { intros b. unfold k_view. by rewrite Hca1, Hd1. }
  destruct (end_op_last_commits k1) as (k2 & tr & Hend & Hdata & H2);
    [done|done| |done| | |lia|lia|].
  { intros b. rewrite Hv1. apply Hbk. }
  { rewrite Hst. apply foldl_absorb_NoDup. apply NoDup_nil_2. }
  { intros h Hh (j & Hj & ->). rewrite Hst in Hh.
    apply foldl_absorb_subset in Hh as [Hh|Hh];
      [by apply elem_of_nil in Hh|].
    rewrite Hs1 in Hh. revert Hh. intros Hh.
    apply (Hreg _ j Hh); [|done]. destruct Hok1 as [[] _]. lia. }
  exists k2. split; [done|]. split; [|by destruct H2 as (? & ? & ? & ? & _)].
  intros b Hbin. rewrite <- Hv1. apply Hdata. rewrite Hst.
  apply foldl_absorb_elem. by right.
Qed.

End Operation.

(** ** Installing twice, and the slot the checksum misses *)

Section Again.
Context {P : Params}.

(** X21.  Installing again changes nothing.  When [install_trans] has run
    (staged block numbers distinct, none that of a slot), a second run
    leaves the device and every buffer as the first run left them. *)
Theorem install_trans_idempotent (k : kernel) :
  header_ok k → blocks_ok k → NoDup (staged k) →
  (∀ h j, h ∈ staged k → 0 ≤ j < k_n k → h ≠ slot k j) →
  ∃ k1 k2, install_trans k = Done tt k1
           ∧ install_trans k1 = Done tt k2
           ∧ k_disk k2 = k_disk k1
           ∧ ∀ b, k_view k2 b = k_view k1 b.
Proof.
  intros Hok Hbk Hnd Hdis.
  destruct (install_trans_data k Hok Hbk Hnd Hdis)
    as (k1 & Hrun1 & Hl1 & Hbk1 & Hdata1 & Hout1).
  assert (Hst1 : staged k1 = staged k)
    by (unfold staged, k_n, k_block; by rewrite Hl1).
  assert (Hn1 : k_n k1 = k_n k) by (unfold k_n; by rewrite Hl1).
  assert (Hsl1 : ∀ j, slot k1 j = slot k j)
    by (intros j; unfold slot, k_start; by rewrite Hl1).
  destruct (install_trans_data k1)
    as (k2 & Hrun2 & Hl2 & Hbk2 & Hdata2 & Hout2).
  { unfold header_ok, k_n, k_block in *. by rewrite Hl1. }
  { done. }
  { by rewrite Hst1. }
  { intros h j. rewrite Hst1, Hn1, Hsl1. apply Hdis. }
  exists k1, k2. split; [done|]. split; [done|].
  assert (Hsame : ∀ b, k_disk k2 !! b = k_disk k1 !! b
                       ∧ k_view k2 b = k_view k1 b).
  { intros b. destruct (decide (b ∈ staged k)) as [Hin|Hnin].
    - apply list_elem_of_lookup in Hin as (j & Hj).
      assert (Hjn : 0 ≤ Z.of_nat j < k_n k).
      { apply staged_lookup in Hj as (_ & _ & Hlt & _). lia. }
      destruct (Hdata1 j b Hj) as [-> ->].
      destruct (Hdata2 j b) as [-> ->]; [by rewrite Hst1|].
      rewrite Hsl1.
      destruct (Hout1 (slot k (Z.of_nat j))) as [-> _]; [|done].
      intros Hin. by apply (Hdis _ (Z.of_nat j) Hin).
    - destruct (Hout2 b) as [-> ->]; [by rewrite Hst1|done]. }
  split; [|intros b; apply Hsame].
  apply map_eq. intros b. apply Hsame.
Qed.

(** X22.  The checksum of a commit does not cover the last data slot.
    [write_checksum] and [check_checksum] sum the [n] blocks from
    [start + 1] on: the header block and the data slots [0] to [n - 2].
    Whatever is written to the buffer of slot [n - 1], the checksum they
    compute stays as it was. *)
Theorem checksum_misses_last_slot (k k' : kernel) (j v : Z) :
  0 < k_n k < 2 ^ 31 →
  buf_poke (slot k (k_n k - 1)) j v k = Done tt k' →
  commit_checksum k' = commit_checksum k.
Proof.
  intros Hn Hrun. injection Hrun as <-.
  unfold commit_checksum. f_equal.
  change (k_n (set_cache _ k)) with (k_n k).
  change (k_start (set_cache _ k)) with (k_start k).
  apply sum_blocks_ext_on. intros i Hi.
  apply k_view_poke. unfold slot.
  replace (k_start k + (k_n k - 1) + 1 + 1)
    with (k_start k + i + 1 + (k_n k - i)) by lia.
  intros Heq. symmetry in Heq. revert Heq. apply to_uint_add_ne.
  zpow. change (2 ^ 32) with 4294967296. lia.
Qed.

End Again.

(** ** The further properties on the stock layout *)

Lemma slot_unfold (k : kernel) (j : Z) :
  slot k j = to_uint (k_start k + j + 1 + 1).
Proof. reflexivity. Qed.

Lemma k_staged2_staged : staged k_staged2 = [100; 101].
Proof. by vm_compute. Qed.

Lemma k_staged2_NoDup : NoDup (staged k_staged2).
Proof.
  rewrite k_staged2_staged. apply NoDup_cons. split; [|apply NoDup_singleton].
  intros H. apply list_elem_of_singleton in H. done.
Qed.

Lemma k_staged2_place : k_n k_staged2 = 2 ∧ k_start k_staged2 = 2.
Proof. by vm_compute. Qed.

Lemma k_staged2_outside_log (h : Z) :
  h ∈ staged k_staged2 → ¬ in_log k_staged2 h.
Proof.
  destruct k_staged2_place as [Hn Hs].
  rewrite k_staged2_staged. intros Hh (j & Hj & Heq).
  rewrite Hn in Hj. rewrite Hs in Heq. unfold to_uint in Heq.
  rewrite Z.mod_small in Heq by (change (2 ^ 32) with 4294967296; lia).
  apply elem_of_cons in Hh as [Hh|Hh]; [lia|].
  apply list_elem_of_singleton in Hh. lia.
Qed.

Lemma k_staged2_no_slot (h j : Z) :
  h ∈ staged k_staged2 → 0 ≤ j < k_n k_staged2 → h ≠ slot k_staged2 j.
Proof.
  intros Hh Hj ->. apply (k_staged2_outside_log _ Hh).
  exists (j + 2). split; [lia|]. rewrite slot_unfold. f_equal. lia.
Qed.

Lemma write_log_fills_slots_witness :
  ∃ k', @write_log xv6 k_staged2 = Done tt k'
        ∧ k_log k' = k_log k_staged2
        ∧ (∀ j h, staged k_staged2 !! j = Some h →
                  k_disk k' !! slot k_staged2 (Z.of_nat j)
                  = Some (@k_view xv6 k_staged2 h)
                  ∧ @k_view xv6 k' (slot k_staged2 (Z.of_nat j))
                    = @k_view xv6 k_staged2 h)
        ∧ (∀ b, (∀ j, 0 ≤ j < k_n k_staged2 → b ≠ slot k_staged2 j) →
                @k_view xv6 k' b = @k_view xv6 k_staged2 b
                ∧ k_disk k' !! b = k_disk k_staged2 !! b).
Proof.
  apply (@write_log_fills_slots xv6 k_staged2).
  - exact k_staged2_header_ok.
  - by vm_compute.
  - exact k_staged2_blocks_ok.
  - exact k_staged2_no_slot.
Defined.

Lemma k_checksummed_header_ok : @header_ok xv6 k_checksummed.
Proof. by vm_compute. Qed.

Lemma k_checksummed_blocks_ok : @blocks_ok xv6 k_checksummed.
Proof.
  apply blocks_ok_intro.
  - refine (bool_decide_unpack _ _). by vm_compute.
  - refine (bool_decide_unpack _ _). by vm_compute.
Qed.

Lemma k_checksummed_place :
  staged k_checksummed = [100; 101]
  ∧ k_n k_checksummed = 2 ∧ k_start k_checksummed = 2.
Proof. by vm_compute. Qed.

Lemma k_checksummed_NoDup : NoDup (staged k_checksummed).
Proof.
  pose proof k_checksummed_place as (Hst & _ & _).
  rewrite Hst, <- k_staged2_staged. exact k_staged2_NoDup.
Qed.

Lemma k_checksummed_no_slot (h j : Z) :
  h ∈ staged k_checksummed → 0 ≤ j < k_n k_checksummed →
  h ≠ slot k_checksummed j.
Proof.
  pose proof k_checksummed_place as (Hst & Hn & Hs).
  intros Hh Hj Heq. rewrite Hst in Hh. rewrite Hn in Hj.
  rewrite slot_unfold, Hs in Heq. unfold to_uint in Heq.
  rewrite Z.mod_small in Heq by (change (2 ^ 32) with 4294967296; lia).
  apply elem_of_cons in Hh as [Hh|Hh]; [lia|].
  apply list_elem_of_singleton in Hh. lia.
Qed.

Lemma install_trans_installs_witness :
  ∃ k', @install_trans xv6 k_checksummed = Done tt k'
        ∧ k_log k' = k_log k_checksummed
        ∧ (∀ j h, staged k_checksummed !! j = Some h →
                  k_disk k' !! h
                  = Some (@k_view xv6 k_checksummed
                            (slot k_checksummed (Z.of_nat j)))
                  ∧ @k_view xv6 k' h
                    = @k_view xv6 k_checksummed
                        (slot k_checksummed (Z.of_nat j)))
        ∧ (∀ b, b ∉ staged k_checksummed →
                @k_view xv6 k' b = @k_view xv6 k_checksummed b
                ∧ k_disk k' !! b = k_disk k_checksummed !! b).
Proof.
  apply (@install_trans_installs xv6 k_checksummed).
  - exact k_checksummed_header_ok.
  - exact k_checksummed_blocks_ok.
  - exact k_checksummed_NoDup.
  - exact k_checksummed_no_slot.
Defined.

Lemma flush_stays_in_log_witness :
  (∀ b, b ≠ checksum_block k_staged2 →
        (∀ j, 0 ≤ j < k_n k_staged2 → b ≠ slot k_staged2 j) →
        k_disk k_flushed !! b = k_disk k_staged2 !! b
        ∧ @k_view xv6 k_flushed b = @k_view xv6 k_staged2 b)
  ∧ (k_n k_staged2 < 2 ^ 31 →
     @on_device xv6 k_flushed (header_block k_staged2)
     = @on_device xv6 k_staged2 (header_block k_staged2)).
Proof.
  apply (@flush_stays_in_log xv6 k_staged2 k_flushed 1).
  by vm_compute.
Defined.

Lemma commit_installs_witness :
  ∃ k', @commit xv6 k_staged2 = Done tt k'
        ∧ ∀ h, h ∈ staged k_staged2 →
               k_disk k' !! h = Some (@k_view xv6 k_staged2 h)
               ∧ @k_view xv6 k' h = @k_view xv6 k_staged2 h.
Proof.
  apply (@commit_installs xv6 k_staged2).
  - exact k_staged2_header_ok.
  - by vm_compute.
  - by vm_compute.
  - exact k_staged2_blocks_ok.
  - by vm_compute.
  - exact k_staged2_NoDup.
  - exact k_staged2_outside_log.
Defined.

Lemma commit_frame_witness :
  k_disk k_commit_done !! 200 = k_disk k_staged2 !! 200
  ∧ @k_view xv6 k_commit_done 200 = @k_view xv6 k_staged2 200.
Proof.
  apply (@commit_frame xv6 k_staged2 k_commit_done).
  - by vm_compute.
  - rewrite k_staged2_staged. intros Hin.
    apply elem_of_cons in Hin as [Hin|Hin]; [done|].
    by apply list_elem_of_singleton in Hin.
  - destruct k_staged2_place as [Hn Hs].
    intros (j & Hj & Heq). rewrite Hn in Hj. rewrite Hs in Heq.
    unfold to_uint in Heq.
    rewrite Z.mod_small in Heq by (change (2 ^ 32) with 4294967296; lia).
    lia.
Defined.

Lemma k_reboot_length :
  length (k_block (@boot_log xv6 (Superblock 2 30) 1 d_crashed))
  = Z.to_nat (@LOGSIZE xv6).
Proof. by vm_compute. Qed.

Lemma read_head_bounds_witness :
  let k := @boot_log xv6 (Superblock 2 30) 1 d_crashed in
  let d := @k_view xv6 k (header_block k) in
  ∃ k', @read_head xv6 k = Done tt k'
        ∧ k_n k' = load_int d 0
        ∧ take (Z.to_nat (load_int d 0)) (k_block k')
          = decode_blocks d (load_int d 0)
        ∧ length (k_block k') = Z.to_nat (@LOGSIZE xv6)
        ∧ log_fields k' = log_fields k
        ∧ k_disk k' = k_disk k
        ∧ ∀ b, @k_view xv6 k' b = @k_view xv6 k b.
Proof.
  intros k d.
  apply (proj1 (@read_head_bounds xv6 k k_reboot_length
                  ltac:(by vm_compute))).
  by vm_compute.
Defined.

(** The header that run of [read_head] finds: blocks 100 and 101. *)
Example read_head_example :
  let k := @boot_log xv6 (Superblock 2 30) 1 d_crashed in
  let d := @k_view xv6 k (header_block k) in
  load_int d 0 = 2 ∧ decode_blocks d (load_int d 0) = [100; 101].
Proof. by vm_compute. Qed.

Lemma header_round_trip_witness :
  ∃ k1, @write_head xv6 k_staged2 = Done tt k1
        ∧ ∀ k2, k_start k2 = k_start k_staged2 →
                length (k_block k2) = Z.to_nat (@LOGSIZE xv6) →
                @k_view xv6 k2 (header_block k_staged2)
                = @on_device xv6 k1 (header_block k_staged2) →
                ∃ k3, @read_head xv6 k2 = Done tt k3
                      ∧ k_n k3 = k_n k_staged2
                      ∧ staged k3 = staged k_staged2.
Proof.
  apply (@header_round_trip xv6 k_staged2).
  - exact k_staged2_header_ok.
  - exact k_staged2_blocks_ok.
  - by vm_compute.
  - by vm_compute.
Defined.

Lemma write_checksum_round_trip_witness :
  ∃ k', @write_checksum xv6 k_staged2 = Done tt k'
        ∧ k_checksum k' = @commit_checksum xv6 k_staged2
        ∧ 0 ≤ k_checksum k' < @BSIZE xv6
        ∧ load_checksum (@on_device xv6 k' (checksum_block k_staged2))
          = k_checksum k'
        ∧ @stored_checksum xv6 k' = k_checksum k'.
Proof.
  apply (@write_checksum_round_trip xv6 k_staged2).
  - exact k_staged2_blocks_ok.
  - by vm_compute.
Defined.

Lemma checksum_ignores_last_byte_witness :
  @commit_checksum xv6 k_last_byte = @commit_checksum xv6 k_checksummed
  ∧ @recomputed_checksum xv6 k_last_byte
    = @recomputed_checksum xv6 k_checksummed.
Proof.
  apply (@checksum_ignores_last_byte xv6 k_checksummed k_last_byte 4 7).
  - by vm_compute.
  - exists 8388608. by vm_compute.
  - reflexivity.
Defined.

Lemma end_op_defers_commit_witness :
  ∃ k', @end_op xv6 k_two_ops = Done tt k'
        ∧ k_outstanding k' = to_int (k_outstanding k_two_ops - 1)
        ∧ k_locked k' = false
        ∧ k_committing k' = 0
        ∧ log_lh (k_log k') = log_lh (k_log k_two_ops)
        ∧ k_checksum k' = k_checksum k_two_ops
        ∧ k_cache k' = k_cache k_two_ops ∧ k_dirty k' = k_dirty k_two_ops
        ∧ k_disk k' = k_disk k_two_ops
        ∧ k_trace k' = k_trace k_two_ops ++ [EvWakeup].
Proof.
  apply (@end_op_defers_commit xv6 k_two_ops).
  - by vm_compute.
  - by vm_compute.
Defined.

Lemma end_op_while_committing_witness :
  ∃ k', @end_op xv6 k_in_commit = Panic "log.committing" k'
        ∧ k_outstanding k' = to_int (k_outstanding k_in_commit - 1)
        ∧ k_locked k' = true
        ∧ log_lh (k_log k') = log_lh (k_log k_in_commit)
        ∧ k_disk k' = k_disk k_in_commit ∧ k_cache k' = k_cache k_in_commit
        ∧ k_trace k' = k_trace k_in_commit.
Proof.
  apply (@end_op_while_committing xv6 k_in_commit). by vm_compute.
Defined.

Lemma end_op_commits_transaction_witness :
  ∃ k' tr, @end_op xv6 k_staged2 = Done tt k'
        ∧ (∀ h, h ∈ staged k_staged2 →
                k_disk k' !! h = Some (@k_view xv6 k_staged2 h))
        ∧ k_n k' = 0
        ∧ k_outstanding k' = 0
        ∧ k_committing k' = 0
        ∧ k_locked k' = false
        ∧ k_trace k' = k_trace k_staged2 ++ tr ++ [EvWakeup].
Proof.
  apply (@end_op_commits_transaction xv6 k_staged2).
  - exact k_staged2_header_ok.
  - by vm_compute.
  - exact k_staged2_blocks_ok.
  - by vm_compute.
  - exact k_staged2_NoDup.
  - exact k_staged2_outside_log.
  - by vm_compute.
  - by vm_compute.
Defined.

Lemma empty_operation_witness :
  ∃ k', (@begin_op xv6 [];; @end_op xv6) k_mounted = Done tt k'
        ∧ log_fields k' = log_fields k_mounted
        ∧ log_lh (k_log k') = log_lh (k_log k_mounted)
        ∧ k_locked k' = false
        ∧ k_cache k' = k_cache k_mounted ∧ k_dirty k' = k_dirty k_mounted
        ∧ k_disk k' = k_disk k_mounted
        ∧ k_trace k' = k_trace k_mounted ++ [EvWakeup].
Proof.
  apply (@empty_operation xv6 k_mounted []).
  - by vm_compute.
  - split; [by vm_compute|]. vm_compute. intros H. discriminate H.
  - by vm_compute.
  - by vm_compute.
Defined.

Lemma initlog_mounts_witness :
  @initlog small_blocks (Superblock 2 30) 1 (@boot small_blocks ∅)
  = Panic "initlog: too big logheader" (@boot small_blocks ∅)
  ∧ (4 * (@LOGSIZE xv6 + 1) < @BSIZE xv6
     ∧ k_start k_mounted = 2 ∧ k_size k_mounted = 30 ∧ k_dev k_mounted = 1
     ∧ k_checksum k_mounted = 0 ∧ k_n k_mounted = 0
     ∧ k_outstanding k_mounted = 0 ∧ k_committing k_mounted = 0
     ∧ k_locked k_mounted = false).
Proof.
  split.
  - apply (proj1 (@initlog_mounts small_blocks (Superblock 2 30) 1 ∅)).
    vm_compute. intros H. discriminate H.
  - apply (proj2 (@initlog_mounts xv6 (Superblock 2 30) 1 ∅) k_mounted).
    by vm_compute.
Defined.

(** A superblock whose [logstart] does not fit an [int]: [log.start] is
    the value the conversion gives, and [bread] is passed the block number
    of the superblock. *)
Example initlog_converts_logstart :
  let k := final (@initlog xv6 (Superblock 4294967294 30) 1 (@boot xv6 ∅)) in
  k_start k = -2
  ∧ k_trace k =
      [EvRead 4294967294;
       EvPrint "boot log checksum match, proceding with log commit. \n" [];
       EvRead 4294967295;
       EvWrite 4294967295 (replicate 512 0)].
Proof. by vm_compute. Qed.

Lemma k_reboot1_blocks_ok : @blocks_ok xv6 k_reboot1.
Proof.
  apply blocks_ok_intro.
  - refine (bool_decide_unpack _ _). by vm_compute.
  - refine (bool_decide_unpack _ _). by vm_compute.
Qed.

Lemma k_reboot1_homes :
  to_uint <$> decode_blocks (@k_view xv6 k_reboot1 (header_block k_reboot1))
                (load_int (@k_view xv6 k_reboot1 (header_block k_reboot1)) 0)
  = [100].
Proof. by vm_compute. Qed.

Lemma recovery_replays_witness :
  let dh := @k_view xv6 k_reboot1 (header_block k_reboot1) in
  let n := load_int dh 0 in
  let homes := to_uint <$> decode_blocks dh n in
  ∃ k', @recover_from_log xv6 k_reboot1 = Done tt k'
        ∧ (∀ j h, homes !! j = Some h →
                  k_disk k' !! h
                  = Some (@k_view xv6 k_reboot1 (slot k_reboot1 (Z.of_nat j))))
        ∧ (∀ b, b ∉ homes → b ≠ header_block k_reboot1 →
                k_disk k' !! b = k_disk k_reboot1 !! b)
        ∧ k_n k' = 0
        ∧ load_int (@on_device xv6 k' (header_block k_reboot1)) 0 = 0.
Proof.
  apply (@recovery_replays xv6 k_reboot1).
  - by vm_compute.
  - exact k_reboot1_blocks_ok.
  - by vm_compute.
  - by vm_compute.
  - by vm_compute.
  - by vm_compute.
  - rewrite k_reboot1_homes. apply NoDup_singleton.
  - rewrite k_reboot1_homes. intros h Hh.
    apply list_elem_of_singleton in Hh as ->. split.
    + by vm_compute.
    + intros j Hj. vm_compute in Hj. destruct Hj as [Hj1 Hj2].
      assert (j = 0) as ->.
      { destruct j as [|p|p]; [done|by destruct p|done]. }
      by vm_compute.
Defined.

Lemma recovery_of_empty_log_witness :
  ∃ k', @recover_from_log xv6 k_reboot0 = Done tt k'
        ∧ ∀ b, b ≠ header_block k_reboot0 →
               k_disk k' !! b = k_disk k_reboot0 !! b
               ∧ @k_view xv6 k' b = @k_view xv6 k_reboot0 b.
Proof.
  apply (@recovery_of_empty_log xv6 k_reboot0).
  - by vm_compute.
  - by vm_compute.
  - by vm_compute.
Defined.

Lemma log_write_defers_io_witness :
  k_disk k_recorded = k_disk k_in_op ∧ k_cache k_recorded = k_cache k_in_op
  ∧ k_trace k_recorded = k_trace k_in_op
  ∧ k_dirty k_recorded = k_dirty k_in_op ∪ {[100]}
  ∧ k_locked k_recorded = false.
Proof.
  apply (@log_write_defers_io xv6 100 k_in_op k_recorded).
  - exact k_in_op_header_ok.
  - exact k_in_op_layout_ok.
  - by vm_compute.
  - by vm_compute.
Defined.

Lemma commit_check_passes_witness :
  ∃ k1 k2, @write_checksum xv6 k_staged2 = Done tt k1
           ∧ @check_checksum xv6 k1 = Done 1 k2.
Proof.
  apply (@commit_check_passes xv6 k_staged2). by vm_compute.
Defined.

Lemma crash_before_commit_point_witness :
  ∃ k' tr1 d1 rest,
    @commit xv6 k_staged2 = Done tt k'
    ∧ k_trace k' =
        k_trace k_staged2 ++ tr1
        ++ EvWrite (header_block k_staged2) d1 :: rest
    ∧ ∀ landed, ∃ k'',
        @initlog xv6 (Superblock 2 30) 1
          (@boot xv6 (crash_disk (k_disk k_staged2) tr1 landed))
          = Done tt k''
        ∧ ∀ b, ¬ in_log k_staged2 b →
               k_disk k'' !! b = k_disk k_staged2 !! b.
Proof.
  apply (@crash_before_commit_point xv6 k_staged2 (Superblock 2 30) 1).
  - exact k_staged2_header_ok.
  - by vm_compute.
  - by vm_compute.
  - exact k_staged2_blocks_ok.
  - by vm_compute.
  - by vm_compute.
  - by vm_compute.
Defined.

Lemma k_mounted_start : k_start k_mounted = 2.
Proof. by vm_compute. Qed.

Lemma k_mounted_header_ok : @header_ok xv6 k_mounted.
Proof. by vm_compute. Qed.

Lemma k_mounted_blocks_ok : @blocks_ok xv6 k_mounted.
Proof.
  apply blocks_ok_intro.
  - refine (bool_decide_unpack _ _). by vm_compute.
  - refine (bool_decide_unpack _ _). by vm_compute.
Qed.

Lemma operation_is_durable_witness :
  ∃ k2, @end_op xv6 k_two_recorded = Done tt k2
        ∧ (∀ b, b ∈ [100; 101] →
                k_disk k2 !! b = Some (@k_view xv6 k_mounted b))
        ∧ k_n k2 = 0 ∧ k_outstanding k2 = 0 ∧ k_committing k2 = 0
        ∧ k_locked k2 = false.
Proof.
  apply (@operation_is_durable xv6 k_mounted k_two_recorded [] [100; 101]).
  - exact k_mounted_header_ok.
  - exact k_mounted_layout_ok.
  - exact k_mounted_blocks_ok.
  - by vm_compute.
  - by vm_compute.
  - split; [by vm_compute|]. vm_compute. intros H. discriminate H.
  - by vm_compute.
  - by vm_compute.
  - repeat constructor; by vm_compute.
  - intros b j Hb Hj Heq.
    rewrite k_mounted_start in Heq.
    change (@LOGSIZE xv6) with 30 in Hj.
    unfold to_uint in Heq.
    rewrite Z.mod_small in Heq by (change (2 ^ 32) with 4294967296; lia).
    apply elem_of_cons in Hb as [->|Hb]; [lia|].
    apply list_elem_of_singleton in Hb as ->. lia.
  - by vm_compute.
Defined.

Lemma install_trans_idempotent_witness :
  ∃ k1 k2, @install_trans xv6 k_checksummed = Done tt k1
           ∧ @install_trans xv6 k1 = Done tt k2
           ∧ k_disk k2 = k_disk k1
           ∧ ∀ b, @k_view xv6 k2 b = @k_view xv6 k1 b.
Proof.
  apply (@install_trans_idempotent xv6 k_checksummed).
  - exact k_checksummed_header_ok.
  - exact k_checksummed_blocks_ok.
  - exact k_checksummed_NoDup.
  - exact k_checksummed_no_slot.
Defined.

Lemma checksum_misses_last_slot_witness :
  @commit_checksum xv6 k_last_slot = @commit_checksum xv6 k_checksummed.
Proof.
  apply (@checksum_misses_last_slot xv6 k_checksummed k_last_slot 0 9).
  - by vm_compute.
  - reflexivity.
Defined.
